(** * Crash Stars: ledger schema, wire decoders, store gate and round engine

    A shallow embedding of the parts of the repository that carry money or
    round state:

    - [database_schema.sql], [fix_user_stats_trigger.sql] and the promo-code
      migration: tables, CHECK constraints, the partial unique index and the
      plpgsql trigger functions, executed statement by statement with
      rollback on a violated constraint;
    - [frontend/src/services/websocket.ts]: the two binary decoders;
    - the store component: the wagered-balance gate on a gift purchase;
    - [frontend/src/components/Game/GameWebSocket.tsx]: the coefficient
      update and the cashout handler;
    - [backend/GAME_CONFIG_README.md]: the crash-point generator.

    Conventions.  Every DECIMAL(_,2) value is a [Z] counting hundredths
    (cents for money, 0.01 steps for multipliers).  Python [Decimal] values
    are rationals ([Q]): the generator's sums and products are exact at the
    precision of the default context.  JavaScript numbers that the code only
    compares or takes the maximum of are rationals as well; where the code
    computes with them (the store halves a price and subtracts the wagered
    balance) they are IEEE 754 doubles, module [Binary64].  Columns that
    carry a DEFAULT are read as always holding a value: no statement of the
    repository writes NULL into them. *)

From Stdlib Require Import ZArith QArith Qminmax Qpower Lia Lqa Bool List String Ascii DecimalString.
From Stdlib Require SpecFloat.
From stdpp Require Import base gmap strings list fin_maps sorting.

Local Open Scope Z_scope.

(** ** Fixed-point numerics of the store *)

Module Numeric.

(** Rounding of the quotient [n / d] ([d > 0]) to an integer, ties away
    from zero: what PostgreSQL does when a [numeric] value is stored into
    a column or variable of smaller scale. *)
Definition round_half_away (n d : Z) : Z :=
  if 0 <=? n then (2 * n + d) / (2 * d)
  else - ((2 * (- n) + d) / (2 * d)).

(** DECIMAL(12,2): at most ten digits before the point. *)
Definition fits_decimal_12_2 (c : Z) : bool := Z.abs c <? 10 ^ 12.

(** DECIMAL(10,2): at most eight digits before the point. *)
Definition fits_decimal_10_2 (c : Z) : bool := Z.abs c <? 10 ^ 10.

(** INTEGER: 32-bit signed. *)
Definition fits_integer (n : Z) : bool := (- 2 ^ 31 <=? n) && (n <? 2 ^ 31).

(** [COALESCE(x, d)]. *)
Definition coalesce {A} (x : option A) (d : A) : A := default d x.

(** SQL [a = b] on nullable operands, read as a WHERE condition: NULL on
    either side does not match. *)
Definition sql_eq (a b : option Z) : bool :=
  match a, b with
  | Some x, Some y => bool_decide (x = y)
  | _, _ => false
  end.

End Numeric.
Import Numeric.

(** ** database_schema.sql *)

Module DatabaseSchema.

(** *** Tables (the columns that constraints and triggers read or write) *)

Record users_row := mk_user {
  balance : Z;                      (* DECIMAL(12,2) DEFAULT 0.00 NOT NULL *)
  withdrawal_locked_balance : Z;    (* added by the promo-code migration *)
  users_updated_at : Z
}.

Record user_stats_row := mk_stats {
  total_games : Z;
  games_won : Z;
  games_lost : Z;
  total_wagered : Z;
  total_won : Z;
  wagered_balance : Z;
  best_multiplier : Z;
  avg_multiplier : Z;
  stats_updated_at : Z
}.

(** The JSON object the refund trigger builds with [jsonb_build_object]. *)
Record refund_note := mk_note {
  note_payment_request_id : Z;
  note_gift_id : string;
  note_reason : string
}.

Record transactions_row := mk_tx {
  tx_id : Z;
  tx_user_id : Z;
  tx_game_id : option Z;
  tx_type : string;
  tx_amount : Z;
  tx_balance_after : Z;
  tx_multiplier : option Z;
  tx_status : string;               (* DEFAULT 'pending' *)
  tx_extra_data : option refund_note;
  tx_created_at : Z;
  tx_completed_at : option Z
}.

Inductive payment_status := pending | approved | completed | canceled.

#[global] Instance payment_status_eq_dec : EqDecision payment_status.
Proof. solve_decision. Defined.

Record payment_requests_row := mk_pr {
  pr_user_id : Z;
  pr_gift_id : string;
  pr_price : Z;
  pr_price_stars : Z;
  pr_status : payment_status;       (* check_payment_request_status *)
  pr_cancel_reason : option string;
  pr_created_at : Z;
  pr_approved_at : option Z;
  pr_completed_at : option Z
}.

Record game_history_row := mk_gh {
  gh_id : Z;
  gh_crash_point : Z;               (* DECIMAL(10,2) NOT NULL *)
  gh_total_bet : Z;
  gh_total_payout : Z;
  gh_house_profit : Z;
  gh_player_count : Z;
  gh_played_at : Z
}.

Record database := mk_db {
  users : gmap Z users_row;
  user_stats : gmap Z user_stats_row;
  transactions : list transactions_row;
  payment_requests : gmap Z payment_requests_row;
  game_history : list game_history_row;
  transactions_id_seq : Z
}.

Definition empty_database : database :=
  mk_db ∅ ∅ [] ∅ [] 1.

(** *** CHECK constraints *)

Definition max_balance : Z := 99999999999.   (* 999999999.99 *)

Definition check_positive_balance (u : users_row) : bool := 0 <=? balance u.

Definition check_max_balance (u : users_row) : bool := balance u <=? max_balance.

Definition check_valid_transaction_amounts (t : transactions_row) : bool :=
  (bool_decide (tx_type t ∈ ["game_win"; "deposit"; "referral_bonus"; "withdrawal"; "refund"])
     && (0 <? tx_amount t))
  || (bool_decide (tx_type t ∈ ["game_loss"; "gift_purchase"]) && (tx_amount t <? 0))
  || negb (bool_decide (tx_type t ∈ ["game_win"; "deposit"; "referral_bonus"; "game_loss";
                                     "withdrawal"; "gift_purchase"; "refund"])).

Definition check_positive_balance_after (t : transactions_row) : bool :=
  0 <=? tx_balance_after t.

(** A NULL multiplier makes the first disjunct unknown; the CHECK then
    rejects the row only when the whole expression is false, which it
    never is: unknown OR false is unknown. *)
Definition check_valid_multiplier (t : transactions_row) : bool :=
  match tx_multiplier t with
  | Some m => (bool_decide (tx_type t = "game_win") && (100 <=? m) && (m <=? 10000))
              || negb (bool_decide (tx_type t = "game_win"))
  | None => true
  end.

Definition check_max_transaction_amount (t : transactions_row) : bool :=
  Z.abs (tx_amount t) <=? 100000000.

Definition check_crash_point_range (g : game_history_row) : bool :=
  (100 <=? gh_crash_point g) && (gh_crash_point g <=? 100000).

Definition check_stats_logical (s : user_stats_row) : bool :=
  (0 <=? total_games s) && (0 <=? games_won s) && (0 <=? games_lost s)
  && (games_won s <=? total_games s) && (games_lost s <=? total_games s)
  && (0 <=? total_wagered s) && (0 <=? total_won s) && (0 <=? wagered_balance s)
  && (0 <=? best_multiplier s) && (0 <=? avg_multiplier s).

Definition check_payment_request_positive_price (p : payment_requests_row) : bool :=
  0 <? pr_price p.

Definition check_payment_request_positive_price_stars (p : payment_requests_row) : bool :=
  0 <? pr_price_stars p.

Definition check_cancel_reason_valid (p : payment_requests_row) : bool :=
  match pr_cancel_reason p with
  | None => true
  | Some r => bool_decide (r ∈ ["no_message"; "price_changed"; "suspect_act"])
  end.

Definition check_payment_request_timestamps (p : payment_requests_row) : bool :=
  match pr_approved_at p with None => true | Some a => pr_created_at p <=? a end
  && match pr_completed_at p with None => true | Some c => pr_created_at p <=? c end
  && match pr_completed_at p, pr_approved_at p with
     | Some c, Some a => a <=? c
     | _, _ => true
     end.

(** *** idx_unique_user_game_bet

    [CREATE UNIQUE INDEX ... ON transactions (user_id, game_id, created_at)
     WHERE type IN ('game_loss', 'game_bet') AND status = 'completed'].
    Two rows collide when both satisfy the predicate and agree on all
    three key columns; a NULL [game_id] never collides. *)

Definition in_bet_index (t : transactions_row) : bool :=
  bool_decide (tx_type t ∈ ["game_loss"; "game_bet"])
  && bool_decide (tx_status t = "completed").

Definition bet_index_collide (a b : transactions_row) : bool :=
  in_bet_index a && in_bet_index b
  && bool_decide (tx_user_id a = tx_user_id b)
  && sql_eq (tx_game_id a) (tx_game_id b)
  && bool_decide (tx_created_at a = tx_created_at b).

Definition idx_unique_user_game_bet (rows : list transactions_row)
    (t : transactions_row) : bool :=
  forallb (fun r => negb (bet_index_collide r t)) rows.

(** PRIMARY KEY (id, created_at). *)
Definition transactions_pkey (rows : list transactions_row)
    (t : transactions_row) : bool :=
  forallb (fun r => negb (bool_decide (tx_id r = tx_id t)
                          && bool_decide (tx_created_at r = tx_created_at t))) rows.

(** *** update_updated_at_column (BEFORE UPDATE ON users) *)

Definition update_updated_at_column (now : Z) (u : users_row) : users_row :=
  mk_user (balance u) (withdrawal_locked_balance u) now.

(** *** update_user_stats_on_transaction, as the schema file defines it *)

Definition is_game_bet_of (NEW t : transactions_row) : bool :=
  bool_decide (tx_user_id t = tx_user_id NEW)
  && sql_eq (tx_game_id t) (tx_game_id NEW)
  && bool_decide (tx_type t = "game_bet").

(** [SELECT ABS(amount) INTO bet_amount ... LIMIT 1]: the first matching
    row in storage order, NULL when there is none. *)
Definition select_bet_amount (rows : list transactions_row)
    (NEW : transactions_row) : option Z :=
  (fun t => Z.abs (tx_amount t)) <$> head (List.filter (is_game_bet_of NEW) rows).

Definition is_win (NEW : transactions_row) : bool :=
  bool_decide (tx_type NEW = "game_win").

Definition bet_amount (rows : list transactions_row) (NEW : transactions_row) : Z :=
  if is_win NEW then coalesce (select_bet_amount rows NEW) 0
  else Z.abs (tx_amount NEW).

Definition win_amount (rows : list transactions_row) (NEW : transactions_row) : Z :=
  if is_win NEW then tx_amount NEW - bet_amount rows NEW else 0.

(** [current_stats] is the row of the user, if any; the declared type of
    [new_avg_multiplier] is DECIMAL(10,2), so the running average is
    rounded on assignment. *)
Definition new_avg_multiplier (current_stats : option user_stats_row)
    (NEW : transactions_row) : Z :=
  match is_win NEW, tx_multiplier NEW with
  | true, Some m =>
      match current_stats with
      | None => m
      | Some cs =>
          if games_won cs =? 0 then m
          else round_half_away (avg_multiplier cs * games_won cs + m) (games_won cs + 1)
      end
  | _, _ => coalesce (avg_multiplier <$> current_stats) 0
  end.

(** The trigger function.  [now] is the value of NOW(), [stats] the
    user_stats table and [rows] the transactions table as the AFTER INSERT
    trigger sees it. *)
Definition update_user_stats_on_transaction (now : Z)
    (stats : gmap Z user_stats_row) (rows : list transactions_row)
    (NEW : transactions_row) : gmap Z user_stats_row :=
  if negb (bool_decide (tx_type NEW ∈ ["game_win"; "game_loss"])) then stats
  else
    let bet := bet_amount rows NEW in
    let win := win_amount rows NEW in
    let current_stats := stats !! tx_user_id NEW in
    let avg := new_avg_multiplier current_stats NEW in
    if negb (is_win NEW) then
      match stats !! tx_user_id NEW with
      | None => <[tx_user_id NEW := mk_stats 1 0 1 bet 0 0 0 0 now]> stats
      | Some s =>
          <[tx_user_id NEW :=
              mk_stats (total_games s + 1) (games_won s) (games_lost s + 1)
                       (total_wagered s + bet) (total_won s) (wagered_balance s)
                       (best_multiplier s) (avg_multiplier s) now]> stats
      end
    else
      match stats !! tx_user_id NEW with
      | None =>
          <[tx_user_id NEW :=
              mk_stats 1 1 0 0 win win (coalesce (tx_multiplier NEW) 0) avg now]> stats
      | Some s =>
          <[tx_user_id NEW :=
              mk_stats (if total_games s <=? games_won s
                        then total_games s + 1 else total_games s)
                       (games_won s + 1) (games_lost s)
                       (total_wagered s) (total_won s + win) (wagered_balance s + win)
                       (Z.max (best_multiplier s) (coalesce (tx_multiplier NEW) 0))
                       avg now]> stats
      end.

(** The row of the VALUES list, which [ON CONFLICT] calls EXCLUDED.  The
    schema file and the migration propose the same row. *)
Definition excluded (now : Z) (stats : gmap Z user_stats_row)
    (rows : list transactions_row) (NEW : transactions_row) : user_stats_row :=
  let bet := bet_amount rows NEW in
  let win := win_amount rows NEW in
  let avg := new_avg_multiplier (stats !! tx_user_id NEW) NEW in
  if negb (is_win NEW) then mk_stats 1 0 1 bet 0 0 0 0 now
  else mk_stats 1 1 0 0 win win (coalesce (tx_multiplier NEW) 0) avg now.

End DatabaseSchema.
Import DatabaseSchema.

(** ** fix_user_stats_trigger.sql *)

Module FixUserStatsTrigger.

(** The replacement installed by the migration, transcribed on its own
    from the migration file.  Its declarations and the computation of
    [bet_amount], [win_amount] and [new_avg_multiplier] repeat the schema
    file line for line. *)
Definition update_user_stats_on_transaction (now : Z)
    (stats : gmap Z user_stats_row) (rows : list transactions_row)
    (NEW : transactions_row) : gmap Z user_stats_row :=
  if negb (bool_decide (tx_type NEW ∈ ["game_win"; "game_loss"])) then stats
  else
    let bet := bet_amount rows NEW in
    let win := win_amount rows NEW in
    let current_stats := stats !! tx_user_id NEW in
    let avg := new_avg_multiplier current_stats NEW in
    if negb (is_win NEW) then
      match stats !! tx_user_id NEW with
      | None => <[tx_user_id NEW := mk_stats 1 0 1 bet 0 0 0 0 now]> stats
      | Some s =>
          <[tx_user_id NEW :=
              mk_stats (total_games s + 1) (games_won s) (games_lost s + 1)
                       (total_wagered s + bet) (total_won s) (wagered_balance s)
                       (best_multiplier s) (avg_multiplier s) now]> stats
      end
    else
      match stats !! tx_user_id NEW with
      | None =>
          <[tx_user_id NEW :=
              mk_stats 1 1 0 0 win win (coalesce (tx_multiplier NEW) 0) avg now]> stats
      | Some s =>
          <[tx_user_id NEW :=
              mk_stats (total_games s + 1)
                       (games_won s + 1) (games_lost s)
                       (total_wagered s) (total_won s + win) (wagered_balance s + win)
                       (Z.max (best_multiplier s) (coalesce (tx_multiplier NEW) 0))
                       avg now]> stats
      end.

End FixUserStatsTrigger.

(** ** The promo-code migration *)

Module PromoCodesMigration.

(** The constraint as the migration re-creates it, with
    ['promo_code_bonus'] among the credited kinds. *)
Definition check_valid_transaction_amounts (t : transactions_row) : bool :=
  (bool_decide (tx_type t ∈ ["game_win"; "deposit"; "referral_bonus"; "withdrawal"; "refund";
                             "promo_code_bonus"])
     && (0 <? tx_amount t))
  || (bool_decide (tx_type t ∈ ["game_loss"; "gift_purchase"]) && (tx_amount t <? 0))
  || negb (bool_decide (tx_type t ∈ ["game_win"; "deposit"; "referral_bonus"; "game_loss";
                                     "withdrawal"; "gift_purchase"; "refund";
                                     "promo_code_bonus"])).

Definition check_withdrawal_locked_balance_non_negative (u : users_row) : bool :=
  0 <=? withdrawal_locked_balance u.

(** [unlock_balance_on_deposit]: the new [users] row of the depositor, or
    [None] when the UPDATE inside the function touches no row. *)
Definition unlock_balance_on_deposit (now : Z) (NEW : transactions_row)
    (u : users_row) : option users_row :=
  if bool_decide (tx_type NEW = "deposit") && bool_decide (tx_status NEW = "completed")
     && (0 <? tx_amount NEW)
  then
    if 0 <? withdrawal_locked_balance u
    then Some (update_updated_at_column now
                 (mk_user (balance u)
                          (Z.max 0 (withdrawal_locked_balance u - tx_amount NEW))
                          (users_updated_at u)))
    else None
  else None.

End PromoCodesMigration.

(** ** Statement execution

    One SQL statement runs to completion, row triggers included, or is
    rolled back as a whole: a violated constraint anywhere inside it leaves
    every table as it was.  [None] is the rollback; what it keeps of the
    id sequence is in [rollback] below. *)

Module Engine.

(** Which migrations have been applied on top of the schema file. *)
Record deployment := mk_deployment {
  promo_codes_migration : bool;
  user_stats_fix : bool
}.

Definition require (b : bool) : option unit := if b then Some tt else None.

Definition with_users (db : database) (us : gmap Z users_row) : database :=
  mk_db us (user_stats db) (transactions db) (payment_requests db)
        (game_history db) (transactions_id_seq db).

Definition with_user_stats (db : database) (st : gmap Z user_stats_row) : database :=
  mk_db (users db) st (transactions db) (payment_requests db)
        (game_history db) (transactions_id_seq db).

Definition with_payment_requests (db : database)
    (prs : gmap Z payment_requests_row) : database :=
  mk_db (users db) (user_stats db) (transactions db) prs
        (game_history db) (transactions_id_seq db).

(** *** Row checks *)

Definition users_row_ok (dep : deployment) (u : users_row) : bool :=
  check_positive_balance u && check_max_balance u
  && fits_decimal_12_2 (balance u)
  && (negb (promo_codes_migration dep)
      || PromoCodesMigration.check_withdrawal_locked_balance_non_negative u).

Definition user_stats_row_ok (s : user_stats_row) : bool :=
  check_stats_logical s
  && fits_integer (total_games s) && fits_integer (games_won s)
  && fits_integer (games_lost s)
  && fits_decimal_12_2 (total_wagered s) && fits_decimal_12_2 (total_won s)
  && fits_decimal_12_2 (wagered_balance s)
  && fits_decimal_10_2 (best_multiplier s) && fits_decimal_10_2 (avg_multiplier s).

Definition valid_transaction_amounts (dep : deployment) (t : transactions_row) : bool :=
  if promo_codes_migration dep
  then PromoCodesMigration.check_valid_transaction_amounts t
  else DatabaseSchema.check_valid_transaction_amounts t.

Definition transactions_row_ok (dep : deployment) (db : database)
    (t : transactions_row) : bool :=
  bool_decide (is_Some (users db !! tx_user_id t))        (* REFERENCES users(id) *)
  && fits_decimal_12_2 (tx_amount t) && fits_decimal_12_2 (tx_balance_after t)
  && valid_transaction_amounts dep t
  && check_positive_balance_after t
  && check_valid_multiplier t
  && check_max_transaction_amount t
  && transactions_pkey (transactions db) t
  && idx_unique_user_game_bet (transactions db) t.

Definition payment_requests_row_ok (db : database) (p : payment_requests_row) : bool :=
  bool_decide (is_Some (users db !! pr_user_id p))        (* REFERENCES users(id) *)
  && fits_decimal_12_2 (pr_price p) && fits_decimal_12_2 (pr_price_stars p)
  && check_payment_request_positive_price p
  && check_payment_request_positive_price_stars p
  && check_cancel_reason_valid p
  && check_payment_request_timestamps p.

(** *** UPDATE users SET ... WHERE id = [id]

    [f] computes the SET list; the BEFORE UPDATE trigger stamps
    [updated_at]; the row constraints are checked on the result.  No row
    with that id: nothing to do, the statement succeeds. *)
Definition update_users (dep : deployment) (now : Z) (db : database) (id : Z)
    (f : users_row -> users_row) : option database :=
  match users db !! id with
  | None => Some db
  | Some u =>
      let u' := update_updated_at_column now (f u) in
      _ ← require (users_row_ok dep u');
      Some (with_users db (<[id := u']> (users db)))
  end.

(** *** AFTER INSERT ON transactions *)

Definition trigger_unlock_balance_on_deposit (dep : deployment) (now : Z)
    (db : database) (NEW : transactions_row) : option database :=
  if promo_codes_migration dep
     && bool_decide (tx_type NEW = "deposit") && bool_decide (tx_status NEW = "completed")
  then
    match users db !! tx_user_id NEW with
    | None => Some db
    | Some u =>
        match PromoCodesMigration.unlock_balance_on_deposit now NEW u with
        | None => Some db
        | Some u' =>
            _ ← require (users_row_ok dep u');
            Some (with_users db (<[tx_user_id NEW := u']> (users db)))
        end
    end
  else Some db.

Definition trigger_update_user_stats_on_transaction (dep : deployment) (now : Z)
    (db : database) (NEW : transactions_row) : option database :=
  let stats' :=
    if user_stats_fix dep
    then FixUserStatsTrigger.update_user_stats_on_transaction
           now (user_stats db) (transactions db) NEW
    else DatabaseSchema.update_user_stats_on_transaction
           now (user_stats db) (transactions db) NEW in
  if bool_decide (tx_type NEW ∈ ["game_win"; "game_loss"]) then
    (* the proposed row is converted to the column types and checked
       before the conflict on [user_id] is looked for *)
    _ ← require (user_stats_row_ok
                   (excluded now (user_stats db) (transactions db) NEW));
    s ← stats' !! tx_user_id NEW;
    _ ← require (user_stats_row_ok s);
    Some (with_user_stats db stats')
  else Some (with_user_stats db stats').

(** *** INSERT INTO transactions

    The id comes from the sequence.  Triggers fire in name order. *)
Definition insert_transaction (dep : deployment) (now : Z) (db : database)
    (t : transactions_row) : option database :=
  let NEW := mk_tx (transactions_id_seq db) (tx_user_id t) (tx_game_id t) (tx_type t)
                   (tx_amount t) (tx_balance_after t) (tx_multiplier t) (tx_status t)
                   (tx_extra_data t) (tx_created_at t) (tx_completed_at t) in
  _ ← require (transactions_row_ok dep db NEW);
  let db1 := mk_db (users db) (user_stats db) (transactions db ++ [NEW])
                   (payment_requests db) (game_history db)
                   (transactions_id_seq db + 1) in
  db2 ← trigger_unlock_balance_on_deposit dep now db1 NEW;
  trigger_update_user_stats_on_transaction dep now db2 NEW.

(** *** auto_refund_on_payment_cancel (AFTER UPDATE ON payment_requests)

    [id] is the primary key of the updated row. *)

(** The two UPDATEs of the function, which come before its INSERT. *)
Definition refund_updates (dep : deployment) (now : Z) (db : database)
    (NEW : payment_requests_row) : option database :=
  (* UPDATE users SET balance = balance + NEW.price_stars *)
  db1 ← update_users dep now db (pr_user_id NEW)
          (fun u => mk_user (balance u + pr_price_stars NEW)
                            (withdrawal_locked_balance u) (users_updated_at u));
  (* UPDATE user_stats SET wagered_balance = wagered_balance + (NEW.price_stars / 2):
     the quotient has a third decimal when price_stars is an odd number of
     cents, and the sum is rounded to the two decimals of the column when
     it is stored *)
  match user_stats db1 !! pr_user_id NEW with
  | None => Some db1
  | Some s =>
      let s' := mk_stats (total_games s) (games_won s) (games_lost s)
                  (total_wagered s) (total_won s)
                  (round_half_away (2 * wagered_balance s + pr_price_stars NEW) 2)
                  (best_multiplier s) (avg_multiplier s) now in
      _ ← require (user_stats_row_ok s');
      Some (with_user_stats db1 (<[pr_user_id NEW := s']> (user_stats db1)))
  end.

Definition auto_refund_on_payment_cancel (dep : deployment) (now : Z)
    (db : database) (id : Z) (OLD NEW : payment_requests_row) : option database :=
  if bool_decide (pr_status NEW = canceled) && negb (bool_decide (pr_status OLD = canceled))
  then
    db2 ← refund_updates dep now db NEW;
    (* INSERT INTO transactions ... (SELECT balance FROM users WHERE id = ...) *)
    u ← users db2 !! pr_user_id NEW;
    insert_transaction dep now db2
      (mk_tx 0 (pr_user_id NEW) None "refund" (pr_price_stars NEW) (balance u) None
             "completed"
             (Some (mk_note id (pr_gift_id NEW)
                            (default "payment_request_canceled" (pr_cancel_reason NEW))))
             now (Some now))
  else Some db.

(** *** Statements *)

Inductive statement :=
| InsertUser (id : Z) (row : users_row)
| UpdateUserBalance (id : Z) (new_balance : Z)
| InsertTransaction (row : transactions_row)
| InsertPaymentRequest (id : Z) (row : payment_requests_row)
| UpdatePaymentRequest (id : Z) (row : payment_requests_row)
| InsertGameHistory (row : game_history_row).

Definition game_history_pkey (rows : list game_history_row) (g : game_history_row) : bool :=
  forallb (fun r => negb (bool_decide (gh_id r = gh_id g)
                          && bool_decide (gh_played_at r = gh_played_at g))) rows.

Definition execute (dep : deployment) (now : Z) (db : database)
    (st : statement) : option database :=
  match st with
  | InsertUser id row =>
      _ ← require (bool_decide (users db !! id = None));
      _ ← require (users_row_ok dep row);
      Some (with_users db (<[id := row]> (users db)))
  | UpdateUserBalance id new_balance =>
      update_users dep now db id
        (fun u => mk_user new_balance (withdrawal_locked_balance u) (users_updated_at u))
  | InsertTransaction row => insert_transaction dep now db row
  | InsertPaymentRequest id row =>
      _ ← require (bool_decide (payment_requests db !! id = None));
      _ ← require (payment_requests_row_ok db row);
      Some (with_payment_requests db (<[id := row]> (payment_requests db)))
  | UpdatePaymentRequest id NEW =>
      OLD ← payment_requests db !! id;
      _ ← require (payment_requests_row_ok db NEW);
      auto_refund_on_payment_cancel dep now
        (with_payment_requests db (<[id := NEW]> (payment_requests db))) id OLD NEW
  | InsertGameHistory row =>
      _ ← require (fits_decimal_10_2 (gh_crash_point row));
      _ ← require (check_crash_point_range row);
      _ ← require (game_history_pkey (game_history db) row);
      Some (mk_db (users db) (user_stats db) (transactions db) (payment_requests db)
                  (game_history db ++ [row]) (transactions_id_seq db))
  end.

(** *** Rollback

    A statement that fails leaves every table as it was, but a value drawn
    from [transactions_id_seq] is not given back.  An INSERT INTO
    transactions draws its id before any constraint is checked; an UPDATE
    of a payment request draws one when its trigger gets as far as the
    refund INSERT. *)
Definition draws_transaction_id (dep : deployment) (now : Z) (db : database)
    (st : statement) : bool :=
  match st with
  | InsertTransaction _ => true
  | UpdatePaymentRequest id NEW =>
      match payment_requests db !! id with
      | Some OLD =>
          payment_requests_row_ok db NEW
          && bool_decide (pr_status NEW = canceled)
          && negb (bool_decide (pr_status OLD = canceled))
          && bool_decide
               (is_Some (refund_updates dep now
                           (with_payment_requests db (<[id := NEW]> (payment_requests db)))
                           NEW))
      | None => false
      end
  | _ => false
  end.

Definition rollback (dep : deployment) (now : Z) (db : database)
    (st : statement) : database :=
  if draws_transaction_id dep now db st
  then mk_db (users db) (user_stats db) (transactions db) (payment_requests db)
             (game_history db) (transactions_id_seq db + 1)
  else db.

(** A session: statements with the clock value at which each one runs.  A
    statement that fails is rolled back and the session goes on. *)
Definition step (dep : deployment) (db : database) (cmd : Z * statement) : database :=
  default (rollback dep cmd.1 db cmd.2) (execute dep cmd.1 db cmd.2).

Definition run (dep : deployment) (db : database)
    (script : list (Z * statement)) : database :=
  foldl (step dep) db script.

End Engine.
Import Engine.

(** ** frontend/src/services/websocket.ts: the binary decoders *)

Module Websocket.

Local Open Scope N_scope.

(** A JavaScript string is a sequence of UTF-16 code units. *)
Abbreviation js_string := (list N).

Inductive js_error :=
| InvalidCharacterError
| RangeError
| Error (message : string).

(** The outcome of evaluating a statement list: a value or a throw. *)
Inductive completion (A : Type) :=
| Normal (a : A)
| Throw (e : js_error).
Arguments Normal {A} a.
Arguments Throw {A} e.

#[global] Instance completion_ret : MRet completion := fun A a => Normal a.
#[global] Instance completion_bind : MBind completion := fun A B f c =>
  match c with
  | Normal a => f a
  | Throw e => Throw e
  end.

(** *** atob: forgiving-base64 decode *)

Definition is_ascii_whitespace (c : N) : bool :=
  bool_decide (c ∈ [9; 10; 12; 13; 32]).

Definition base64_index (c : N) : option N :=
  if (65 <=? c) && (c <=? 90) then Some (c - 65)
  else if (97 <=? c) && (c <=? 122) then Some (c - 97 + 26)
  else if (48 <=? c) && (c <=? 57) then Some (c - 48 + 52)
  else if c =? 43 then Some 62
  else if c =? 47 then Some 63
  else None.

(** A length that is a multiple of four may end in one or two [=]. *)
Definition strip_padding (data : list N) : list N :=
  if (length data mod 4 =? 0)%nat then
    match rev data with
    | 61 :: 61 :: r => rev r
    | 61 :: r => rev r
    | _ => data
    end
  else data.

(** Four sextets give three bytes; a tail of three gives two bytes and a
    tail of two gives one, the spare low bits being dropped. *)
Fixpoint decode_sextets (s : list N) : list N :=
  match s with
  | a :: b :: c :: d :: rest =>
      (a * 4 + b / 16) :: ((b mod 16) * 16 + c / 4) :: ((c mod 4) * 64 + d)
      :: decode_sextets rest
  | [a; b; c] => [a * 4 + b / 16; (b mod 16) * 16 + c / 4]
  | [a; b] => [a * 4 + b / 16]
  | _ => []
  end.

Definition atob (data : js_string) : completion (list N) :=
  let data := strip_padding (List.filter (fun c => negb (is_ascii_whitespace c)) data) in
  if (length data mod 4 =? 1)%nat then Throw InvalidCharacterError
  else match mapM base64_index data with
       | None => Throw InvalidCharacterError
       | Some sextets => Normal (decode_sextets sextets)
       end.

(** [bytes[i] = buffer.charCodeAt(i)] into a [Uint8Array]. *)
Definition to_Uint8Array (buffer : list N) : list N :=
  (fun c => c mod 256) <$> buffer.

(** *** DataView accessors *)

Definition getUint8 (bytes : list N) (byteOffset : nat) : completion N :=
  match bytes !! byteOffset with
  | Some b => Normal b
  | None => Throw RangeError
  end.

(** [getUint16(byteOffset, false)]: big endian. *)
Definition getUint16 (bytes : list N) (byteOffset : nat) : completion N :=
  match bytes !! byteOffset, bytes !! S byteOffset with
  | Some hi, Some lo => Normal (hi * 256 + lo)
  | _, _ => Throw RangeError
  end.

(** *** [(n / 100).toFixed(2)]

    For an integer [n] below 2^16 the double nearest to [n / 100] is much
    closer to [n / 100] than to any other multiple of 0.01, so [toFixed]
    prints the integer part [n / 100], a point, and [n mod 100] on two
    digits. *)
Definition decimal (n : N) : string := NilZero.string_of_uint (N.to_uint n).

Definition div100_toFixed2 (n : N) : string :=
  decimal (n / 100) +:+ "." +:+ (if n mod 100 <? 10 then "0" else "")
  +:+ decimal (n mod 100).

(** *** decodeBinaryGameState *)

Record game_state := mk_game_state {
  coefficient : string;
  status : string;
  countdown : N;
  crashed : bool;
  crash_point : option string;          (* always null in this format *)
  last_crash_coefficient : string;
  game_just_crashed : bool
}.

Definition statusMap : list string := ["waiting"; "playing"; "crashed"].

Definition Boolean (n : N) : bool := negb (n =? 0).

(** The body of the [try] block. *)
Definition decodeBinaryGameState_try (binaryData : js_string) : completion game_state :=
  buffer ← atob binaryData;
  let bytes := to_Uint8Array buffer in
  if (length bytes <? 7)%nat then Throw (Error "Binary data too short")
  else
    msgType ← getUint8 bytes 0;
    if negb (msgType =? 1) then Throw (Error "Invalid binary message type")
    else
      status ← getUint8 bytes 1;
      flags ← getUint8 bytes 2;
      coefInt ← getUint16 bytes 3;
      lastCoefInt ← getUint16 bytes 5;
      let statusStr := default "waiting" (statusMap !! N.to_nat status) in
      let crashed := Boolean (N.land flags 1) in
      let gameJustCrashed := Boolean (N.land flags 2) in
      let hasCountdown := Boolean (N.land flags 4) in
      let coefficient := div100_toFixed2 coefInt in
      let lastCrashCoeff := div100_toFixed2 lastCoefInt in
      countdown ← (if hasCountdown && (7 <? length bytes)%nat
                   then getUint8 bytes 7 else Normal 0);
      Normal (mk_game_state coefficient statusStr countdown crashed None
                            lastCrashCoeff gameJustCrashed).

(** [try { ... } catch (error) { return null }]. *)
Definition decodeBinaryGameState (binaryData : js_string) : option game_state :=
  match decodeBinaryGameState_try binaryData with
  | Normal gs => Some gs
  | Throw _ => None
  end.

(** *** decodeBinaryCrashHistory

    [numCoeffs = (bytes.length - 1) / 2] is a JavaScript number, a half
    integer when the length is even; [i < numCoeffs] is the comparison
    [2 i < length - 1].  The loop counter only grows, so [length bytes]
    rounds of [fuel] are never used up. *)
Fixpoint crash_history_loop (bytes : list N) (fuel i : nat)
    (coefficients : list string) : completion (list string) :=
  match fuel with
  | O => Normal coefficients
  | S fuel' =>
      if (2 * i <? length bytes - 1)%nat then
        coeffInt ← getUint16 bytes (1 + i * 2);
        crash_history_loop bytes fuel' (S i)
          (coefficients ++ [div100_toFixed2 coeffInt])
      else Normal coefficients
  end.

Definition decodeBinaryCrashHistory_try (binaryData : js_string)
    : completion (list string) :=
  buffer ← atob binaryData;
  let bytes := to_Uint8Array buffer in
  if (length bytes <? 3)%nat then Throw (Error "Binary crash history too short")
  else
    msgType ← getUint8 bytes 0;
    if negb (msgType =? 2) then Throw (Error "Invalid binary crash history type")
    else crash_history_loop bytes (length bytes) 0 [].

Definition decodeBinaryCrashHistory (binaryData : js_string) : list string :=
  match decodeBinaryCrashHistory_try binaryData with
  | Normal coefficients => coefficients
  | Throw _ => []
  end.

(** The characters of a string as code units, to write test inputs. *)
Fixpoint code_units (s : string) : js_string :=
  match s with
  | EmptyString => []
  | String a rest => N_of_ascii a :: code_units rest
  end.

End Websocket.

(** ** JavaScript numbers: IEEE 754 binary64

    Every finite double is an integer multiple of 2^-1074, the smallest
    subnormal: [Finite n] is the double [n * 2^-1074].  The two zeros are
    one value here; the code below never tells them apart.  An operation
    returns its exact result rounded to the nearest double, ties to the
    even mantissa. *)

Module Binary64.

Inductive double :=
| NaN
| NegInfinity
| Finite (n : Z)
| Infinity.

(** The double [m * 2^e], for [e >= -1074]. *)
Definition from_bits (m e : Z) : double := Finite (m * 2 ^ (e + 1074)).

Definition of_Z (z : Z) : double := from_bits z 0.

(** Which multiples of 2^-1074 are doubles: below 2^1024 in magnitude,
    with at most 53 significant bits. *)
Definition representable (n : Z) : Prop :=
  Z.abs n < 2 ^ 2098
  ∧ Z.abs n mod 2 ^ Z.max 0 (Z.log2 (Z.abs n) - 52) = 0.

(** [a / 2^s] rounded to the nearest integer, ties to even ([a >= 0]). *)
Definition round_half_even (a s : Z) : Z :=
  let q := a / 2 ^ s in
  let r := a mod 2 ^ s in
  match 2 * r ?= 2 ^ s with
  | Lt => q
  | Gt => q + 1
  | Eq => if Z.even q then q else q + 1
  end.

(** Rounding of the magnitude [a * 2^-1075] to 53 significant bits, no
    finer than 2^-1074; the result counts 2^-1074. *)
Definition round_magnitude (a : Z) : Z :=
  let s := Z.max 1 (Z.log2 a - 52) in
  round_half_even a s * 2 ^ (s - 1).

(** The double nearest to [k * 2^-1075]; from 2^1024 on, an infinity. *)
Definition round (k : Z) : double :=
  let n := round_magnitude (Z.abs k) in
  if 2 ^ 2098 <=? n then (if 0 <? k then Infinity else NegInfinity)
  else Finite (Z.sgn k * n).

(** [a < b]. *)
Definition lt (a b : double) : bool :=
  match a, b with
  | NaN, _ | _, NaN => false
  | NegInfinity, NegInfinity => false
  | NegInfinity, _ => true
  | Finite _, NegInfinity => false
  | Finite x, Finite y => x <? y
  | Finite _, Infinity => true
  | Infinity, _ => false
  end.

(** [a - b]. *)
Definition sub (a b : double) : double :=
  match a, b with
  | NaN, _ | _, NaN => NaN
  | Infinity, Infinity | NegInfinity, NegInfinity => NaN
  | Infinity, _ | _, NegInfinity => Infinity
  | NegInfinity, _ | _, Infinity => NegInfinity
  | Finite x, Finite y => round (2 * (x - y))
  end.

(** [a / 2]. *)
Definition halve (a : double) : double :=
  match a with
  | Finite x => round x
  | _ => a
  end.

(** [Math.max(a, b)]. *)
Definition Math_max (a b : double) : double :=
  match a, b with
  | NaN, _ | _, NaN => NaN
  | Infinity, _ | _, Infinity => Infinity
  | NegInfinity, y => y
  | x, NegInfinity => x
  | Finite x, Finite y => Finite (Z.max x y)
  end.

(** The number a finite double stands for. *)
Definition value (n : Z) : Q := inject_Z n / inject_Z (2 ^ 1074).

(** The same double in the Standard Library's specification of IEEE
    arithmetic, to compare the operations above with it. *)
Definition to_spec (d : double) : SpecFloat.spec_float :=
  match d with
  | NaN => SpecFloat.S754_nan
  | NegInfinity => SpecFloat.S754_infinity true
  | Infinity => SpecFloat.S754_infinity false
  | Finite n =>
      match Z.abs n with
      | Z.pos a =>
          let s := Z.max 0 (Z.log2 (Z.pos a) - 52) in
          match Z.pos a / 2 ^ s with
          | Z.pos m => SpecFloat.S754_finite (n <? 0) m (s - 1074)
          | _ => SpecFloat.S754_zero false
          end
      | _ => SpecFloat.S754_zero false
      end
  end.

End Binary64.

(** ** The store component: the wagered-balance gate *)

Module Store.

Import Binary64.

Definition calculateRequiredWagered (price : double) : double := halve price.

Definition calculateMissingWagered (price current : double) : double :=
  let required := calculateRequiredWagered price in
  Math_max (Finite 0) (sub required current).

Record TelegramGift := mk_gift {
  id : string;
  price : double;
  is_unique : bool
}.

Record UserStats := mk_user_stats { wagered_balance : double }.

(** The [disabled] attribute of the purchase button of [gift];
    [purchasing] is the id of the gift being bought, if any, and
    [userStats] is null until the statistics have been loaded. *)
Definition purchase_disabled (purchasing : option string) (balance : double)
    (userStats : option UserStats) (gift : TelegramGift) : bool :=
  bool_decide (purchasing = Some (id gift))
  || lt balance (price gift)
  || match userStats with
     | Some us => lt (wagered_balance us) (calculateRequiredWagered (price gift))
     | None => false
     end.

End Store.

(** ** frontend/src/components/Game/GameWebSocket.tsx *)

Module GameWebSocket.

Local Open Scope Q_scope.

(** [Math.max(1.0, rawCoefficient)], the value handed to
    [setCoefficient]. *)
Definition newCoefficient (rawCoefficient : Q) : Q := Qmax 1 rawCoefficient.

Record component_state := mk_component {
  playerPlaying : bool;
  showCrashMessage : bool;
  showWinMessage : bool;
  userId : option Z;
  isCashingOut : bool
}.

(** [!userId]: null and 0 are falsy. *)
Definition falsy_id (u : option Z) : bool :=
  match u with
  | None => true
  | Some n => (n =? 0)%Z
  end.

(** The two early returns of [handleCashout]: [true] when the handler
    goes on to POST /cashout. *)
Definition handleCashout_posts (c : component_state) : bool :=
  if negb (playerPlaying c) || showCrashMessage c || showWinMessage c
     || falsy_id (userId c)
  then false
  else if isCashingOut c then false
  else true.

End GameWebSocket.

(** ** backend/GAME_CONFIG_README.md: the crash-point generator *)

Module GameConfig.

Local Open Scope Q_scope.

Record range_config := mk_range {
  min : Q;
  max : Q;
  probability : Q
}.

(** [Decimal.quantize(Decimal('0.01'))] under the default context:
    ROUND_HALF_EVEN.  The result in hundredths. *)
Definition quantize_hundredths (x : Q) : Z :=
  let n := (100 * Qnum x)%Z in
  let d := Z.pos (Qden x) in
  let fl := (n / d)%Z in
  match (2 * (n mod d) ?= d)%Z with
  | Lt => fl
  | Gt => (fl + 1)%Z
  | Eq => if Z.even fl then fl else (fl + 1)%Z
  end.

Definition quantize (x : Q) : Q := quantize_hundredths x # 100.

(** The loop of the example.  [rand] and [rand_uniform] are the two
    values read from [secure_random.random()]; falling out of the loop
    returns nothing. *)
Fixpoint walk_ranges (crash_ranges : list range_config)
    (cumulative_prob rand rand_uniform : Q) : option Q :=
  match crash_ranges with
  | [] => None
  | range_config :: rest =>
      let cumulative_prob := cumulative_prob + probability range_config in
      if Qle_bool rand cumulative_prob then
        let min_val := min range_config in
        let max_val := max range_config in
        let crash_point := min_val + (max_val - min_val) * rand_uniform in
        Some (quantize crash_point)
      else walk_ranges rest cumulative_prob rand rand_uniform
  end.

Definition generate_crash_point (crash_ranges : list range_config)
    (rand rand_uniform : Q) : option Q :=
  walk_ranges crash_ranges 0 rand rand_uniform.

(** The game_config row of system_settings, as far as the generator and
    the growth function read it. *)
Record game_config := mk_config {
  growth_rate : Q;
  max_coefficient : Q;
  crash_ranges : list range_config
}.

(** The configuration the README and the schema ship. *)
Definition default_ranges : list range_config :=
  [mk_range (11 # 10) 3 (7 # 10); mk_range 3 10 (2 # 10); mk_range 10 50 (1 # 10)].

Definition default_config : game_config :=
  mk_config (101 # 100) 100 default_ranges.

End GameConfig.

(** ** The round authority

    The backend that owns the round (growth function, tick loop, cashout
    arbitration) is not among the sources; only its clients and its
    configuration are.  This module follows sections 4.2 to 4.4 of the
    specification. *)

Module RoundEngine.

Local Open Scope Q_scope.

(** Modelled from the spec: the status of a round and of a bet, and the
    records Round and Bet of the data model, with the fields the round
    authority reads or writes. *)
Inductive round_status := waiting | playing | crashed.

Inductive bet_status := open | cashed_out | lost.

Record Bet := mk_bet {
  amount : Q;
  bet_state : bet_status;
  cashout_coefficient : option Q;
  payout : option Q
}.

Record Round := mk_round {
  status : round_status;
  crash_point : Q;
  tick_count : nat;
  bets : gmap Z Bet
}.

Fixpoint power (g : Q) (t : nat) : Q :=
  match t with
  | O => 1
  | S t' => g * power g t'
  end.

(** Modelled from the spec: the growth function of the tick scheduler,
    [coefficient(t) = max(1.00, growth_rate^t)], computed from the number
    of elapsed ticks. *)
Definition coefficient (growth_rate : Q) (t : nat) : Q :=
  Qmax 1 (power growth_rate t).

(** Modelled from the spec: settlement on crash, every bet still open
    becomes lost; the stake was debited at join time. *)
Definition settle (b : Bet) : Bet :=
  match bet_state b with
  | open => mk_bet (amount b) lost None None
  | _ => b
  end.

(** Modelled from the spec: the transition of the round state machine to
    CRASHED the instant the coefficient reaches the crash point. *)
Definition crash_if_reached (growth_rate : Q) (r : Round) : Round :=
  if Qle_bool (crash_point r) (coefficient growth_rate (tick_count r))
  then mk_round crashed (crash_point r) (tick_count r) (settle <$> bets r)
  else r.

(** Modelled from the spec: WAITING to PLAYING, tick count zero. *)
Definition start (growth_rate : Q) (r : Round) : Round :=
  match status r with
  | waiting => crash_if_reached growth_rate (mk_round playing (crash_point r) 0 (bets r))
  | _ => r
  end.

(** Modelled from the spec: one tick of a PLAYING round. *)
Definition tick (growth_rate : Q) (r : Round) : Round :=
  match status r with
  | playing =>
      crash_if_reached growth_rate
        (mk_round playing (crash_point r) (S (tick_count r)) (bets r))
  | _ => r
  end.

(** Modelled from the spec: the reason codes of a rejected cashout. *)
Inductive reject_reason := WrongPhase | RoundAlreadyCrashed | NoOpenBet.

Inductive cashout_result :=
| Accepted (payout : Q)
| Rejected (reason : reject_reason).

(** Modelled from the spec: [cashout(user)] as the round authority
    processes it, valid only while the round is playing, the user holds an
    open bet, and the coefficient at processing time is strictly below the
    crash point; the payout is amount times coefficient. *)
Definition cashout (growth_rate : Q) (user : Z) (r : Round) : cashout_result * Round :=
  match status r with
  | waiting => (Rejected WrongPhase, r)
  | crashed => (Rejected RoundAlreadyCrashed, r)
  | playing =>
      let c := coefficient growth_rate (tick_count r) in
      if Qle_bool (crash_point r) c then (Rejected RoundAlreadyCrashed, r)
      else
        match bets r !! user with
        | Some b =>
            match bet_state b with
            | open =>
                let p := amount b * c in
                (Accepted p,
                 mk_round (status r) (crash_point r) (tick_count r)
                          (<[user := mk_bet (amount b) cashed_out (Some c) (Some p)]>
                             (bets r)))
            | _ => (Rejected NoOpenBet, r)
            end
        | None => (Rejected NoOpenBet, r)
        end
  end.

(** Modelled from the spec: every request is serialized through the one
    authority of the round, so requests reach it one at a time. *)
Inductive request :=
| Start
| Tick
| Cashout (user : Z).

Definition serve (growth_rate : Q) (r : Round) (q : request) : Round :=
  match q with
  | Start => start growth_rate r
  | Tick => tick growth_rate r
  | Cashout user => (cashout growth_rate user r).2
  end.

Definition serve_all (growth_rate : Q) (r : Round) (qs : list request) : Round :=
  foldl (serve growth_rate) r qs.

(** The cashout button of the client in front of the authority: a click
    becomes a request only when the handler posts it. *)
Definition click_cashout (growth_rate : Q) (c : GameWebSocket.component_state)
    (user : Z) (r : Round) : option (cashout_result * Round) :=
  if GameWebSocket.handleCashout_posts c then Some (cashout growth_rate user r)
  else None.

End RoundEngine.

(** * Statements about stored data *)

Module Ledger.

(** What every stored row has passed on its way in. *)
Definition ledger_invariant (dep : deployment) (db : database) : Prop :=
  map_Forall (fun _ u => users_row_ok dep u = true) (users db)
  ∧ map_Forall (fun _ s => user_stats_row_ok s = true) (user_stats db)
  ∧ Forall (fun t => check_positive_balance_after t = true
                     ∧ valid_transaction_amounts dep t = true) (transactions db)
  ∧ Forall (fun g => check_crash_point_range g = true) (game_history db).

(** The kinds of entry that credit the account.  ['promo_code_bonus']
    exists once the promo-code migration has run. *)
Definition credited_kinds (dep : deployment) : list string :=
  ["game_win"; "deposit"; "referral_bonus"; "refund"]
  ++ (if promo_codes_migration dep then ["promo_code_bonus"] else []).

Definition debited_kinds : list string := ["game_loss"; "gift_purchase"].

Definition sign_matches_kind (dep : deployment) (t : transactions_row) : Prop :=
  (tx_type t ∈ credited_kinds dep → 0 < tx_amount t)
  ∧ (tx_type t ∈ debited_kinds → tx_amount t < 0).

Definition balance_in_range (u : users_row) : Prop :=
  0 ≤ balance u ∧ balance u ≤ max_balance.

(** The schema with both migrations applied. *)
Definition production : deployment := mk_deployment true true.

(** The schema file alone. *)
Definition schema_only : deployment := mk_deployment false false.

End Ledger.
Import Ledger.

(** * Statements about decoded messages *)

Module Wire.

Import Websocket.
Local Open Scope N_scope.

Definition digit_value (a : ascii) : option N :=
  let c := N_of_ascii a in
  if (48 <=? c) && (c <=? 57) then Some (c - 48) else None.

(** The number of hundredths a numeral with exactly two decimals
    denotes: ["12.05"] denotes 1205. *)
Fixpoint hundredths_from (acc : N) (s : string) : option N :=
  match s with
  | EmptyString => None
  | String c rest =>
      if bool_decide (c = "."%char) then
        match rest with
        | String a (String b EmptyString) =>
            d1 ← digit_value a; d2 ← digit_value b; Some (acc * 100 + d1 * 10 + d2)
        | _ => None
        end
      else d ← digit_value c; hundredths_from (acc * 10 + d) rest
  end.

Definition hundredths (s : string) : option N := hundredths_from 0 s.

(** A multiple of 0.01 between 0 and 655.35, printed with two decimals. *)
Definition encoded_coefficient (s : string) : Prop :=
  ∃ n : N, n ≤ 65535 ∧ s = div100_toFixed2 n ∧ hundredths s = Some n.

(** Does the numeral printed for [k] read back as [k]?  And does that
    hold for [fuel] successive values from [k] on? *)
Definition reads_back (k : N) : bool :=
  match hundredths (div100_toFixed2 k) with
  | Some m => m =? k
  | None => false
  end.

Fixpoint reads_back_from (fuel : nat) (k : N) : bool :=
  match fuel with
  | O => true
  | S fuel' => reads_back k && reads_back_from fuel' (k + 1)
  end.

Definition round_status (s : string) : Prop :=
  s = "waiting" ∨ s = "playing" ∨ s = "crashed".

Definition well_formed_state (gs : game_state) : Prop :=
  round_status (status gs)
  ∧ encoded_coefficient (coefficient gs)
  ∧ encoded_coefficient (last_crash_coefficient gs).

(** Inputs the history decoder gives up on: not base64, fewer than three
    bytes, a type byte other than 2, or an even number of bytes (the last
    coefficient is cut in half). *)
Definition malformed_history (binaryData : js_string) : Prop :=
  match atob binaryData with
  | Throw _ => True
  | Normal buffer =>
      (length buffer < 3)%nat
      ∨ head (to_Uint8Array buffer) ≠ Some 2
      ∨ Nat.even (length buffer) = true
  end.

End Wire.

(** * Statements about the crash point *)

Module CrashPoint.

Import GameConfig.
Local Open Scope Q_scope.

(** A multiple of 0.01. *)
Definition on_grid (x : Q) : Prop := ∃ k : Z, x == k # 100.

(** A range as the configuration writes it: bounds in order, given to
    two decimals. *)
Definition well_formed_range (rc : range_config) : Prop :=
  min rc <= max rc ∧ on_grid (min rc) ∧ on_grid (max rc).

(** The cumulative probability of the first ranges of the table. *)
Definition cumulative (ranges : list range_config) : Q :=
  foldl (fun acc rc => acc + probability rc) 0 ranges.

(** [rc] is the [i]-th range and the first one whose cumulative
    probability reaches [rand]. *)
Definition selects (ranges : list range_config) (rand : Q) (i : nat)
    (rc : range_config) : Prop :=
  ranges !! i = Some rc
  ∧ rand <= cumulative (take (S i) ranges)
  ∧ ∀ j, (j < i)%nat → cumulative (take (S j) ranges) < rand.

Definition within (lo hi x : Q) : Prop := lo <= x ∧ x <= hi.

(** The default ranges under the smallest cap the README allows for
    max_coefficient. *)
Definition low_cap_config : game_config :=
  mk_config (101 # 100) 10 default_ranges.

End CrashPoint.

(** * Statements about a round *)

Module RoundSpec.

Import RoundEngine.

(** [n] ticks in a row. *)
Fixpoint ticks (growth_rate : Q) (n : nat) (r : Round) : Round :=
  match n with
  | O => r
  | S n' => tick growth_rate (ticks growth_rate n' r)
  end.

Definition accepted (res : cashout_result) : Prop := ∃ p, res = Accepted p.

(** A round in play at tick 3 with crash point 2.00, user 1 holding an
    open bet of 10.00; growth rate 1.01. *)
Definition round_in_play : Round :=
  mk_round playing 2 3 {[ 1%Z := mk_bet 10 open None None ]}.

Definition ready_client : GameWebSocket.component_state :=
  GameWebSocket.mk_component true false false (Some 1%Z) false.

(** A round waiting to start whose crash point 1.03 is reached at the
    third tick of growth rate 1.01. *)
Definition round_waiting : Round :=
  mk_round waiting (103 # 100) 0 {[ 1%Z := mk_bet 10 open None None ]}.

End RoundSpec.

(** * Sample sessions *)

Module Samples.

(** One user, two joins of the same round one clock tick apart. *)
Definition bet_at (created_at : Z) : transactions_row :=
  mk_tx 0 1 (Some 7) "game_bet" (-1000) 99000 None "completed" None
        created_at (Some created_at).

Definition double_join : list (Z * statement) :=
  [(0, InsertUser 1 (mk_user 100000 0 0));
   (10, InsertTransaction (bet_at 10));
   (11, InsertTransaction (bet_at 11))].

(** The same two joins stamped with the same instant. *)
Definition double_join_same_instant : list (Z * statement) :=
  [(0, InsertUser 1 (mk_user 100000 0 0));
   (10, InsertTransaction (bet_at 10));
   (10, InsertTransaction (bet_at 10))].

(** A user loses one game, then asks for a gift priced 15.01 stars. *)
Definition lost_game : transactions_row :=
  mk_tx 0 1 (Some 7) "game_loss" (-1000) 4000 None "completed" None 10 (Some 10).

Definition pending_request : payment_requests_row :=
  mk_pr 1 "bear" 100 1501 pending None 20 None None.

Definition canceled_request : payment_requests_row :=
  mk_pr 1 "bear" 100 1501 canceled (Some "no_message") 20 None None.

Definition refund_session : list (Z * statement) :=
  [(0, InsertUser 1 (mk_user 5000 0 0));
   (10, InsertTransaction lost_game);
   (20, InsertPaymentRequest 5 pending_request)].

Definition canceled_db : database :=
  default empty_database
    (execute production 40 (run production empty_database refund_session)
             (UpdatePaymentRequest 5 canceled_request)).

Definition won_game : transactions_row :=
  mk_tx 0 1 (Some 8) "game_win" 2500 6500 (Some 250) "completed" None 30 (Some 30).

(** The session above followed by the win, then a later loss. *)
Definition games_before_fix : list (Z * statement) :=
  refund_session ++ [(30, InsertTransaction won_game)].

Definition second_loss : transactions_row :=
  mk_tx 0 1 (Some 9) "game_loss" (-500) 6000 None "completed" None 50 (Some 50).

(** A bet of 10.00 on round 9 and a win of that round that pays 5.00. *)
Definition round_nine_bet : transactions_row :=
  mk_tx 0 1 (Some 9) "game_bet" (-1000) 5500 None "completed" None 60 (Some 60).

Definition underpaid_win : transactions_row :=
  mk_tx 0 1 (Some 9) "game_win" 500 6000 (Some 150) "completed" None 70 (Some 70).

Definition before_underpaid_win : database :=
  run production empty_database
      (games_before_fix ++ [(60, InsertTransaction round_nine_bet)]).

End Samples.
Import Samples.

(** * Statements about statistics and the promo lock *)

Module LedgerFacts.

(** The row an INSERT INTO transactions stores: the given values with the
    id drawn from the sequence. *)
Definition stamped (db : database) (t : transactions_row) : transactions_row :=
  mk_tx (transactions_id_seq db) (tx_user_id t) (tx_game_id t) (tx_type t)
        (tx_amount t) (tx_balance_after t) (tx_multiplier t) (tx_status t)
        (tx_extra_data t) (tx_created_at t) (tx_completed_at t).

(** The statistics trigger a deployment runs. *)
Definition stats_trigger (dep : deployment) :=
  if user_stats_fix dep
  then FixUserStatsTrigger.update_user_stats_on_transaction
  else DatabaseSchema.update_user_stats_on_transaction.

(** Is [t] a completed deposit of a positive amount, with the promo-code
    migration in place? *)
Definition unlocking_deposit (dep : deployment) (t : transactions_row) : bool :=
  promo_codes_migration dep
  && bool_decide (tx_type t = "deposit") && bool_decide (tx_status t = "completed")
  && (0 <? tx_amount t).

(** The recorded results of a row that its [total_games] does not count. *)
Definition uncounted (s : user_stats_row) : Z :=
  games_won s + games_lost s - total_games s.

(** From the statistics [a] to the statistics [b]: every row is still
    there; the uncounted results of a row never shrink, and do not change
    with the corrected trigger installed; a row that is new in [b] has no
    result counted twice, and no uncounted result with the corrected
    trigger installed. *)
Definition counting_kept (dep : deployment) (a b : gmap Z user_stats_row) : Prop :=
  (∀ uid, is_Some (a !! uid) → is_Some (b !! uid))
  ∧ ∀ uid s', b !! uid = Some s' →
      match a !! uid with
      | Some s =>
          uncounted s ≤ uncounted s'
          ∧ (user_stats_fix dep = true → uncounted s' = uncounted s)
      | None =>
          0 ≤ uncounted s' ∧ (user_stats_fix dep = true → uncounted s' = 0)
      end.

Definition multipliers_capped (s : user_stats_row) : Prop :=
  avg_multiplier s ≤ best_multiplier s ∧ best_multiplier s ≤ 10000.

Definition entry_within_limits (t : transactions_row) : Prop :=
  Z.abs (tx_amount t) ≤ 100000000
  ∧ match tx_multiplier t with
    | Some m => tx_type t = "game_win" → 100 ≤ m ∧ m ≤ 10000
    | None => True
    end.

(** The counters of a statistics row that only ever go up. *)
Definition counters_le (s s' : user_stats_row) : Prop :=
  total_games s ≤ total_games s' ∧ games_won s ≤ games_won s'
  ∧ games_lost s ≤ games_lost s' ∧ total_wagered s ≤ total_wagered s'
  ∧ best_multiplier s ≤ best_multiplier s'.

(** Every row of [a] is still there in [b], with counters at least as
    large. *)
Definition stats_grow (a b : gmap Z user_stats_row) : Prop :=
  ∀ uid s, a !! uid = Some s → ∃ s', b !! uid = Some s' ∧ counters_le s s'.

(** A user who holds a withdrawal lock of 30.00 and a balance of 50.00. *)
Definition locked_user : database :=
  run (mk_deployment true true) empty_database [(0, InsertUser 1 (mk_user 5000 3000 0))].

Definition deposit_of (amount : Z) : transactions_row :=
  mk_tx 0 1 None "deposit" amount 9000 None "completed" None 5 (Some 5).

End LedgerFacts.
Import LedgerFacts.

(** * Statements about the byte layout of the binary messages *)

Module WireLayout.

Import Websocket.
Local Open Scope N_scope.

(** The two bytes [getUint16(offset, false)] combines, most significant
    first. *)
Definition big_endian (n : N) : list N := [n / 256; n mod 256].

(** The bytes of a crash-history message as the decoder reads them: the
    type byte 2, then one big-endian pair for each coefficient, in
    hundredths. *)
Definition history_bytes (ns : list N) : list N := 2 :: (ns ≫= big_endian).

(** Inputs the game-state decoder gives up on: not base64, fewer than
    seven bytes, or a type byte other than 1. *)
Definition unusable_state (binaryData : js_string) : Prop :=
  match atob binaryData with
  | Throw _ => True
  | Normal buffer =>
      (length buffer < 7)%nat ∨ head (to_Uint8Array buffer) ≠ Some 1
  end.

End WireLayout.

(** ** frontend/src/components/Game/GameWebSocket.tsx: chart history,
       bet placement and the action button

    The numbers of this component come out of [parseFloat] and out of the
    balance context, so they may be NaN or infinite; the code only
    compares them and takes maxima, which is exact on doubles. *)

Module GameScreen.

Import GameWebSocket.
Local Open Scope Q_scope.

Inductive number :=
| NaN
| NegInfinity
| Finite (q : Q)
| Infinity.

(** [a < b]. *)
Definition lt (a b : number) : bool :=
  match a, b with
  | NaN, _ | _, NaN => false
  | NegInfinity, NegInfinity => false
  | NegInfinity, _ => true
  | Finite _, NegInfinity => false
  | Finite x, Finite y => negb (Qle_bool y x)
  | Finite _, Infinity => true
  | Infinity, _ => false
  end.

(** [a === b]. *)
Definition strict_equal (a b : number) : bool :=
  match a, b with
  | NegInfinity, NegInfinity => true
  | Finite x, Finite y => Qeq_bool x y
  | Infinity, Infinity => true
  | _, _ => false
  end.

(** [a <= b] and [a >= b]. *)
Definition le (a b : number) : bool := lt a b || strict_equal a b.

Definition ge (a b : number) : bool := le b a.

(** [Math.max(a, b)]. *)
Definition Math_max (a b : number) : number :=
  match a, b with
  | NaN, _ | _, NaN => NaN
  | Infinity, _ | _, Infinity => Infinity
  | NegInfinity, y => y
  | x, NegInfinity => x
  | Finite x, Finite y => Finite (Qmax x y)
  end.

(** ToBoolean of a number: NaN and zero are falsy. *)
Definition truthy (a : number) : bool :=
  match a with
  | NaN => false
  | Finite q => negb (Qeq_bool q 0)
  | _ => true
  end.

(** *** The chart history

    [updated.slice(-500)]: the last 500 entries. *)
Definition slice_last (n : nat) (l : list number) : list number :=
  drop (length l - n) l.

(** The updater handed to [setCurrentGameHistory]; [status] is the status
    state of the render whose effect runs, [newCoefficient] the clamped
    coefficient of the incoming game state. *)
Definition updateHistory (status : string) (newCoefficient : number)
    (prev : list number) : list number :=
  if String.eqb status "waiting" && le newCoefficient (Finite (11 # 10)) then
    [Finite 1; Math_max (Finite 1) newCoefficient]
  else if match last prev with
          | Some p => lt newCoefficient p && le newCoefficient (Finite (11 # 10))
          | None => false
          end then
    [Finite 1; Math_max (Finite 1) newCoefficient]
  else if match last prev with
          | Some p => strict_equal p newCoefficient
          | None => false
          end then
    prev
  else
    let updated := prev ++ [Math_max (Finite 1) newCoefficient] in
    if (1000 <? length updated)%nat then slice_last 500 updated else updated.

Record chart := mk_chart {
  chart_coefficient : number;
  chart_status : string;
  currentGameHistory : list number
}.

(** [useState(1)], [useState("waiting")], [useState([1])]. *)
Definition initial_chart : chart := mk_chart (Finite 1) "waiting" [Finite 1].

(** The effect on a new game state; [rawCoefficient] is the value of
    [parseFloat(String(gameState.coefficient || "1.0"))]. *)
Definition onGameState (c : chart) (gs : number * string) : chart :=
  let rawCoefficient := gs.1 in
  let newCoefficient := Math_max (Finite 1) rawCoefficient in
  let newStatus := gs.2 in
  mk_chart newCoefficient newStatus
    (if String.eqb newStatus "playing"
     then updateHistory (chart_status c) newCoefficient (currentGameHistory c)
     else currentGameHistory c).

(** A history the chart can draw: at least one point, at most 1000, none
    below 1. *)
Definition drawable (history : list number) : Prop :=
  (1 ≤ length history ≤ 1000)%nat
  ∧ Forall (fun p => lt p (Finite 1) = false) history.

(** *** placeBet and the action button *)

(** [betAmount] is a string while the user types and a number after a
    preset; a string is read with [parseFloat]. *)
Inductive bet_amount_state :=
| Typed (parseFloat : number)
| Preset (n : number).

(** [typeof betAmount === 'string' ? parseFloat(betAmount) || 10 : betAmount]. *)
Definition numBetAmount (betAmount : bet_amount_state) : number :=
  match betAmount with
  | Typed p => if truthy p then p else Finite 10
  | Preset n => n
  end.

Record screen := mk_screen {
  status : string;
  playerJoined : bool;
  balance : number;
  betAmount : bet_amount_state;
  isJoining : bool;
  client : component_state
}.

Inductive placeBet_result :=
| Ignored
| Popup (message : string)
| PostJoin (user_id : Z) (bet_amount : number).

(** [lastJoinAttempt] is the item of localStorage, absent or read with
    [parseInt] ([None] inside: NaN); [now] is [Date.now()]. *)
Definition in_cooldown (lastJoinAttempt : option (option Z)) (now : Z) : bool :=
  match lastJoinAttempt with
  | Some (Some t) => (now - t <? 2000)%Z
  | _ => false
  end.

Definition placeBet (lastJoinAttempt : option (option Z)) (now : Z)
    (s : screen) : placeBet_result :=
  if isJoining s then Ignored
  else if in_cooldown lastJoinAttempt now then Ignored
  else if negb (String.eqb (status s) "waiting") then Popup "game.canOnlyJoinWaiting"
  else
    match userId (client s) with
    | None => Popup "game.userIdError"
    | Some uid =>
        if falsy_id (Some uid) then Popup "game.userIdError"
        else
          let numBetAmount := numBetAmount (betAmount s) in
          if lt (balance s) numBetAmount then Popup "game.insufficientFunds"
          else if lt numBetAmount (Finite 10) then Popup "game.minBet"
          else PostJoin uid numBetAmount
    end.

(** What the buttons wrapper renders. *)
Inductive action :=
| CashoutButton (disabled : bool)
| RoundAlreadyStarted
| WaitingForStart
| InsufficientStars
| JoinButton (disabled : bool)
| WaitingForEnd.

Definition buttons (s : screen) : action :=
  if String.eqb (status s) "playing" && playerPlaying (client s)
     && negb (showCrashMessage (client s)) && negb (showWinMessage (client s))
  then CashoutButton (isCashingOut (client s))
  else if String.eqb (status s) "playing" && negb (playerJoined s)
  then RoundAlreadyStarted
  else if String.eqb (status s) "waiting" && playerJoined s
  then WaitingForStart
  else if String.eqb (status s) "waiting" && negb (playerJoined s)
          && lt (balance s) (numBetAmount (betAmount s))
  then InsufficientStars
  else if String.eqb (status s) "waiting" && negb (playerJoined s)
          && ge (balance s) (numBetAmount (betAmount s))
  then JoinButton (isJoining s)
  else WaitingForEnd.

(** *** The player-status effect

    The fields of the status the server sends, read for their truth
    value, which is all the effect and the screen use of them. *)
Record player_status := mk_player_status {
  in_game : bool;
  cashed_out : bool;
  show_win_message : bool;
  show_crash_message : bool
}.


(** A player with 25.00 who typed 12.5 while the round waits. *)
Definition ready_to_join : screen :=
  mk_screen "waiting" false (Finite 25) (Typed (Finite (25 # 2))) false
            (mk_component false false false (Some 7%Z) false).

End GameScreen.

(** ** The store component: the label and the style of the purchase button *)

Module StoreButton.

Import Binary64 Store.

(** [userStats && userStats.wagered_balance < calculateRequiredWagered(gift.price)],
    with null read as false. *)
Definition below_required (userStats : option UserStats) (gift : TelegramGift) : bool :=
  match userStats with
  | Some us => lt (wagered_balance us) (calculateRequiredWagered (price gift))
  | None => false
  end.

(** The [disabled] class of the button. *)
Definition styled_disabled (balance : double) (userStats : option UserStats)
    (gift : TelegramGift) : bool :=
  lt balance (price gift) || below_required userStats gift.

(** The text of the button; the amount of [NeedToWager] is the number
    handed to [toFixed(2)]. *)
Inductive label :=
| Sending
| Buy (price : double)
| NeedToWager (amount : double).

Definition purchase_label (purchasing : option string) (balance : double)
    (userStats : option UserStats) (gift : TelegramGift) : label :=
  if bool_decide (purchasing = Some (id gift)) then Sending
  else if lt balance (price gift) then Buy (price gift)
  else
    match userStats with
    | Some us =>
        if lt (wagered_balance us) (calculateRequiredWagered (price gift))
        then NeedToWager (calculateMissingWagered (price gift) (wagered_balance us))
        else Buy (price gift)
    | None => Buy (price gift)
    end.

End StoreButton.

(** * Statements about the wagered-balance gate *)

Module WageredGate.

Import Binary64 Store.

(** [m] is [d] up to one rounding: the relative error is at most 2^-53. *)
Definition within_rounding (m d : Z) : Prop :=
  2 ^ 53 * Z.abs (m - d) ≤ Z.abs d.

(** A gift of price 100. *)
Definition gem : TelegramGift := mk_gift "gem" (of_Z 100) false.

(** The doubles nearest to 1000.7 and to 0.1. *)
Definition price_1000_7 : double := from_bits 8802250287323546 (-43).

Definition wagered_0_1 : double := from_bits 7205759403792794 (-56).

(** A gift priced at the double nearest to 15.01, and the wagered balance
    7.5. *)
Definition bear : TelegramGift :=
  mk_gift "bear" (from_bits 8449878800853893 (-49)) false.

Definition wagered_7_5 : UserStats := mk_user_stats (from_bits 15 (-1)).

End WageredGate.

(** ** frontend/src/services/websocket.ts: subscriptions and reconnection

    The fields of [WebSocketService] and its methods as state
    transformers.  A subscription object is known by its identity: the
    number of objects created before it. *)

Module WebSocketService.

Inductive readyState := CONNECTING | OPEN | CLOSING | CLOSED.

Inductive EventType :=
| game_state | crash_history | player_status | balance_update | ping | pong
| error | connected | disconnected | subscribed | unsubscribed.

#[global] Instance EventType_eq_dec : EqDecision EventType.
Proof. solve_decision. Defined.

Record EventSubscription := mk_subscription {
  identity : nat;
  event : EventType;
  callback : nat
}.

(** The messages handed to [ws.send]. *)
Inductive outbound :=
| Subscribe (event : EventType)
| Unsubscribe (event : EventType)
| Ping
| Pong.

Record service := mk_service {
  ws : option readyState;            (* this.ws and its readyState *)
  userId : option Z;
  reconnectAttempts : Z;
  reconnectDelay : Z;
  isConnected : bool;
  eventSubscriptions : list EventSubscription;
  reconnectTimer : option Z;         (* the delay of the pending timeout *)
  pingInterval : bool;
  created : nat;                     (* subscription objects created so far *)
  sent : list outbound               (* oldest first *)
}.

Definition maxReconnectAttempts : Z := 5.

(** The field initialisers of the class. *)
Definition initial : service :=
  mk_service None None 0 1000 false [] None false 0%nat [].

(** *** send *)
Definition send (message : outbound) (s : service) : service * bool :=
  match ws s with
  | Some OPEN =>
      (mk_service (ws s) (userId s) (reconnectAttempts s) (reconnectDelay s)
                  (isConnected s) (eventSubscriptions s) (reconnectTimer s)
                  (pingInterval s) (created s) (sent s ++ [message]), true)
  | _ => (s, false)
  end.

(** [event !== 'connected' && event !== 'disconnected' && event !== 'error']. *)
Definition forwarded (e : EventType) : bool :=
  negb (bool_decide (e = connected)) && negb (bool_decide (e = disconnected))
  && negb (bool_decide (e = error)).

(** *** subscribe, and the function it returns *)
Definition subscribe (e : EventType) (cb : nat) (s : service)
    : service * EventSubscription :=
  let subscription := mk_subscription (created s) e cb in
  let s1 := mk_service (ws s) (userId s) (reconnectAttempts s) (reconnectDelay s)
              (isConnected s) (eventSubscriptions s ++ [subscription])
              (reconnectTimer s) (pingInterval s) (S (created s)) (sent s) in
  (if isConnected s1 && forwarded e then (send (Subscribe e) s1).1 else s1,
   subscription).

(** [eventSubscriptions.indexOf(subscription)]: the first position that
    holds this very object. *)
Definition indexOf (subscription : EventSubscription)
    (l : list EventSubscription) : option nat :=
  fst <$> list_find (fun x => identity x = identity subscription) l.

Definition unsubscribe (subscription : EventSubscription) (s : service) : service :=
  match indexOf subscription (eventSubscriptions s) with
  | Some index =>
      let s1 := mk_service (ws s) (userId s) (reconnectAttempts s) (reconnectDelay s)
                  (isConnected s) (delete index (eventSubscriptions s))
                  (reconnectTimer s) (pingInterval s) (created s) (sent s) in
      if isConnected s1 && forwarded (event subscription)
      then (send (Unsubscribe (event subscription)) s1).1 else s1
  | None => s
  end.

(** *** connect, as far as it touches the fields: nothing when the socket
    is open; else the user id is stored and [new WebSocket] either gives a
    socket in state CONNECTING or throws ([constructed] false), which
    leaves [this.ws] as it was. *)
Definition connect (uid : Z) (constructed : bool) (s : service) : service :=
  match ws s with
  | Some OPEN => s
  | _ =>
      mk_service (if constructed then Some CONNECTING else ws s) (Some uid)
                 (reconnectAttempts s) (reconnectDelay s)
                 (isConnected s) (eventSubscriptions s) (reconnectTimer s)
                 (pingInterval s) (created s) (sent s)
  end.

Definition disconnect (s : service) : service :=
  mk_service None (userId s) (reconnectAttempts s) (reconnectDelay s)
             false (eventSubscriptions s) None false (created s) (sent s).

Definition handleOpen (s : service) : service :=
  mk_service (ws s) (userId s) 0 1000 true (eventSubscriptions s)
             (reconnectTimer s) true (created s) (sent s).

(** [delay = reconnectDelay * Math.pow(2, reconnectAttempts - 1)], after
    the increment. *)
Definition attemptReconnect (s : service) : service :=
  match reconnectTimer s with
  | Some _ => s
  | None =>
      let attempts := reconnectAttempts s + 1 in
      let delay := reconnectDelay s * 2 ^ (attempts - 1) in
      mk_service (ws s) (userId s) attempts (reconnectDelay s) (isConnected s)
                 (eventSubscriptions s) (Some delay) (pingInterval s)
                 (created s) (sent s)
  end.

Definition handleClose (code : Z) (s : service) : service :=
  let s1 := mk_service (ws s) (userId s) (reconnectAttempts s) (reconnectDelay s)
              false (eventSubscriptions s) (reconnectTimer s) false
              (created s) (sent s) in
  if negb (bool_decide (code = 1000)) && negb (bool_decide (code = 1001))
     && (reconnectAttempts s1 <? maxReconnectAttempts)
  then attemptReconnect s1 else s1.

(** The callback of the reconnect timeout up to its [await]. *)
Definition reconnectTimerFired (constructed : bool) (s : service) : service :=
  match reconnectTimer s with
  | None => s
  | Some _ =>
      let s1 := mk_service (ws s) (userId s) (reconnectAttempts s) (reconnectDelay s)
                  (isConnected s) (eventSubscriptions s) None (pingInterval s)
                  (created s) (sent s) in
      match userId s1 with
      | Some uid => connect uid constructed s1
      | None => s1
      end
  end.

(** The rest of the callback, once [connect] has settled. *)
Definition reconnectSettled (success : bool) (s : service) : service :=
  if negb success && (reconnectAttempts s <? maxReconnectAttempts)
  then attemptReconnect s else s.

(** What can happen next: a call of a public method, a callback of the
    socket or of a timer, or a change of the socket's readyState.  The
    callbacks of sockets that have since been replaced, and of ping
    intervals whose handle has been overwritten, are among them. *)
Inductive occurrence :=
| CallConnect (uid : Z) (constructed : bool)
| CallDisconnect
| CallSubscribe (e : EventType) (cb : nat)
| CallUnsubscribe (subscription : EventSubscription)
| SocketOpened
| SocketClosed (code : Z)
| SocketState (rs : readyState)
| ReconnectTimerFired (constructed : bool)
| ReconnectSettled (success : bool)
| PingIntervalFired
| PingReceived.

Definition step (s : service) (o : occurrence) : service :=
  match o with
  | CallConnect uid constructed => connect uid constructed s
  | CallDisconnect => disconnect s
  | CallSubscribe e cb => (subscribe e cb s).1
  | CallUnsubscribe subscription => unsubscribe subscription s
  | SocketOpened => handleOpen s
  | SocketClosed code => handleClose code s
  | SocketState rs =>
      match ws s with
      | Some _ =>
          mk_service (Some rs) (userId s) (reconnectAttempts s) (reconnectDelay s)
                     (isConnected s) (eventSubscriptions s) (reconnectTimer s)
                     (pingInterval s) (created s) (sent s)
      | None => s
      end
  | ReconnectTimerFired constructed => reconnectTimerFired constructed s
  | ReconnectSettled success => reconnectSettled success s
  | PingIntervalFired => (send Ping s).1
  | PingReceived => (send Pong s).1
  end.

Definition run (s : service) (os : list occurrence) : service := foldl step s os.

(** Every subscription object in the list was created by [subscribe],
    and none is listed twice. *)
Definition subscriptions_distinct (s : service) : Prop :=
  Forall (fun x => (identity x < created s)%nat) (eventSubscriptions s)
  ∧ NoDup (identity <$> eventSubscriptions s).

(** The delays the backoff can produce. *)
Definition backoff_delays : list Z := [1000; 2000; 4000; 8000; 16000].

Definition backoff_bounded (s : service) : Prop :=
  0 ≤ reconnectAttempts s ≤ maxReconnectAttempts
  ∧ reconnectDelay s = 1000
  ∧ ∀ delay, reconnectTimer s = Some delay → delay ∈ backoff_delays.

(** Five connections lost in a row, each followed by the reconnect
    timeout. *)
Definition five_losses : list occurrence :=
  [CallConnect 7 true;
   SocketClosed 1006; ReconnectTimerFired true;
   SocketClosed 1006; ReconnectTimerFired true;
   SocketClosed 1006; ReconnectTimerFired true;
   SocketClosed 1006; ReconnectTimerFired true;
   SocketClosed 1006; ReconnectTimerFired true].

End WebSocketService.

(** ** The promo-code migration: tables, validation trigger, views *)

Module PromoCodes.

Record promo_codes_row := mk_promo_code {
  code : string;                          (* UNIQUE NOT NULL *)
  balance_reward : Z;                     (* DECIMAL(12,2) NOT NULL *)
  pc_withdrawal_requirement : option Z;
  max_uses : Z;
  current_uses : Z;                       (* DEFAULT 0 NOT NULL *)
  is_active : bool;
  pc_created_at : Z;
  expires_at : option Z                   (* NULL: never expires *)
}.

Record promo_code_uses_row := mk_promo_code_use {
  promo_code_id : Z;
  user_id : Z;
  balance_granted : Z;
  pcu_withdrawal_requirement : option Z;
  used_at : Z
}.

Record promo_database := mk_promo_db {
  ledger : database;
  promo_codes : gmap Z promo_codes_row;   (* by id *)
  promo_code_uses : list promo_code_uses_row
}.

Definition empty_promo_database : promo_database :=
  mk_promo_db empty_database ∅ [].

(** *** CHECK constraints and indexes *)

Definition check_balance_reward_positive (pc : promo_codes_row) : bool :=
  0 <? balance_reward pc.

Definition check_max_uses_positive (pc : promo_codes_row) : bool := 0 <? max_uses pc.

Definition check_current_uses_non_negative (pc : promo_codes_row) : bool :=
  0 <=? current_uses pc.

Definition check_current_uses_not_exceed_max (pc : promo_codes_row) : bool :=
  current_uses pc <=? max_uses pc.

Definition check_balance_granted_positive (u : promo_code_uses_row) : bool :=
  0 <? balance_granted u.

(** [code VARCHAR(50) UNIQUE]: no other row carries the code. *)
Definition promo_codes_code_key (codes : gmap Z promo_codes_row) (id : Z)
    (pc : promo_codes_row) : bool :=
  bool_decide (map_Forall (fun id' pc' => id' = id ∨ code pc' ≠ code pc) codes).

(** [idx_promo_code_uses_unique ON promo_code_uses(promo_code_id, user_id)]. *)
Definition idx_promo_code_uses_unique (uses : list promo_code_uses_row)
    (u : promo_code_uses_row) : bool :=
  forallb (fun r => negb (bool_decide (promo_code_id r = promo_code_id u)
                          && bool_decide (user_id r = user_id u))) uses.

(** The row checks of promo_codes (the length limit of [code] apart). *)
Definition promo_codes_row_ok (codes : gmap Z promo_codes_row) (id : Z)
    (pc : promo_codes_row) : bool :=
  fits_decimal_12_2 (balance_reward pc)
  && match pc_withdrawal_requirement pc with
     | Some w => fits_decimal_12_2 w
     | None => true
     end
  && fits_integer (max_uses pc) && fits_integer (current_uses pc)
  && check_balance_reward_positive pc && check_max_uses_positive pc
  && check_current_uses_non_negative pc && check_current_uses_not_exceed_max pc
  && promo_codes_code_key codes id pc.

(** *** validate_promo_code_use (BEFORE INSERT ON promo_code_uses)

    [true]: the function returns NEW; [false]: it raises. *)
Definition validate_promo_code_use (now : Z) (codes : gmap Z promo_codes_row)
    (NEW : promo_code_uses_row) : bool :=
  match codes !! promo_code_id NEW with
  | Some pc =>
      is_active pc
      && match expires_at pc with
         | None => true
         | Some e => now <? e
         end
      && (current_uses pc <? max_uses pc)
  | None => false
  end.

(** *** Statements *)

Inductive promo_statement :=
| Ledger (st : statement)
| InsertPromoCode (id : Z) (row : promo_codes_row)
| UpdatePromoCode (id : Z) (row : promo_codes_row)
| DeletePromoCode (id : Z)
| InsertPromoCodeUse (row : promo_code_uses_row).

(** The ledger statements run with the migration in place; [stats_fix] tells
    whether the corrected statistics trigger is installed as well.  A
    deleted promo code takes its uses with it (ON DELETE CASCADE). *)
Definition promo_execute (stats_fix : bool) (now : Z) (db : promo_database)
    (st : promo_statement) : option promo_database :=
  match st with
  | Ledger st =>
      l ← execute (mk_deployment true stats_fix) now (ledger db) st;
      Some (mk_promo_db l (promo_codes db) (promo_code_uses db))
  | InsertPromoCode id row =>
      _ ← require (bool_decide (promo_codes db !! id = None));
      _ ← require (promo_codes_row_ok (promo_codes db) id row);
      Some (mk_promo_db (ledger db) (<[id := row]> (promo_codes db))
                        (promo_code_uses db))
  | UpdatePromoCode id row =>
      match promo_codes db !! id with
      | None => Some db
      | Some _ =>
          _ ← require (promo_codes_row_ok (promo_codes db) id row);
          Some (mk_promo_db (ledger db) (<[id := row]> (promo_codes db))
                            (promo_code_uses db))
      end
  | DeletePromoCode id =>
      Some (mk_promo_db (ledger db) (delete id (promo_codes db))
              (List.filter (fun u => negb (bool_decide (promo_code_id u = id)))
                           (promo_code_uses db)))
  | InsertPromoCodeUse NEW =>
      _ ← require (validate_promo_code_use now (promo_codes db) NEW);
      _ ← require (bool_decide (is_Some (promo_codes db !! promo_code_id NEW)));
      _ ← require (bool_decide (is_Some (users (ledger db) !! user_id NEW)));
      _ ← require (fits_decimal_12_2 (balance_granted NEW));
      _ ← require (match pcu_withdrawal_requirement NEW with
                   | Some w => fits_decimal_12_2 w
                   | None => true
                   end);
      _ ← require (check_balance_granted_positive NEW);
      _ ← require (idx_promo_code_uses_unique (promo_code_uses db) NEW);
      Some (mk_promo_db (ledger db) (promo_codes db) (promo_code_uses db ++ [NEW]))
  end.

(** A statement that fails is rolled back; a ledger statement still keeps
    the sequence value it drew. *)
Definition promo_rollback (stats_fix : bool) (now : Z) (db : promo_database)
    (st : promo_statement) : promo_database :=
  match st with
  | Ledger st =>
      mk_promo_db (rollback (mk_deployment true stats_fix) now (ledger db) st)
                  (promo_codes db) (promo_code_uses db)
  | _ => db
  end.

Definition promo_step (stats_fix : bool) (db : promo_database)
    (cmd : Z * promo_statement) : promo_database :=
  default (promo_rollback stats_fix cmd.1 db cmd.2)
          (promo_execute stats_fix cmd.1 db cmd.2).

Definition promo_run (stats_fix : bool) (db : promo_database)
    (script : list (Z * promo_statement)) : promo_database :=
  foldl (promo_step stats_fix) db script.

(** *** The view active_promo_codes *)

(** The three outcomes of the CASE that computes the status column; the
    second carries the expiry the text is built from. *)
Inductive expiry_status :=
| NoExpiry
| ActiveUntil (expires_at : Z)
| Expired.

Record active_promo_code := mk_active {
  apc_code : string;
  apc_balance_reward : Z;
  apc_withdrawal_requirement : option Z;
  apc_max_uses : Z;
  apc_current_uses : Z;
  apc_remaining_uses : Z;
  apc_status : expiry_status;
  apc_created_at : Z
}.

(** [ORDER BY created_at DESC], by a sort that keeps some order among
    equal keys. *)
Definition newest_first {A} (created_at : A → Z) : relation A :=
  fun a b => created_at b ≤ created_at a.

#[global] Instance newest_first_dec {A} (created_at : A → Z) (a b : A) :
  Decision (newest_first created_at a b).
Proof. unfold newest_first. apply _. Defined.

Definition active_promo_codes (now : Z) (codes : gmap Z promo_codes_row)
    : list active_promo_code :=
  merge_sort (newest_first apc_created_at)
    ((fun pc =>
        mk_active (code pc) (balance_reward pc) (pc_withdrawal_requirement pc)
                  (max_uses pc) (current_uses pc) (max_uses pc - current_uses pc)
                  match expires_at pc with
                  | None => NoExpiry
                  | Some e => if now <? e then ActiveUntil e else Expired
                  end
                  (pc_created_at pc))
     <$> List.filter
           (fun pc =>
              is_active pc
              && match expires_at pc with
                 | None => true
                 | Some e => now <? e
                 end
              && (current_uses pc <? max_uses pc))
           (snd <$> map_to_list codes)).

(** *** get_promo_code_stats *)

Record promo_code_stats := mk_promo_stats {
  pcs_code : string;
  pcs_balance_reward : Z;
  pcs_max_uses : Z;
  pcs_current_uses : Z;
  pcs_remaining_uses : Z;
  pcs_total_granted : Z;
  pcs_created_at : Z;
  pcs_expires_at : option Z;
  pcs_is_active : bool
}.

(** [COALESCE(SUM(pcu.balance_granted), 0)] over the uses the LEFT JOIN
    pairs with the promo code [id]. *)
Definition total_granted (uses : list promo_code_uses_row) (id : Z) : Z :=
  foldr Z.add 0
    (balance_granted
     <$> List.filter (fun u => bool_decide (promo_code_id u = id)) uses).

Definition get_promo_code_stats (db : promo_database) (p_code : option string)
    : list promo_code_stats :=
  merge_sort (newest_first pcs_created_at)
    ((fun '(id, pc) =>
        mk_promo_stats (code pc) (balance_reward pc) (max_uses pc) (current_uses pc)
                       (max_uses pc - current_uses pc)
                       (total_granted (promo_code_uses db) id)
                       (pc_created_at pc) (expires_at pc) (is_active pc))
     <$> List.filter
           (fun '(id, pc) =>
              match p_code with
              | None => true
              | Some c => bool_decide (code pc = c)
              end)
           (map_to_list (promo_codes db))).

(** *** What the tables keep *)

Definition promo_tables_consistent (db : promo_database) : Prop :=
  map_Forall (fun _ pc =>
                0 < balance_reward pc
                ∧ 0 ≤ current_uses pc ∧ current_uses pc ≤ max_uses pc) (promo_codes db)
  ∧ (∀ i j a b, promo_codes db !! i = Some a → promo_codes db !! j = Some b →
                code a = code b → i = j)
  ∧ Forall (fun u =>
              is_Some (promo_codes db !! promo_code_id u)
              ∧ is_Some (users (ledger db) !! user_id u)
              ∧ 0 < balance_granted u) (promo_code_uses db)
  ∧ NoDup ((fun u => (promo_code_id u, user_id u)) <$> promo_code_uses db).

(** A welcome code with two uses left. *)
Definition welcome : promo_codes_row :=
  mk_promo_code "WELCOME100" 10000 None 2 0 true 10 None.

Definition promo_session : list (Z * promo_statement) :=
  [(0, Ledger (InsertUser 1 (mk_user 0 0 0)));
   (10, InsertPromoCode 1 welcome)].

End PromoCodes.

(** * Properties *)

(** ** The ledger invariants *)

Section LedgerInvariant.

Variable dep : deployment.

Lemma require_Some b u : require b = Some u → b = true.
Proof. by destruct b. Qed.

(** A rollback changes no table. *)
Lemma rollback_tables now db st :
  users (rollback dep now db st) = users db
  ∧ user_stats (rollback dep now db st) = user_stats db
  ∧ transactions (rollback dep now db st) = transactions db
  ∧ payment_requests (rollback dep now db st) = payment_requests db
  ∧ game_history (rollback dep now db st) = game_history db.
Proof. unfold rollback. by destruct (draws_transaction_id dep now db st). Qed.

Lemma rollback_invariant now db st :
  ledger_invariant dep db → ledger_invariant dep (rollback dep now db st).
Proof. unfold rollback. by destruct (draws_transaction_id dep now db st). Qed.

Lemma ledger_invariant_empty : ledger_invariant dep empty_database.
Proof.
  split; [apply map_Forall_empty|].
  split; [apply map_Forall_empty|]. split; constructor.
Qed.

Lemma update_users_invariant now db id f db' :
  update_users dep now db id f = Some db' →
  ledger_invariant dep db →
  ledger_invariant dep db'.
Proof.
  unfold update_users. intros H (Hu & Hs & Ht).
  destruct (users db !! id) as [u|] eqn:E; simplify_option_eq; [|done].
  match goal with H : require _ = Some _ |- _ => apply require_Some in H end.
  split; [|done]. by apply map_Forall_insert_2.
Qed.

Lemma trigger_unlock_invariant now db NEW db' :
  trigger_unlock_balance_on_deposit dep now db NEW = Some db' →
  ledger_invariant dep db →
  ledger_invariant dep db'.
Proof.
  unfold trigger_unlock_balance_on_deposit. intros H (Hu & Hs & Ht).
  repeat case_match; simplify_option_eq; try done;
    match goal with H : require _ = Some _ |- _ => apply require_Some in H end;
    (split; [|done]); by apply map_Forall_insert_2.
Qed.

(** Either version of the statistics trigger writes at most the row of
    the user of the new transaction. *)
Lemma schema_stats_trigger_shape now stats rows NEW :
  DatabaseSchema.update_user_stats_on_transaction now stats rows NEW = stats
  ∨ ∃ s, DatabaseSchema.update_user_stats_on_transaction now stats rows NEW
         = <[tx_user_id NEW := s]> stats.
Proof.
  unfold DatabaseSchema.update_user_stats_on_transaction.
  repeat case_match; eauto.
Qed.

Lemma fix_stats_trigger_shape now stats rows NEW :
  FixUserStatsTrigger.update_user_stats_on_transaction now stats rows NEW = stats
  ∨ ∃ s, FixUserStatsTrigger.update_user_stats_on_transaction now stats rows NEW
         = <[tx_user_id NEW := s]> stats.
Proof.
  unfold FixUserStatsTrigger.update_user_stats_on_transaction.
  repeat case_match; eauto.
Qed.

Lemma trigger_stats_invariant now db NEW db' :
  trigger_update_user_stats_on_transaction dep now db NEW = Some db' →
  ledger_invariant dep db →
  ledger_invariant dep db'.
Proof.
  unfold trigger_update_user_stats_on_transaction. intros H (Hu & Hs & Ht).
  set (stats' := if user_stats_fix dep then _ else _) in H.
  assert (stats' = user_stats db ∨ ∃ s, stats' = <[tx_user_id NEW := s]> (user_stats db))
    as Hshape.
  { subst stats'. destruct (user_stats_fix dep);
      [apply fix_stats_trigger_shape | apply schema_stats_trigger_shape]. }
  destruct (bool_decide (tx_type NEW ∈ ["game_win"; "game_loss"])) eqn:Hkind.
  - apply bind_Some in H as [[] [_ H]].
    apply bind_Some in H as [s [Hl H]]. apply bind_Some in H as [[] [Hok H]].
    apply require_Some in Hok. simplify_eq.
    split; [done|]. split; [|done]. simpl.
    destruct Hshape as [-> | [s0 Hs0]]; [done|].
    rewrite Hs0 in Hl |- *. rewrite lookup_insert_eq in Hl. simplify_eq.
    by apply map_Forall_insert_2.
  - assert (stats' = user_stats db) as Hsame.
    { subst stats'. destruct (user_stats_fix dep);
        [unfold FixUserStatsTrigger.update_user_stats_on_transaction
        |unfold DatabaseSchema.update_user_stats_on_transaction];
        by rewrite Hkind. }
    simplify_eq. rewrite Hsame. done.
Qed.

Lemma insert_transaction_invariant now db t db' :
  insert_transaction dep now db t = Some db' →
  ledger_invariant dep db →
  ledger_invariant dep db'.
Proof.
  unfold insert_transaction. intros H (Hu & Hs & Ht & Hg).
  apply bind_Some in H as [[] [Hok H]]. apply require_Some in Hok.
  apply bind_Some in H as [db2 [H2 H3]].
  apply trigger_unlock_invariant in H2.
  - by apply trigger_stats_invariant in H3.
  - split; [done|]. split; [done|]. split; [|done]. simpl.
    apply Forall_app; split; [done|]. constructor; [|constructor].
    unfold transactions_row_ok in Hok.
    repeat (apply andb_prop in Hok as [Hok ?]). done.
Qed.

Lemma auto_refund_invariant now db id OLD NEW db' :
  auto_refund_on_payment_cancel dep now db id OLD NEW = Some db' →
  ledger_invariant dep db →
  ledger_invariant dep db'.
Proof.
  unfold auto_refund_on_payment_cancel. intros H Hinv.
  case_match; [|by simplify_eq].
  apply bind_Some in H as [db2 [Hr H]]. unfold refund_updates in Hr.
  apply bind_Some in Hr as [db1 [H1 H2]].
  apply bind_Some in H as [u [_ H]].
  apply update_users_invariant in H1; [|done].
  apply insert_transaction_invariant in H; [done|].
  destruct H1 as (Hu & Hs & Ht).
  destruct (user_stats db1 !! pr_user_id NEW) as [s|].
  - apply bind_Some in H2 as [[] [Hok H2]]. apply require_Some in Hok.
    injection H2 as <-.
    split; [done|]. split; [|done]. by apply map_Forall_insert_2.
  - injection H2 as <-. done.
Qed.

Lemma execute_invariant now db st db' :
  execute dep now db st = Some db' →
  ledger_invariant dep db →
  ledger_invariant dep db'.
Proof.
  destruct st; simpl; intros H Hinv.
  - simplify_option_eq.
    repeat match goal with H : require _ = Some _ |- _ => apply require_Some in H end.
    destruct Hinv as (Hu & Hs & Ht); split; [|done]. by apply map_Forall_insert_2.
  - by apply update_users_invariant in H.
  - by eapply insert_transaction_invariant.
  - simplify_option_eq. done.
  - apply bind_Some in H as [OLD [_ H]]. apply bind_Some in H as [[] [_ H]].
    eapply auto_refund_invariant; done.
  - simplify_option_eq.
    repeat match goal with H : require _ = Some _ |- _ => apply require_Some in H end.
    destruct Hinv as (Hu & Hs & Ht & Hg).
    split; [done|]. split; [done|]. split; [done|]. simpl.
    apply Forall_app; split; [done|]. by constructor.
Qed.

Lemma step_invariant db cmd :
  ledger_invariant dep db → ledger_invariant dep (step dep db cmd).
Proof.
  unfold step. intros Hinv.
  destruct (execute dep cmd.1 db cmd.2) eqn:E; cbn [default];
    [|by apply rollback_invariant].
  by eapply execute_invariant.
Qed.

Lemma run_invariant script db :
  ledger_invariant dep db → ledger_invariant dep (run dep db script).
Proof.
  unfold run. revert db.
  induction script as [|cmd script IH]; intros db Hinv; simpl; [done|].
  apply IH. by apply step_invariant.
Qed.

End LedgerInvariant.

(** C2.  From the empty database, whatever statements a session runs and
    whichever of them are rolled back, every user's balance lies between 0
    and 999999999.99 after every prefix of the session (a prefix is itself a
    session), and every stored ledger entry records a [balance_after] that
    is not negative. *)
Theorem balance_stays_within_cap (dep : deployment) (script : list (Z * statement)) :
  map_Forall (fun _ u => balance_in_range u) (users (run dep empty_database script))
  ∧ Forall (fun t => 0 ≤ tx_balance_after t)
           (transactions (run dep empty_database script)).
Proof.
  destruct (run_invariant dep script empty_database (ledger_invariant_empty dep))
    as (Hu & _ & Ht & _).
  split.
  - eapply map_Forall_impl; [exact Hu|].
    intros id u Hok. unfold users_row_ok in Hok.
    repeat (apply andb_prop in Hok as [Hok ?]).
    unfold check_positive_balance, check_max_balance in *.
    split; lia.
  - eapply Forall_impl; [exact Ht|].
    intros t [Hpos _]. unfold check_positive_balance_after in Hpos. lia.
Qed.

Lemma valid_amounts_sign dep t :
  valid_transaction_amounts dep t = true → sign_matches_kind dep t.
Proof.
  unfold valid_transaction_amounts, sign_matches_kind, credited_kinds, debited_kinds.
  unfold PromoCodesMigration.check_valid_transaction_amounts,
    DatabaseSchema.check_valid_transaction_amounts.
  intros H.
  destruct (promo_codes_migration dep); simpl.
  all: apply orb_true_iff in H as [H|H];
    [apply orb_true_iff in H as [H|H];
     apply andb_true_iff in H as [Hk Ha]; apply bool_decide_eq_true in Hk
    |apply negb_true_iff, bool_decide_eq_false in H].
  all: split; intros Hin; try lia; exfalso.
  all: repeat (apply elem_of_cons in Hin as [Hin|Hin]);
    try (by apply elem_of_nil in Hin); rewrite Hin in *.
  all: try (apply H; by apply (bool_decide_unpack _)).
  all: apply (bool_decide_pack _) in Hk; by vm_compute in Hk.
Qed.

(** C4.  Every stored ledger entry has the sign of its kind: game_win,
    deposit, referral_bonus, refund and, once the promo-code migration
    has introduced it, promo_code_bonus carry a strictly positive amount;
    game_loss and gift_purchase carry a strictly negative one. *)
Theorem ledger_amount_sign_matches_kind (dep : deployment)
    (script : list (Z * statement)) :
  Forall (sign_matches_kind dep) (transactions (run dep empty_database script)).
Proof.
  destruct (run_invariant dep script empty_database (ledger_invariant_empty dep))
    as (_ & _ & Ht & _).
  eapply Forall_impl; [exact Ht|].
  intros t [_ Hv]. by apply valid_amounts_sign.
Qed.

(** ** The unique index on bets *)

(** The index never rejects a row whose [created_at] differs from that of
    every stored row. *)
Lemma idx_unique_fresh_instant (rows : list transactions_row) (t : transactions_row) :
  Forall (fun r => tx_created_at r ≠ tx_created_at t) rows →
  idx_unique_user_game_bet rows t = true.
Proof.
  intros H. unfold idx_unique_user_game_bet. apply forallb_forall.
  intros r Hr. rewrite Forall_forall in H. apply list_elem_of_In in Hr.
  specialize (H r Hr). unfold bet_index_collide.
  rewrite (bool_decide_eq_false_2 _ H). by rewrite andb_false_r.
Qed.

(** C3.  Two completed game_bet rows of user 1 for round 7, stamped one
    clock tick apart, are both stored: the unique index has [created_at] in
    its key.  Stamped with the same instant, the second one is rejected. *)
Theorem duplicate_bet_passes_unique_index (dep : deployment) :
  (fun t => (tx_user_id t, tx_game_id t, tx_type t, tx_status t, tx_created_at t))
    <$> transactions (run dep empty_database double_join)
  = [(1, Some 7, "game_bet", "completed", 10); (1, Some 7, "game_bet", "completed", 11)]
  ∧ (fun t => (tx_user_id t, tx_game_id t, tx_type t, tx_status t, tx_created_at t))
      <$> transactions (run dep empty_database double_join_same_instant)
    = [(1, Some 7, "game_bet", "completed", 10)].
Proof. destruct dep as [[] []]; split; vm_compute; reflexivity. Qed.

(** ** The automatic refund *)

Lemma round_half_away_half (w p : Z) :
  0 ≤ 2 * w + p → round_half_away (2 * w + p) 2 = w + (p + 1) / 2.
Proof.
  intros H. unfold round_half_away.
  destruct (0 <=? 2 * w + p) eqn:E; [|lia].
  replace (2 * (2 * w + p) + 2) with (w * (2 * 2) + 2 * (p + 1)) by lia.
  rewrite Z.div_add_l by lia.
  by rewrite Z.div_mul_cancel_l by lia.
Qed.


Lemma schema_stats_trigger_other_kind now stats rows NEW :
  bool_decide (tx_type NEW ∈ ["game_win"; "game_loss"]) = false →
  DatabaseSchema.update_user_stats_on_transaction now stats rows NEW = stats.
Proof.
  intros H. unfold DatabaseSchema.update_user_stats_on_transaction. by rewrite H.
Qed.

Lemma fix_stats_trigger_other_kind now stats rows NEW :
  bool_decide (tx_type NEW ∈ ["game_win"; "game_loss"]) = false →
  FixUserStatsTrigger.update_user_stats_on_transaction now stats rows NEW = stats.
Proof.
  intros H. unfold FixUserStatsTrigger.update_user_stats_on_transaction. by rewrite H.
Qed.

Lemma insert_refund_effect dep now db t db' :
  tx_type t = "refund" →
  insert_transaction dep now db t = Some db' →
  users db' = users db ∧ user_stats db' = user_stats db
  ∧ transactions db' =
      transactions db ++
        [mk_tx (transactions_id_seq db) (tx_user_id t) (tx_game_id t) (tx_type t)
               (tx_amount t) (tx_balance_after t) (tx_multiplier t) (tx_status t)
               (tx_extra_data t) (tx_created_at t) (tx_completed_at t)].
Proof.
  intros Hty H. unfold insert_transaction in H.
  apply bind_Some in H as [[] [_ H]].
  apply bind_Some in H as [db2 [H2 H3]].
  remember (mk_tx (transactions_id_seq db) (tx_user_id t) (tx_game_id t) (tx_type t)
               (tx_amount t) (tx_balance_after t) (tx_multiplier t) (tx_status t)
               (tx_extra_data t) (tx_created_at t) (tx_completed_at t)) as NEW eqn:HN.
  assert (tx_type NEW = "refund") as HtyN by (by subst NEW).
  assert (bool_decide (tx_type NEW ∈ ["game_win"; "game_loss"]) = false) as Hk.
  { rewrite HtyN. reflexivity. }
  unfold trigger_unlock_balance_on_deposit in H2. rewrite HtyN in H2.
  rewrite (bool_decide_eq_false_2 ("refund" = "deposit")) in H2 by done.
  rewrite andb_false_r in H2. cbn [andb] in H2. injection H2 as <-.
  unfold trigger_update_user_stats_on_transaction in H3.
  rewrite Hk in H3.
  rewrite schema_stats_trigger_other_kind, fix_stats_trigger_other_kind in H3 by done.
  destruct (user_stats_fix dep); injection H3 as <-; done.
Qed.

(** C7, as the trigger implements it.  In a database reached from the empty
    one, take an UPDATE of a payment request that commits.  If it sets the
    status to canceled and the old status was not canceled, then: the
    user's balance grows by exactly [price_stars]; if the user has a
    statistics row, its wagered balance grows by half of [price_stars]
    rounded up to the cent (exactly half when the price is an even number of
    cents); exactly one ledger entry is appended, a completed refund of
    amount [price_stars] whose [balance_after] is the balance after the
    refund; no other user or statistics row changes.  If the update does not
    newly set the status to canceled, then users, statistics and ledger are
    unchanged. *)
Theorem refund_on_cancel (dep : deployment) (script : list (Z * statement))
    (now id : Z) (OLD NEW : payment_requests_row) (db' : database) :
  payment_requests (run dep empty_database script) !! id = Some OLD →
  execute dep now (run dep empty_database script) (UpdatePaymentRequest id NEW) = Some db' →
  (pr_status NEW = canceled → pr_status OLD ≠ canceled →
     ∃ u, users (run dep empty_database script) !! pr_user_id NEW = Some u
       ∧ users db' =
           <[pr_user_id NEW :=
               mk_user (balance u + pr_price_stars NEW) (withdrawal_locked_balance u) now]>
             (users (run dep empty_database script))
       ∧ (∀ s, user_stats (run dep empty_database script) !! pr_user_id NEW = Some s →
            ∃ s', user_stats db' =
                    <[pr_user_id NEW := s']> (user_stats (run dep empty_database script))
                  ∧ wagered_balance s' = wagered_balance s + (pr_price_stars NEW + 1) / 2
                  ∧ (Z.even (pr_price_stars NEW) = true →
                     2 * (wagered_balance s' - wagered_balance s) = pr_price_stars NEW))
       ∧ ∃ t, transactions db' = transactions (run dep empty_database script) ++ [t]
            ∧ tx_user_id t = pr_user_id NEW ∧ tx_type t = "refund"
            ∧ tx_amount t = pr_price_stars NEW
            ∧ tx_balance_after t = balance u + pr_price_stars NEW
            ∧ tx_status t = "completed")
  ∧ (pr_status NEW ≠ canceled ∨ pr_status OLD = canceled →
       users db' = users (run dep empty_database script)
       ∧ user_stats db' = user_stats (run dep empty_database script)
       ∧ transactions db' = transactions (run dep empty_database script)).
Proof.
  pose proof (run_invariant dep script empty_database (ledger_invariant_empty dep))
    as (Hu & Hs & _ & _).
  set (db := run dep empty_database script) in *.
  intros Hold Hex. cbn [execute] in Hex. rewrite Hold in Hex. cbn [mbind option_bind] in Hex.
  apply bind_Some in Hex as [[] [Hrow Hex]]. apply require_Some in Hrow.
  unfold auto_refund_on_payment_cancel in Hex.
  split.
  - intros Hnew Hnot.
    rewrite (bool_decide_eq_true_2 _ Hnew), (bool_decide_eq_false_2 _ Hnot) in Hex.
    cbn [andb negb] in Hex.
    unfold payment_requests_row_ok in Hrow.
    rewrite !andb_true_iff in Hrow.
    destruct Hrow as ((((((Hfk & _) & _) & _) & Hpos) & _) & _).
    apply bool_decide_eq_true in Hfk as [u Hlook].
    apply bind_Some in Hex as [db2 [Hr Hex]]. unfold refund_updates in Hr.
    apply bind_Some in Hr as [db1 [Hdb1 H2]].
    unfold update_users in Hdb1. cbn [users with_payment_requests] in Hdb1.
    rewrite Hlook in Hdb1.
    apply bind_Some in Hdb1 as [[] [_ Hdb1]]. injection Hdb1 as <-.
    apply bind_Some in Hex as [u2 [Hu2 Hex]].
    apply insert_refund_effect in Hex as (Eu & Es & Et); [|done].
    cbn [user_stats with_users with_payment_requests] in H2.
    exists u. split; [done|].
    assert (users db2 =
            <[pr_user_id NEW :=
                mk_user (balance u + pr_price_stars NEW) (withdrawal_locked_balance u) now]>
              (users db)) as Husers.
    { destruct (user_stats db !! pr_user_id NEW).
      - apply bind_Some in H2 as [[] [_ H2]]. by injection H2 as <-.
      - by injection H2 as <-. }
    rewrite Husers in Hu2. rewrite lookup_insert_eq in Hu2. injection Hu2 as <-.
    split; [by rewrite Eu|].
    split.
    + rewrite Es. intros s Hst. rewrite Hst in H2.
      * apply bind_Some in H2 as [[] [_ H2]]. injection H2 as <-.
        cbn [user_stats with_user_stats].
        eexists. split; [reflexivity|]. cbn [wagered_balance].
        assert (0 ≤ wagered_balance s) as Hw.
        { specialize (Hs _ _ Hst). cbn beta in Hs. unfold user_stats_row_ok in Hs.
          rewrite !andb_true_iff in Hs. destruct Hs as ((((((((Hs & _) & _) & _) & _) & _) & _) & _) & _).
          unfold check_stats_logical in Hs.
          rewrite !andb_true_iff in Hs. lia. }
        assert (0 < pr_price_stars NEW) as Hp.
        { unfold check_payment_request_positive_price_stars in *. lia. }
        rewrite round_half_away_half by lia.
        split; [done|].
        intros Hev. apply Z.even_spec in Hev as [k Hk]. rewrite Hk.
        replace (2 * k + 1) with (1 + k * 2) by lia.
        rewrite Z.div_add by lia. change (1 / 2) with 0. lia.
    + assert (transactions db2 = transactions db) as Htx.
      { destruct (user_stats db !! pr_user_id NEW).
        - apply bind_Some in H2 as [[] [_ H2]]. by injection H2 as <-.
        - by injection H2 as <-. }
      rewrite Et, Htx. eexists. split; [reflexivity|]. cbn. done.
  - intros Hno.
    assert (bool_decide (pr_status NEW = canceled)
            && negb (bool_decide (pr_status OLD = canceled)) = false) as Hc.
    { destruct Hno as [Hno|Hno].
      - by rewrite (bool_decide_eq_false_2 _ Hno).
      - rewrite (bool_decide_eq_true_2 _ Hno). apply andb_false_r. }
    rewrite Hc in Hex. by injection Hex as <-.
Qed.

Lemma refund_on_cancel_witness :
  payment_requests (run production empty_database refund_session) !! 5
    = Some pending_request
  ∧ execute production 40 (run production empty_database refund_session)
            (UpdatePaymentRequest 5 canceled_request) = Some canceled_db
  ∧ ∃ u, users (run production empty_database refund_session) !! 1 = Some u
       ∧ users canceled_db =
           <[1 := mk_user (balance u + 1501) (withdrawal_locked_balance u) 40]>
             (users (run production empty_database refund_session))
       ∧ (∀ s, user_stats (run production empty_database refund_session) !! 1 = Some s →
            ∃ s', user_stats canceled_db =
                    <[1 := s']> (user_stats (run production empty_database refund_session))
                  ∧ wagered_balance s' = wagered_balance s + (1501 + 1) / 2
                  ∧ (Z.even 1501 = true →
                     2 * (wagered_balance s' - wagered_balance s) = 1501))
       ∧ ∃ t, transactions canceled_db
              = transactions (run production empty_database refund_session) ++ [t]
            ∧ tx_user_id t = 1 ∧ tx_type t = "refund"
            ∧ tx_amount t = 1501
            ∧ tx_balance_after t = balance u + 1501
            ∧ tx_status t = "completed".
Proof.
  assert (payment_requests (run production empty_database refund_session) !! 5
          = Some pending_request) as H1 by (vm_compute; reflexivity).
  assert (execute production 40 (run production empty_database refund_session)
            (UpdatePaymentRequest 5 canceled_request) = Some canceled_db) as H2
    by (vm_compute; reflexivity).
  split; [exact H1|]. split; [exact H2|].
  apply (proj1 (refund_on_cancel production refund_session 40 5 pending_request
                  canceled_request canceled_db H1 H2)).
  - reflexivity.
  - discriminate.
Defined.

(** The refund of a request priced 15.01 stars adds 7.51 to the wagered
    balance: twice the increase is 15.02, not the price. *)
Lemma refund_half_is_rounded :
  ∃ s s',
    payment_requests (run production empty_database refund_session) !! 5
      = Some pending_request
    ∧ execute production 40 (run production empty_database refund_session)
              (UpdatePaymentRequest 5 canceled_request) = Some canceled_db
    ∧ pr_status canceled_request = canceled ∧ pr_status pending_request ≠ canceled
    ∧ user_stats (run production empty_database refund_session) !! 1 = Some s
    ∧ user_stats canceled_db !! 1 = Some s'
    ∧ pr_price_stars canceled_request = 1501
    ∧ wagered_balance s = 0 ∧ wagered_balance s' = 751
    ∧ 2 * (wagered_balance s' - wagered_balance s) ≠ pr_price_stars canceled_request.
Proof.
  exists (mk_stats 1 0 1 1000 0 0 0 0 10), (mk_stats 1 0 1 1000 0 751 0 0 40).
  repeat split; try (vm_compute; reflexivity); try discriminate.
Qed.

(** ** The two versions of the statistics trigger *)

(** C9.  On a game_loss transaction the trigger function of the schema file
    and the one of the later migration compute the same user_stats table.
    On a game_win transaction of a user whose row has
    [games_won < total_games], the schema version leaves [total_games] as it
    is and the migration version adds one to it. *)
Theorem stats_trigger_versions_disagree (now : Z) (stats : gmap Z user_stats_row)
    (rows : list transactions_row) (NEW : transactions_row) :
  (tx_type NEW = "game_loss" →
     DatabaseSchema.update_user_stats_on_transaction now stats rows NEW
     = FixUserStatsTrigger.update_user_stats_on_transaction now stats rows NEW)
  ∧ (∀ s, tx_type NEW = "game_win" →
       stats !! tx_user_id NEW = Some s →
       games_won s < total_games s →
       total_games <$>
         (DatabaseSchema.update_user_stats_on_transaction now stats rows NEW
            !! tx_user_id NEW) = Some (total_games s)
       ∧ total_games <$>
           (FixUserStatsTrigger.update_user_stats_on_transaction now stats rows NEW
              !! tx_user_id NEW) = Some (total_games s + 1)).
Proof.
  unfold DatabaseSchema.update_user_stats_on_transaction,
    FixUserStatsTrigger.update_user_stats_on_transaction, is_win.
  split.
  - intros Hty. rewrite Hty. cbn [negb]. reflexivity.
  - intros s Hty Hrow Hlt. rewrite Hty, Hrow.
    replace (total_games s <=? games_won s) with false by lia.
    change (bool_decide ("game_win" ∈ ["game_win"; "game_loss"])) with true.
    change (bool_decide ("game_win" = "game_win")) with true.
    cbn [negb].
    split; by rewrite lookup_insert_eq.
Qed.

(** A user who has lost one game has [games_won = 0 < 1 = total_games]; the
    next win leaves [total_games] at 1 under the schema file and moves it
    to 2 under the migration. *)
Lemma stats_trigger_versions_disagree_witness :
  user_stats (run schema_only empty_database refund_session) !! 1
    = Some (mk_stats 1 0 1 1000 0 0 0 0 10)
  ∧ total_games <$>
      (DatabaseSchema.update_user_stats_on_transaction 30
         (user_stats (run schema_only empty_database refund_session))
         (transactions (run schema_only empty_database refund_session)) won_game
         !! 1) = Some 1
  ∧ total_games <$>
      (FixUserStatsTrigger.update_user_stats_on_transaction 30
         (user_stats (run schema_only empty_database refund_session))
         (transactions (run schema_only empty_database refund_session)) won_game
         !! 1) = Some (1 + 1).
Proof.
  assert (user_stats (run schema_only empty_database refund_session) !! 1
          = Some (mk_stats 1 0 1 1000 0 0 0 0 10)) as Hrow by (vm_compute; reflexivity).
  split; [exact Hrow|].
  apply (proj2 (stats_trigger_versions_disagree 30
                  (user_stats (run schema_only empty_database refund_session))
                  (transactions (run schema_only empty_database refund_session))
                  won_game) (mk_stats 1 0 1 1000 0 0 0 0 10)).
  - reflexivity.
  - exact Hrow.
  - cbn. lia.
Defined.

(** ** The binary decoders *)

Section Decoders.

Import Websocket Wire.
Local Open Scope N_scope.

Lemma bind_Normal {A B} (c : completion A) (f : A → completion B) b :
  c ≫= f = Normal b → ∃ a, c = Normal a ∧ f a = Normal b.
Proof. destruct c as [a|e]; [eauto | discriminate]. Qed.

Lemma to_Uint8Array_bytes buffer : Forall (fun b => b < 256) (to_Uint8Array buffer).
Proof.
  unfold to_Uint8Array. apply Forall_fmap, Forall_forall.
  intros c _. simpl. apply N.mod_lt. lia.
Qed.

Lemma getUint16_range bytes off v :
  Forall (fun b => b < 256) bytes →
  getUint16 bytes off = Normal v → v ≤ 65535.
Proof.
  unfold getUint16. intros Hb H.
  destruct (bytes !! off) as [hi|] eqn:Ehi; [|discriminate].
  destruct (bytes !! S off) as [lo|] eqn:Elo; [|discriminate].
  injection H as <-.
  pose proof (Forall_lookup_1 _ _ _ _ Hb Ehi).
  pose proof (Forall_lookup_1 _ _ _ _ Hb Elo). simpl in *. lia.
Qed.

Lemma reads_back_from_spec fuel : ∀ k j,
  reads_back_from fuel k = true →
  k ≤ j → j < k + N.of_nat fuel → reads_back j = true.
Proof.
  induction fuel as [|fuel IH]; intros k j H Hle Hlt; [lia|].
  simpl in H. apply andb_prop in H as [Hk Hrest].
  destruct (N.eq_dec j k) as [->|Hne]; [done|].
  apply (IH (k + 1)); [done|lia|lia].
Qed.

(** Every sixteen-bit value prints as a numeral that reads back as the
    same number of hundredths. *)
Lemma hundredths_toFixed2 n : n ≤ 65535 → hundredths (div100_toFixed2 n) = Some n.
Proof.
  intros Hn.
  assert (reads_back_from (N.to_nat 65536) 0 = true) as Hall by (vm_compute; reflexivity).
  pose proof (reads_back_from_spec _ 0 n Hall) as H.
  unfold reads_back in H.
  rewrite N2Nat.id in H.
  destruct (hundredths (div100_toFixed2 n)) as [m|].
  - f_equal. apply N.eqb_eq, H; lia.
  - exfalso. assert (false = true) by (apply H; lia). discriminate.
Qed.

Lemma encoded_coefficient_toFixed2 n : n ≤ 65535 → encoded_coefficient (div100_toFixed2 n).
Proof. intros Hn. exists n. split; [done|]. split; [done|]. by apply hundredths_toFixed2. Qed.

Lemma statusMap_total (status : N) :
  round_status (default "waiting" (statusMap !! N.to_nat status)).
Proof.
  unfold round_status, statusMap.
  destruct (N.to_nat status) as [|[|[|k]]]; simpl; auto.
Qed.

Lemma decodeBinaryGameState_well_formed binaryData gs :
  decodeBinaryGameState binaryData = Some gs → well_formed_state gs.
Proof.
  unfold decodeBinaryGameState.
  destruct (decodeBinaryGameState_try binaryData) as [gs'|] eqn:E; [|discriminate].
  intros [= ->]. unfold decodeBinaryGameState_try in E.
  apply bind_Normal in E as (buffer & _ & E).
  pose proof (to_Uint8Array_bytes buffer) as Hb.
  destruct (length (to_Uint8Array buffer) <? 7)%nat; [discriminate|].
  apply bind_Normal in E as (msgType & _ & E).
  destruct (negb (msgType =? 1)); [discriminate|].
  apply bind_Normal in E as (status & _ & E).
  apply bind_Normal in E as (flags & _ & E).
  apply bind_Normal in E as (coefInt & Hc & E).
  apply bind_Normal in E as (lastCoefInt & Hl & E).
  apply bind_Normal in E as (countdown & _ & E).
  injection E as <-. unfold well_formed_state. simpl.
  split; [apply statusMap_total|].
  split; apply encoded_coefficient_toFixed2; by eapply getUint16_range.
Qed.

Lemma crash_history_loop_encoded bytes fuel : ∀ i coefficients result,
  Forall (fun b => b < 256) bytes →
  Forall encoded_coefficient coefficients →
  crash_history_loop bytes fuel i coefficients = Normal result →
  Forall encoded_coefficient result.
Proof.
  induction fuel as [|fuel IH]; intros i coefficients result Hb Hacc H;
    cbn [crash_history_loop] in H.
  - by injection H as <-.
  - destruct (2 * i <? length bytes - 1)%nat; [|by injection H as <-].
    apply bind_Normal in H as (coeffInt & Hc & H).
    eapply IH; [done| |exact H].
    apply Forall_app; split; [done|]. constructor; [|constructor].
    apply encoded_coefficient_toFixed2. by eapply getUint16_range.
Qed.

Lemma decodeBinaryCrashHistory_encoded binaryData :
  Forall encoded_coefficient (decodeBinaryCrashHistory binaryData).
Proof.
  unfold decodeBinaryCrashHistory.
  destruct (decodeBinaryCrashHistory_try binaryData) as [l|] eqn:E; [|constructor].
  unfold decodeBinaryCrashHistory_try in E.
  apply bind_Normal in E as (buffer & _ & E).
  destruct (length (to_Uint8Array buffer) <? 3)%nat; [discriminate|].
  apply bind_Normal in E as (msgType & _ & E).
  destruct (negb (msgType =? 2)); [discriminate|].
  eapply crash_history_loop_encoded; [apply to_Uint8Array_bytes|constructor|exact E].
Qed.

(** With an even number of bytes the loop runs until the read of the
    last, incomplete pair, which throws. *)
Lemma crash_history_loop_even_throws bytes m : ∀ fuel i coefficients,
  length bytes = (2 * m)%nat →
  (i < m)%nat → (m - i ≤ fuel)%nat →
  ∃ e, crash_history_loop bytes fuel i coefficients = Throw e.
Proof.
  induction fuel as [|fuel IH]; intros i coefficients Hlen Hi Hfuel; [lia|].
  cbn [crash_history_loop].
  replace (2 * i <? length bytes - 1)%nat with true
    by (symmetry; apply Nat.ltb_lt; lia).
  unfold getUint16.
  destruct (bytes !! (1 + i * 2)%nat) as [hi|]; [|by eexists].
  destruct (bytes !! S (1 + i * 2)) as [lo|] eqn:Elo; [|by eexists].
  apply lookup_lt_Some in Elo.
  cbn [mbind completion_bind].
  apply IH; [done|lia|lia].
Qed.

Lemma decodeBinaryCrashHistory_malformed binaryData :
  malformed_history binaryData → decodeBinaryCrashHistory binaryData = [].
Proof.
  unfold malformed_history, decodeBinaryCrashHistory, decodeBinaryCrashHistory_try.
  destruct (atob binaryData) as [buffer|e]; [|done].
  cbn [mbind completion_bind].
  assert (length (to_Uint8Array buffer) = length buffer) as Hlen
    by apply length_fmap.
  rewrite Hlen.
  destruct (length buffer <? 3)%nat eqn:E3; [done|].
  apply Nat.ltb_ge in E3.
  intros [Hshort | [Hty | Heven]]; [lia| |].
  - unfold getUint8. rewrite <- head_lookup.
    destruct (head (to_Uint8Array buffer)) as [b|]; [|done].
    cbn [mbind completion_bind].
    destruct (b =? 2) eqn:Eb; [|done].
    apply N.eqb_eq in Eb. by subst.
  - destruct (getUint8 (to_Uint8Array buffer) 0) as [msgType|]; [|done].
    cbn [mbind completion_bind].
    destruct (negb (msgType =? 2)); [done|].
    apply Nat.even_spec in Heven as [m Hm].
    destruct (crash_history_loop_even_throws (to_Uint8Array buffer) m
                (length buffer) 0%nat []) as [e He]; [lia|lia|lia|].
    by rewrite He.
Qed.

End Decoders.

(** C10.  On every input string the two decoders return a value; no
    exception leaves them.  [decodeBinaryGameState] returns null or a record
    whose status is waiting, playing or crashed and whose two coefficients
    are numerals of a multiple of 0.01 between 0.00 and 655.35.
    [decodeBinaryCrashHistory] returns a list, possibly empty, of such
    numerals, and the empty list on a malformed input. *)
Theorem binary_decoders_total (binaryData : Websocket.js_string) :
  (Websocket.decodeBinaryGameState binaryData = None
   ∨ ∃ gs, Websocket.decodeBinaryGameState binaryData = Some gs
           ∧ Wire.well_formed_state gs)
  ∧ Forall Wire.encoded_coefficient (Websocket.decodeBinaryCrashHistory binaryData)
  ∧ (Wire.malformed_history binaryData →
     Websocket.decodeBinaryCrashHistory binaryData = []).
Proof.
  split; [|split].
  - destruct (Websocket.decodeBinaryGameState binaryData) as [gs|] eqn:E; [|by left].
    right. exists gs. split; [done|].
    by apply (decodeBinaryGameState_well_formed binaryData).
  - apply decodeBinaryCrashHistory_encoded.
  - apply decodeBinaryCrashHistory_malformed.
Qed.

(** A history message of five payload bytes after the type byte: the
    decoder gives up on the half coefficient at the end. *)
Lemma binary_decoders_total_witness :
  Websocket.decodeBinaryCrashHistory (Websocket.code_units "AgB7AMgB") = [].
Proof.
  apply (proj2 (proj2 (binary_decoders_total (Websocket.code_units "AgB7AMgB")))).
  unfold Wire.malformed_history.
  change (Websocket.atob (Websocket.code_units "AgB7AMgB"))
    with (Websocket.Normal [2; 0; 123; 0; 200; 1]%N).
  right. right. reflexivity.
Defined.

(** ** The crash-point generator *)

Section Generator.

Import GameConfig CrashPoint.
Local Open Scope Q_scope.

(** Rounding to the grid keeps a value between two grid points. *)
Lemma quantize_hundredths_between (x : Q) (a b : Z) :
  a # 100 <= x → x <= b # 100 →
  (a ≤ quantize_hundredths x ∧ quantize_hundredths x ≤ b)%Z.
Proof.
  unfold Qle, quantize_hundredths. destruct x as [n d]. simpl.
  intros Ha Hb.
  pose proof (Z.div_mod (100 * n) (Z.pos d) ltac:(lia)) as Hdm.
  pose proof (Z.mod_pos_bound (100 * n) (Z.pos d) ltac:(lia)) as Hr.
  set (fl := (100 * n / Z.pos d)%Z) in *.
  set (r := ((100 * n) mod Z.pos d)%Z) in *.
  assert (a ≤ fl)%Z by nia.
  assert (fl ≤ b)%Z by nia.
  destruct (2 * r ?= Z.pos d)%Z eqn:E.
  - apply Z.compare_eq in E. destruct (Z.even fl); split; try lia; nia.
  - split; lia.
  - apply Z.compare_gt_iff in E. split; [lia|nia].
Qed.

Lemma quantize_on_grid x : on_grid (quantize x).
Proof. by exists (quantize_hundredths x). Qed.

Lemma quantize_within (lo hi x : Q) :
  on_grid lo → on_grid hi → within lo hi x → within lo hi (quantize x).
Proof.
  intros [a Ha] [b Hb] [Hlo Hhi]. rewrite Ha in Hlo. rewrite Hb in Hhi.
  destruct (quantize_hundredths_between x a b Hlo Hhi) as [H1 H2].
  unfold within, quantize. rewrite Ha, Hb.
  unfold Qle. simpl. lia.
Qed.

Lemma interpolation_within (lo hi r : Q) :
  lo <= hi → 0 <= r → r < 1 → within lo hi (lo + (hi - lo) * r).
Proof. intros. split; nra. Qed.

Lemma walk_ranges_selects ranges : ∀ c rand rand_uniform cp,
  walk_ranges ranges c rand rand_uniform = Some cp →
  ∃ i rc, ranges !! i = Some rc
    ∧ rand <= foldl (fun acc rc => acc + probability rc) c (take (S i) ranges)
    ∧ (∀ j, (j < i)%nat →
         foldl (fun acc rc => acc + probability rc) c (take (S j) ranges) < rand)
    ∧ cp = quantize (min rc + (max rc - min rc) * rand_uniform).
Proof.
  induction ranges as [|rc0 rest IH]; intros c rand rand_uniform cp H; [done|].
  cbn [walk_ranges] in H.
  destruct (Qle_bool rand (c + probability rc0)) eqn:E.
  - injection H as <-. exists 0%nat, rc0.
    split; [done|]. split; [by apply Qle_bool_iff|]. split; [lia|done].
  - apply IH in H as (i & rc & Hl & Hle & Hlt & Hcp).
    exists (S i), rc. split; [done|]. split; [done|]. split; [|done].
    intros [|j] Hj.
    + simpl. apply Qnot_le_lt. intros Hle'. apply Qle_bool_iff in Hle'. congruence.
    + apply Hlt. lia.
Qed.

Lemma walk_ranges_none ranges : ∀ c rand rand_uniform,
  walk_ranges ranges c rand rand_uniform = None →
  ranges = [] ∨ foldl (fun acc rc => acc + probability rc) c ranges < rand.
Proof.
  induction ranges as [|rc0 rest IH]; intros c rand rand_uniform H; [by left|].
  right. cbn [walk_ranges] in H.
  destruct (Qle_bool rand (c + probability rc0)) eqn:E; [done|].
  apply IH in H as [->|H]; [|done].
  simpl. apply Qnot_le_lt. intros Hle'. apply Qle_bool_iff in Hle'. congruence.
Qed.

End Generator.

(** C5, as the generator and the schema implement it.  With [rand] and
    [rand_uniform] the two numbers drawn, [rand_uniform] in [0, 1), and a
    table of ranges whose bounds are ordered and given to two decimals:
    when [rand] does not exceed the total probability the generator returns
    a value; the value it returns is the interpolation
    [min + (max - min) * rand_uniform] of the first range whose cumulative
    probability reaches [rand], rounded half-even to two decimals; it lies
    between that range's [min] and [max], and therefore between 1.00 and
    max_coefficient whenever every configured range does.  Every crash point
    stored in game_history lies between 1.00 and 1000.00. *)
Theorem crash_point_within_selected_range
    (crash_ranges : list GameConfig.range_config) (rand rand_uniform : Q) :
  (0 <= rand_uniform)%Q → (rand_uniform < 1)%Q →
  Forall CrashPoint.well_formed_range crash_ranges →
  (crash_ranges ≠ [] → (rand <= CrashPoint.cumulative crash_ranges)%Q →
     is_Some (GameConfig.generate_crash_point crash_ranges rand rand_uniform))
  ∧ (∀ cp, GameConfig.generate_crash_point crash_ranges rand rand_uniform = Some cp →
       ∃ i rc, CrashPoint.selects crash_ranges rand i rc
         ∧ cp = GameConfig.quantize
                  (GameConfig.min rc
                   + (GameConfig.max rc - GameConfig.min rc) * rand_uniform)%Q
         ∧ CrashPoint.on_grid cp
         ∧ CrashPoint.within (GameConfig.min rc) (GameConfig.max rc) cp
         ∧ ∀ max_coefficient,
             Forall (fun rc => (1 <= GameConfig.min rc)%Q
                               ∧ (GameConfig.max rc <= max_coefficient)%Q) crash_ranges →
             CrashPoint.within 1 max_coefficient cp)
  ∧ (∀ dep script,
       Forall (fun g => 100 ≤ gh_crash_point g ∧ gh_crash_point g ≤ 100000)
              (game_history (run dep empty_database script))).
Proof.
  intros H0 H1 Hwf. split; [|split].
  - intros Hne Hle. unfold GameConfig.generate_crash_point.
    destruct (GameConfig.walk_ranges crash_ranges 0 rand rand_uniform) eqn:E; [done|].
    apply walk_ranges_none in E as [->|E]; [done|].
    exfalso. unfold CrashPoint.cumulative in Hle. by apply (Qlt_not_le _ _ E).
  - intros cp H. unfold GameConfig.generate_crash_point in H.
    apply walk_ranges_selects in H as (i & rc & Hl & Hle & Hlt & Hcp).
    exists i, rc. split; [done|]. split; [done|].
    rewrite Forall_lookup in Hwf. destruct (Hwf i rc Hl) as (Hord & Hgmin & Hgmax).
    assert (CrashPoint.within (GameConfig.min rc) (GameConfig.max rc) cp) as Hin.
    { subst cp. apply quantize_within; [done|done|]. by apply interpolation_within. }
    split; [subst cp; apply quantize_on_grid|]. split; [done|].
    intros max_coefficient Hall. rewrite Forall_lookup in Hall.
    destruct (Hall i rc Hl) as [Hlo Hhi]. destruct Hin as [Hin1 Hin2].
    split; [by eapply Qle_trans | by eapply Qle_trans].
  - intros dep script.
    destruct (run_invariant dep script empty_database (ledger_invariant_empty dep))
      as (_ & _ & _ & Hg).
    eapply Forall_impl; [exact Hg|].
    intros g Hc. unfold check_crash_point_range in Hc.
    apply andb_prop in Hc as [? ?]. lia.
Qed.

Lemma default_ranges_well_formed :
  Forall CrashPoint.well_formed_range GameConfig.default_ranges.
Proof.
  repeat constructor; simpl; try (unfold Qle; simpl; lia).
  - by exists 110.
  - by exists 300.
  - by exists 300.
  - by exists 1000.
  - by exists 1000.
  - by exists 5000.
Qed.

(** The shipped configuration, with 0.95 and 0.5 drawn: the third range is
    selected and the crash point is 30.00, inside [1.00, 100]. *)
Lemma crash_point_within_selected_range_witness :
  ∃ cp, GameConfig.generate_crash_point GameConfig.default_ranges (95 # 100) (1 # 2)
        = Some cp
      ∧ CrashPoint.within 1 (GameConfig.max_coefficient GameConfig.default_config) cp.
Proof.
  assert (0 <= 1 # 2)%Q as H0 by (unfold Qle; simpl; lia).
  assert (1 # 2 < 1)%Q as H1 by (unfold Qlt; simpl; lia).
  destruct (crash_point_within_selected_range GameConfig.default_ranges
              (95 # 100) (1 # 2) H0 H1 default_ranges_well_formed) as (_ & Hsel & _).
  exists (3000 # 100)%Q. split; [reflexivity|].
  destruct (Hsel (3000 # 100)%Q eq_refl) as (i & rc & _ & _ & _ & _ & Hcap).
  apply Hcap.
  repeat constructor; simpl; unfold Qle; simpl; lia.
Defined.

(** With max_coefficient set to 10 and the default ranges, the draw 0.95,
    0.5 yields 30.00, above max_coefficient; and game_history accepts a
    crash point of 500.00 while max_coefficient is 100. *)
Lemma crash_point_above_max_coefficient :
  GameConfig.generate_crash_point
    (GameConfig.crash_ranges CrashPoint.low_cap_config) (95 # 100) (1 # 2)
  = Some (3000 # 100)%Q
  ∧ ¬ CrashPoint.within 1 (GameConfig.max_coefficient CrashPoint.low_cap_config)
                        (3000 # 100)
  ∧ (gh_crash_point <$>
       game_history (run production empty_database
                         [(0, InsertGameHistory (mk_gh 1 50000 0 0 0 0 0))]))
    = [50000]
  ∧ ¬ CrashPoint.within 1 (GameConfig.max_coefficient GameConfig.default_config)
                        (50000 # 100).
Proof.
  split; [reflexivity|]. split; [|split; [reflexivity|]].
  - intros [_ H]. unfold Qle in H. simpl in H. lia.
  - intros [_ H]. unfold Qle in H. simpl in H. lia.
Qed.

(** ** The wagered-balance gate of the store *)

Section StoreGate.

Import Binary64 Store WageredGate.

Lemma pow2_pos s : 0 ≤ s → 0 < 2 ^ s.
Proof. intros Hs. by apply Z.pow_pos_nonneg. Qed.

Lemma even_abs n : Z.even (Z.abs n) = Z.even n.
Proof. by destruct n as [|p|p]. Qed.

Lemma round_half_even_exact a s :
  0 ≤ s → a mod 2 ^ s = 0 → round_half_even a s = a / 2 ^ s.
Proof.
  intros Hs Hm. unfold round_half_even. rewrite Hm.
  assert (0 < 2 ^ s) by (by apply Z.pow_pos_nonneg).
  by destruct (Z.compare_spec (2 * 0) (2 ^ s)); try lia.
Qed.

Lemma round_half_even_bounds a s :
  0 ≤ a → 0 ≤ s →
  a / 2 ^ s ≤ round_half_even a s
  ∧ 2 * Z.abs (round_half_even a s * 2 ^ s - a) ≤ 2 ^ s.
Proof.
  intros Ha Hs. unfold round_half_even.
  assert (0 < 2 ^ s) as Hp by (by apply Z.pow_pos_nonneg).
  pose proof (Z.div_mod a (2 ^ s) ltac:(lia)) as Hdm.
  pose proof (Z.mod_pos_bound a (2 ^ s) Hp) as Hr.
  set (q := a / 2 ^ s) in *. set (r := a mod 2 ^ s) in *.
  assert (q * 2 ^ s - a = - r) as Hdown by lia.
  assert ((q + 1) * 2 ^ s - a = 2 ^ s - r) as Hup by lia.
  destruct (Z.compare_spec (2 * r) (2 ^ s)) as [E|E|E].
  - destruct (Z.even q); [rewrite Hdown|rewrite Hup]; lia.
  - rewrite Hdown. lia.
  - rewrite Hup. lia.
Qed.

Lemma round_magnitude_exact a :
  0 ≤ a → a mod 2 ^ Z.max 1 (Z.log2 a - 52) = 0 →
  2 * round_magnitude a = a.
Proof.
  intros Ha Hm. unfold round_magnitude.
  set (s := Z.max 1 (Z.log2 a - 52)) in *.
  assert (1 ≤ s) as Hs by lia.
  rewrite round_half_even_exact by (done || lia).
  apply Z.mod_divide in Hm; [|pose proof (pow2_pos s ltac:(lia)); lia].
  destruct Hm as [q Hq].
  assert (2 ^ s = 2 * 2 ^ (s - 1)) as Hsplit.
  { rewrite <- Z.pow_succ_r by lia. f_equal. lia. }
  assert (a / 2 ^ s = q) as ->.
  { symmetry. apply Z.div_unique_exact; [pose proof (pow2_pos s ltac:(lia)); lia|lia]. }
  rewrite Hsplit in Hq. lia.
Qed.

Lemma log2_shift_le a : 2 ≤ a → 2 ^ Z.max 1 (Z.log2 a - 52) ≤ a.
Proof.
  intros Ha. pose proof (Z.log2_spec a ltac:(lia)) as [Hl _].
  assert (1 ≤ Z.log2 a) by (apply Z.log2_le_pow2; lia).
  transitivity (2 ^ Z.log2 a); [|done].
  apply Z.pow_le_mono_r; lia.
Qed.

Lemma round_magnitude_positive a : 2 ≤ a → 0 < round_magnitude a.
Proof.
  intros Ha. unfold round_magnitude.
  set (s := Z.max 1 (Z.log2 a - 52)).
  pose proof (log2_shift_le a Ha) as Hle. fold s in Hle.
  destruct (round_half_even_bounds a s ltac:(lia) ltac:(lia)) as [Hq _].
  assert (1 ≤ a / 2 ^ s).
  { apply Z.div_le_lower_bound; [apply pow2_pos; lia|lia]. }
  pose proof (pow2_pos (s - 1) ltac:(lia)). nia.
Qed.

Lemma round_magnitude_error a :
  0 ≤ a → Z.even a = true →
  2 ^ 53 * Z.abs (2 * round_magnitude a - a) ≤ a.
Proof.
  intros Ha He.
  destruct (Z_le_gt_dec (Z.log2 a - 52) 0) as [Hsmall|Hbig].
  - rewrite round_magnitude_exact; [lia|done|].
    replace (Z.max 1 (Z.log2 a - 52)) with 1 by lia.
    rewrite Zmod_even, He. done.
  - unfold round_magnitude.
    replace (Z.max 1 (Z.log2 a - 52)) with (Z.log2 a - 52) by lia.
    set (s := Z.log2 a - 52).
    destruct (round_half_even_bounds a s ltac:(lia) ltac:(lia)) as [_ Herr].
    assert (0 < a) as Hpos.
    { destruct (Z.eq_dec a 0) as [->|]; [|lia]. cbn in Hbig. lia. }
    pose proof (Z.log2_spec a Hpos) as [Hl _].
    replace (2 * (round_half_even a s * 2 ^ (s - 1)))
      with (round_half_even a s * 2 ^ s).
    2:{ replace (2 ^ s) with (2 * 2 ^ (s - 1)); [lia|].
        rewrite <- Z.pow_succ_r by lia. f_equal. lia. }
    assert (2 ^ Z.log2 a = 2 ^ 52 * 2 ^ s) as Hsplit.
    { rewrite <- Z.pow_add_r by lia. f_equal. lia. }
    lia.
Qed.

Lemma round_sign k :
  (2 ≤ k → lt (Finite 0) (round k) = true)
  ∧ (k ≤ -2 → lt (round k) (Finite 0) = true).
Proof.
  unfold round. split; intros Hk.
  - pose proof (round_magnitude_positive (Z.abs k) ltac:(lia)) as Hp.
    replace (0 <? k) with true by (symmetry; apply Z.ltb_lt; lia).
    destruct (2 ^ 2098 <=? round_magnitude (Z.abs k)); [done|].
    cbn [lt]. apply Z.ltb_lt. rewrite Z.sgn_pos by lia. lia.
  - pose proof (round_magnitude_positive (Z.abs k) ltac:(lia)) as Hp.
    replace (0 <? k) with false by (symmetry; apply Z.ltb_ge; lia).
    destruct (2 ^ 2098 <=? round_magnitude (Z.abs k)); [done|].
    cbn [lt]. apply Z.ltb_lt. rewrite Z.sgn_neg by lia. lia.
Qed.

Lemma representable_even n : representable n → 2 ^ 53 ≤ Z.abs n → Z.even n = true.
Proof.
  intros [_ Hm] Hn.
  assert (53 ≤ Z.log2 (Z.abs n)) by (apply Z.log2_le_pow2; lia).
  set (s := Z.max 0 (Z.log2 (Z.abs n) - 52)) in *.
  apply Z.mod_divide in Hm; [|pose proof (pow2_pos s ltac:(lia)); lia].
  destruct Hm as [q Hq].
  assert (2 ^ s = 2 * 2 ^ (s - 1)) as Hs.
  { rewrite <- Z.pow_succ_r by lia. f_equal. lia. }
  rewrite <- even_abs, Hq, Hs.
  replace (q * (2 * 2 ^ (s - 1))) with (2 * (q * 2 ^ (s - 1))) by lia.
  by rewrite Z.even_mul.
Qed.

(** Halving a double that is even in units of 2^-1074 is exact. *)
Lemma halve_exact n :
  representable n → Z.even n = true →
  ∃ h, halve (Finite n) = Finite h ∧ 2 * h = n.
Proof.
  intros [Hfin Hm] He. cbn [halve]. unfold round.
  assert (2 * round_magnitude (Z.abs n) = Z.abs n) as Hex.
  { apply round_magnitude_exact; [lia|].
    destruct (Z_le_gt_dec (Z.log2 (Z.abs n) - 52) 0).
    - replace (Z.max 1 (Z.log2 (Z.abs n) - 52)) with 1 by lia.
      rewrite Zmod_even, even_abs, He. done.
    - replace (Z.max 1 (Z.log2 (Z.abs n) - 52))
        with (Z.max 0 (Z.log2 (Z.abs n) - 52)) by lia. done. }
  replace (2 ^ 2098 <=? round_magnitude (Z.abs n)) with false
    by (symmetry; apply Z.leb_gt; lia).
  eexists. split; [done|].
  destruct (Z.sgn_spec n) as [[? ->]|[[? ->]|[? ->]]]; lia.
Qed.

(** A difference that is a double is computed exactly. *)
Lemma round_exact d : representable d → round (2 * d) = Finite d.
Proof.
  intros [Hfin Hm]. unfold round.
  rewrite Z.abs_mul, Z.sgn_mul. change (Z.abs 2) with 2. change (Z.sgn 2) with 1.
  assert (2 * round_magnitude (2 * Z.abs d) = 2 * Z.abs d) as Hex.
  { apply round_magnitude_exact; [lia|].
    destruct (Z.eq_dec d 0) as [->|Hd]; [done|].
    rewrite Z.log2_double by lia.
    replace (Z.max 1 (Z.succ (Z.log2 (Z.abs d)) - 52))
      with (1 + Z.max 0 (Z.log2 (Z.abs d) - 52)) by lia.
    rewrite Z.pow_add_r by lia. change (2 ^ 1) with 2.
    rewrite Zmult_mod_distr_l, Hm. done. }
  replace (2 ^ 2098 <=? round_magnitude (2 * Z.abs d)) with false
    by (symmetry; apply Z.leb_gt; lia).
  f_equal. destruct (Z.sgn_spec d) as [[? ->]|[[? ->]|[? ->]]]; lia.
Qed.

(** The missing amount is positive as soon as the wagered balance is
    below the required one, whatever the two doubles are. *)
Lemma missing_positive required current :
  lt current required = true →
  lt (Finite 0) (Math_max (Finite 0) (sub required current)) = true.
Proof.
  destruct required as [| |r|], current as [| |c|]; cbn [lt sub Math_max];
    try done.
  intros H. apply Z.ltb_lt in H.
  destruct (round_sign (2 * (r - c))) as [Hpos _].
  specialize (Hpos ltac:(lia)).
  destruct (round (2 * (r - c))) as [| |n|]; cbn [lt Math_max] in *; try done.
  apply Z.ltb_lt in Hpos. apply Z.ltb_lt. lia.
Qed.

Lemma round_within_rounding d :
  0 < d →
  match round (2 * d) with
  | Finite m => within_rounding m d
  | _ => True
  end.
Proof.
  intros Hd. unfold round. rewrite (Z.abs_eq (2 * d)) by lia.
  destruct (2 ^ 2098 <=? round_magnitude (2 * d)); [by destruct (0 <? 2 * d)|].
  pose proof (round_magnitude_error (2 * d) ltac:(lia)) as H.
  rewrite Z.even_mul in H. specialize (H eq_refl).
  unfold within_rounding. rewrite Z.sgn_pos, Z.mul_1_l, (Z.abs_eq d) by lia.
  replace (2 * round_magnitude (2 * d) - 2 * d)
    with (2 * (round_magnitude (2 * d) - d)) in H by lia.
  rewrite Z.abs_mul in H. change (Z.abs 2) with 2 in H.
  revert H. generalize (Z.abs (round_magnitude (2 * d) - d)), (2 ^ 53).
  intros A P H. lia.
Qed.

End StoreGate.

(** The operations agree with the Standard Library's specification of
    binary64 on the numbers of the examples below. *)
Example halve_agrees_with_SpecFloat :
  Binary64.to_spec (Binary64.halve WageredGate.price_1000_7)
  = SpecFloat.SFdiv 53 1024 (Binary64.to_spec WageredGate.price_1000_7)
      (Binary64.to_spec (Binary64.of_Z 2)).
Proof. vm_compute. reflexivity. Qed.

Example sub_agrees_with_SpecFloat :
  Binary64.to_spec
    (Binary64.sub (Binary64.halve WageredGate.price_1000_7) WageredGate.wagered_0_1)
  = SpecFloat.SFsub 53 1024
      (Binary64.to_spec (Binary64.halve WageredGate.price_1000_7))
      (Binary64.to_spec WageredGate.wagered_0_1).
Proof. vm_compute. reflexivity. Qed.

(** A tie in the subnormal range, a tie at 53 bits and an overflow. *)
Example rounding_agrees_with_SpecFloat :
  Binary64.to_spec (Binary64.halve (Binary64.Finite 3))
  = SpecFloat.SFdiv 53 1024 (Binary64.to_spec (Binary64.Finite 3))
      (Binary64.to_spec (Binary64.of_Z 2))
  ∧ Binary64.to_spec (Binary64.sub (Binary64.of_Z 1) (Binary64.from_bits 1 (-54)))
    = SpecFloat.SFsub 53 1024 (Binary64.to_spec (Binary64.of_Z 1))
        (Binary64.to_spec (Binary64.from_bits 1 (-54)))
  ∧ Binary64.to_spec
      (Binary64.sub (Binary64.from_bits (2 ^ 53 - 1) 971)
                    (Binary64.from_bits (- (2 ^ 53 - 1)) 971))
    = SpecFloat.SFsub 53 1024
        (Binary64.to_spec (Binary64.from_bits (2 ^ 53 - 1) 971))
        (Binary64.to_spec (Binary64.from_bits (- (2 ^ 53 - 1)) 971)).
Proof. vm_compute. done. Qed.

(** C8, as the store component implements it.  The component computes in
    doubles.  For a price that is a double of magnitude at least 2^-1021
    and a finite wagered balance: the required amount is exactly half of
    the price; the missing amount is [max(0, required - current)] with the
    difference rounded to the nearest double, hence exact whenever the
    difference is a double itself.  While the loaded wagered
    balance is below the required amount the purchase button is disabled
    whatever the balance is, and the missing amount is positive and equal to
    the exact difference up to one rounding; once the wagered balance
    reaches the required amount nothing is missing and the gate no longer
    blocks the purchase.  Until the statistics are loaded the wagered
    balance plays no part: the button is disabled only while a purchase is
    being sent or when the balance is below the price. *)
Theorem wagered_gate (purchasing : option string) (balance : Binary64.double)
    (gift : Store.TelegramGift) (p c : Z) :
  Store.price gift = Binary64.Finite p →
  Binary64.representable p → 2 ^ 53 ≤ Z.abs p →
  ∃ h,
    Store.calculateRequiredWagered (Store.price gift) = Binary64.Finite h
    ∧ 2 * h = p
    ∧ Store.calculateMissingWagered (Store.price gift) (Binary64.Finite c)
      = Binary64.Math_max (Binary64.Finite 0) (Binary64.round (2 * (h - c)))
    ∧ (Binary64.representable (h - c) →
         Store.calculateMissingWagered (Store.price gift) (Binary64.Finite c)
         = Binary64.Finite (Z.max 0 (h - c)))
    ∧ (c < h →
         Store.purchase_disabled purchasing balance
           (Some (Store.mk_user_stats (Binary64.Finite c))) gift = true
         ∧ Binary64.lt (Binary64.Finite 0)
             (Store.calculateMissingWagered (Store.price gift) (Binary64.Finite c))
           = true
         ∧ match Store.calculateMissingWagered (Store.price gift)
                   (Binary64.Finite c) with
           | Binary64.Finite m => WageredGate.within_rounding m (h - c)
           | _ => True
           end)
    ∧ (h ≤ c →
         Store.calculateMissingWagered (Store.price gift) (Binary64.Finite c)
           = Binary64.Finite 0
         ∧ Store.purchase_disabled purchasing balance
             (Some (Store.mk_user_stats (Binary64.Finite c))) gift
           = bool_decide (purchasing = Some (Store.id gift))
             || Binary64.lt balance (Store.price gift))
    ∧ Store.purchase_disabled purchasing balance None gift
      = bool_decide (purchasing = Some (Store.id gift))
        || Binary64.lt balance (Store.price gift).
Proof.
  intros Hp Hrep Hnormal.
  destruct (halve_exact p Hrep (representable_even p Hrep Hnormal)) as (h & Hh & H2).
  exists h.
  unfold Store.purchase_disabled, Store.calculateMissingWagered,
    Store.calculateRequiredWagered.
  rewrite Hp, Hh. cbn [Store.wagered_balance Binary64.sub Binary64.lt].
  split; [done|]. split; [done|]. split; [done|].
  split; [intros Hr; by rewrite (round_exact _ Hr)|]. split; [|split].
  - intros Hlt. split; [|split].
    + replace (c <? h) with true by (symmetry; by apply Z.ltb_lt).
      by rewrite orb_true_r.
    + apply (missing_positive (Binary64.Finite h) (Binary64.Finite c)).
      by apply Z.ltb_lt.
    + pose proof (round_within_rounding (h - c) ltac:(lia)) as Hw.
      destruct (round_sign (2 * (h - c))) as [Hpos _].
      specialize (Hpos ltac:(lia)).
      destruct (Binary64.round (2 * (h - c))) as [| |m|];
        cbn [Binary64.Math_max Binary64.lt] in *; try done.
      apply Z.ltb_lt in Hpos. by rewrite Z.max_r by lia.
  - intros Hge. split.
    + destruct (Z.eq_dec h c) as [->|Hne].
      * by rewrite Z.sub_diag.
      * destruct (round_sign (2 * (h - c))) as [_ Hneg].
        specialize (Hneg ltac:(lia)).
        destruct (Binary64.round (2 * (h - c))) as [| |m|];
          cbn [Binary64.Math_max Binary64.lt] in *; try done.
        apply Z.ltb_lt in Hneg. by rewrite Z.max_l by lia.
    + replace (c <? h) with false by (symmetry; by apply Z.ltb_ge).
      by rewrite orb_false_r.
  - by rewrite orb_false_r.
Qed.

(** Wagered balance 40, price 100: the button is disabled even with a
    balance of 100000, and 10 is missing. *)
Lemma wagered_gate_witness :
  Store.purchase_disabled None (Binary64.of_Z 100000)
    (Some (Store.mk_user_stats (Binary64.of_Z 40))) WageredGate.gem = true
  ∧ Store.calculateMissingWagered (Store.price WageredGate.gem) (Binary64.of_Z 40)
    = Binary64.of_Z 10.
Proof.
  assert (E : Binary64.of_Z 40 = Binary64.Finite (40 * 2 ^ 1074))
    by (vm_compute; reflexivity).
  destruct (wagered_gate None (Binary64.of_Z 100000) WageredGate.gem
              (100 * 2 ^ 1074) (40 * 2 ^ 1074))
    as (h & _ & H2 & _ & _ & Hbelow & _).
  - vm_compute. reflexivity.
  - split; vm_compute; reflexivity.
  - apply Z.leb_le. vm_compute. reflexivity.
  - assert (Hlt : 40 * 2 ^ 1074 < h).
    { apply (Z.mul_lt_mono_pos_l 2); [done|]. rewrite H2.
      vm_compute. reflexivity. }
    destruct (Hbelow Hlt) as [Hdisabled _].
    split.
    + rewrite E. exact Hdisabled.
    + vm_compute. reflexivity.
Defined.

(** Before the statistics are loaded the gate is open: with a balance of
    1000 the gift of price 100 can be bought although nothing is known of
    the wagered balance.  And the missing amount is not always the exact
    difference: for the price 1000.7 and the wagered balance 0.1 (the
    nearest doubles) the amount computed is below half the price minus the
    wagered balance. *)
Lemma gate_open_before_statistics :
  Store.purchase_disabled None (Binary64.of_Z 1000) None WageredGate.gem = false
  ∧ ∃ p c m,
      WageredGate.price_1000_7 = Binary64.Finite p
      ∧ WageredGate.wagered_0_1 = Binary64.Finite c
      ∧ Store.calculateMissingWagered WageredGate.price_1000_7 WageredGate.wagered_0_1
        = Binary64.Finite m
      ∧ (Binary64.value m < Binary64.value p / 2 - Binary64.value c)%Q.
Proof.
  split; [reflexivity|].
  eexists _, _, _. split; [reflexivity|]. split; [reflexivity|].
  split; [vm_compute; reflexivity|].
  vm_compute. reflexivity.
Qed.

(** ** The growth function and the round *)

Section Growth.

Import RoundEngine RoundSpec.
Local Open Scope Q_scope.

(** [power] is exponentiation by a natural number. *)
Lemma power_Qpower g t : power g t == g ^ Z.of_nat t.
Proof.
  induction t as [|t IH]; [reflexivity|].
  cbn [power]. rewrite IH.
  replace (Z.of_nat (S t)) with (1 + Z.of_nat t)%Z by lia.
  rewrite Qpower_plus' by lia. reflexivity.
Qed.

Lemma power_nonneg g t : 0 <= g → 0 <= power g t.
Proof.
  intros Hg. induction t as [|t IH]; cbn [power]; [lra|].
  by apply Qmult_le_0_compat.
Qed.

Lemma power_le_1 g t : 0 <= g → g <= 1 → power g t <= 1.
Proof.
  intros H0 H1. induction t as [|t IH]; cbn [power]; [lra|].
  pose proof (power_nonneg g t H0). nra.
Qed.

Lemma power_step g t : 1 <= g → power g t <= power g (S t).
Proof.
  intros Hg. cbn [power].
  assert (0 <= power g t) by (apply power_nonneg; lra). nra.
Qed.

Lemma coefficient_step g t : 0 <= g → coefficient g t <= coefficient g (S t).
Proof.
  intros Hg. unfold coefficient. apply Q.max_lub; [apply Q.le_max_l|].
  destruct (Qlt_le_dec g 1) as [Hlt|Hge].
  - eapply Qle_trans; [|apply Q.le_max_l]. apply power_le_1; lra.
  - eapply Qle_trans; [|apply Q.le_max_r]. by apply power_step.
Qed.

Lemma coefficient_monotone g t1 t2 :
  0 <= g → (t1 ≤ t2)%nat → coefficient g t1 <= coefficient g t2.
Proof.
  intros Hg Hle. induction Hle as [|t2 Hle IH]; [apply Qle_refl|].
  eapply Qle_trans; [exact IH|]. by apply coefficient_step.
Qed.

Lemma newCoefficient_coefficient g t :
  GameWebSocket.newCoefficient (coefficient g t) == Qmax 1 (g ^ Z.of_nat t).
Proof.
  unfold GameWebSocket.newCoefficient, coefficient.
  rewrite Q.max_r by apply Q.le_max_l.
  by rewrite power_Qpower.
Qed.

(** Before the first tick at which the coefficient reaches the crash
    point the round is playing; from that tick on it is crashed, its open
    bets settled. *)
Lemma ticks_until_crash g r T :
  status r = waiting →
  (∀ t, (t < T)%nat → coefficient g t < crash_point r) →
  crash_point r <= coefficient g T →
  ∀ n, ticks g n (start g r) =
       if (n <? T)%nat then mk_round playing (crash_point r) n (bets r)
       else mk_round crashed (crash_point r) T (settle <$> bets r).
Proof.
  intros Hw Hbelow Hreach.
  assert (∀ t, (t < T)%nat →
            crash_if_reached g (mk_round playing (crash_point r) t (bets r))
            = mk_round playing (crash_point r) t (bets r)) as Hstay.
  { intros t Ht. unfold crash_if_reached. cbn [crash_point tick_count].
    destruct (Qle_bool (crash_point r) (coefficient g t)) eqn:E; [|done].
    apply Qle_bool_iff in E. exfalso. by apply (Qlt_not_le _ _ (Hbelow t Ht)). }
  assert (crash_if_reached g (mk_round playing (crash_point r) T (bets r))
          = mk_round crashed (crash_point r) T (settle <$> bets r)) as Hcrash.
  { unfold crash_if_reached. cbn [crash_point tick_count bets].
    apply Qle_bool_iff in Hreach. by rewrite Hreach. }
  induction n as [|n IH].
  - cbn [ticks]. unfold start. rewrite Hw.
    destruct (0 <? T)%nat eqn:E.
    + apply Hstay. by apply Nat.ltb_lt.
    + apply Nat.ltb_ge in E. assert (T = 0)%nat as -> by lia. exact Hcrash.
  - cbn [ticks]. rewrite IH.
    destruct (n <? T)%nat eqn:En.
    + apply Nat.ltb_lt in En. unfold tick. cbn [status crash_point tick_count bets].
      destruct (S n <? T)%nat eqn:ESn.
      * apply Hstay. by apply Nat.ltb_lt.
      * apply Nat.ltb_ge in ESn. assert (S n = T) as <- by lia. exact Hcrash.
    + apply Nat.ltb_ge in En.
      replace (S n <? T)%nat with false by (symmetry; apply Nat.ltb_ge; lia).
      reflexivity.
Qed.

End Growth.

(** C6.  For a growth rate that is not negative: the coefficient a client
    displays at tick [t] is [max(1, growth_rate^t)]; it is never below 1 and
    never decreases from one tick to a later one; and a round started from
    WAITING is PLAYING at every tick before the first tick [T] at which the
    coefficient reaches the crash point, and CRASHED from tick [T] on. *)
Theorem coefficient_growth_and_crash (growth_rate : Q) :
  (0 <= growth_rate)%Q →
  (∀ t, (GameWebSocket.newCoefficient (RoundEngine.coefficient growth_rate t)
         == Qmax 1 (growth_rate ^ Z.of_nat t))%Q)
  ∧ (∀ t, (1 <= GameWebSocket.newCoefficient (RoundEngine.coefficient growth_rate t))%Q)
  ∧ (∀ t1 t2, (t1 ≤ t2)%nat →
       (RoundEngine.coefficient growth_rate t1
        <= RoundEngine.coefficient growth_rate t2)%Q)
  ∧ (∀ r T,
       RoundEngine.status r = RoundEngine.waiting →
       (∀ t, (t < T)%nat →
          (RoundEngine.coefficient growth_rate t < RoundEngine.crash_point r)%Q) →
       (RoundEngine.crash_point r <= RoundEngine.coefficient growth_rate T)%Q →
       (∀ n, (n < T)%nat →
          RoundEngine.status
            (RoundSpec.ticks growth_rate n (RoundEngine.start growth_rate r))
          = RoundEngine.playing
          ∧ RoundEngine.tick_count
              (RoundSpec.ticks growth_rate n (RoundEngine.start growth_rate r)) = n)
       ∧ (∀ n, (T ≤ n)%nat →
            RoundEngine.status
              (RoundSpec.ticks growth_rate n (RoundEngine.start growth_rate r))
            = RoundEngine.crashed
            ∧ RoundEngine.tick_count
                (RoundSpec.ticks growth_rate n (RoundEngine.start growth_rate r)) = T)).
Proof.
  intros Hg. split; [apply newCoefficient_coefficient|].
  split; [intros t; apply Q.le_max_l|].
  split; [intros t1 t2; by apply coefficient_monotone|].
  intros r T Hw Hbelow Hreach.
  pose proof (ticks_until_crash growth_rate r T Hw Hbelow Hreach) as Hrun.
  split; intros n Hn; rewrite Hrun.
  - replace (n <? T)%nat with true by (symmetry; apply Nat.ltb_lt; lia). done.
  - replace (n <? T)%nat with false by (symmetry; apply Nat.ltb_ge; lia). done.
Qed.

(** Growth rate 1.01, crash point 1.03: the round is playing after two
    ticks and crashed after three. *)
Lemma coefficient_growth_and_crash_witness :
  (RoundEngine.status (RoundSpec.ticks (101 # 100) 2
                         (RoundEngine.start (101 # 100) RoundSpec.round_waiting))
   = RoundEngine.playing
   ∧ RoundEngine.tick_count (RoundSpec.ticks (101 # 100) 2
                               (RoundEngine.start (101 # 100) RoundSpec.round_waiting))
     = 2%nat)
  ∧ (RoundEngine.status (RoundSpec.ticks (101 # 100) 3
                           (RoundEngine.start (101 # 100) RoundSpec.round_waiting))
     = RoundEngine.crashed
     ∧ RoundEngine.tick_count (RoundSpec.ticks (101 # 100) 3
                                 (RoundEngine.start (101 # 100) RoundSpec.round_waiting))
       = 3%nat).
Proof.
  assert (0 <= 101 # 100)%Q as Hg by (unfold Qle; simpl; lia).
  destruct (coefficient_growth_and_crash (101 # 100) Hg) as (_ & _ & _ & Hrun).
  destruct (Hrun RoundSpec.round_waiting 3%nat) as [Hbefore Hafter].
  - reflexivity.
  - intros t Ht.
    destruct t as [|[|[|t]]]; [vm_compute; reflexivity ..|lia].
  - vm_compute. discriminate.
  - split; [apply Hbefore; lia | apply Hafter; lia].
Defined.

(** ** Cashout arbitration *)

Section Cashout.

Import RoundEngine RoundSpec.
Local Open Scope Q_scope.

Lemma cashout_accepted_iff g user r b :
  bets r !! user = Some b → bet_state b = open →
  accepted (cashout g user r).1
  ↔ status r = playing ∧ coefficient g (tick_count r) < crash_point r.
Proof.
  intros Hb Ho. unfold cashout, accepted. split.
  - intros [p Hp]. destruct (status r); [done| |done].
    destruct (Qle_bool (crash_point r) (coefficient g (tick_count r))) eqn:E; [done|].
    split; [done|]. apply Qnot_le_lt. intros Hle.
    apply Qle_bool_iff in Hle. congruence.
  - intros [-> Hlt].
    destruct (Qle_bool (crash_point r) (coefficient g (tick_count r))) eqn:E.
    + apply Qle_bool_iff in E. exfalso. by apply (Qlt_not_le _ _ Hlt).
    + rewrite Hb, Ho. by eexists.
Qed.

Lemma cashout_after_crash g user r :
  status r = crashed → cashout g user r = (Rejected RoundAlreadyCrashed, r).
Proof. intros H. unfold cashout. by rewrite H. Qed.

(** Nothing the authority serves changes a crashed round. *)
Lemma serve_crashed g r q : status r = crashed → serve g r q = r.
Proof.
  intros H. destruct q; simpl.
  - unfold start. by rewrite H.
  - unfold tick. by rewrite H.
  - by rewrite cashout_after_crash.
Qed.

Lemma serve_all_crashed g r qs : status r = crashed → serve_all g r qs = r.
Proof.
  intros H. unfold serve_all. induction qs as [|q qs IH]; simpl; [done|].
  by rewrite serve_crashed.
Qed.

Lemma crash_if_reached_bets g r :
  status r ≠ crashed →
  status (crash_if_reached g r) = crashed →
  bets (crash_if_reached g r) = settle <$> bets r.
Proof.
  unfold crash_if_reached.
  destruct (Qle_bool (crash_point r) (coefficient g (tick_count r))); simpl; done.
Qed.

(** The request that commits the crash settles every bet. *)
Lemma serve_commits_crash g r q :
  status r ≠ crashed →
  status (serve g r q) = crashed →
  bets (serve g r q) = settle <$> bets r.
Proof.
  intros Hnot. destruct q; simpl.
  - unfold start. destruct (status r) eqn:E; try (intros; congruence).
    intros Hc. by apply crash_if_reached_bets in Hc.
  - unfold tick. destruct (status r) eqn:E; try (intros; congruence).
    intros Hc. by apply crash_if_reached_bets in Hc.
  - unfold cashout. destruct (status r) eqn:E; try (simpl; intros; congruence).
    destruct (Qle_bool _ _); [simpl; intros; congruence|].
    destruct (bets r !! user) as [b|]; [|simpl; intros; congruence].
    destruct (bet_state b); simpl; intros; congruence.
Qed.

(** In a round served from WAITING on, PLAYING implies that the crash
    point has not been reached: the strict comparison in [cashout] and the
    crash transition agree. *)
Lemma serve_keeps_below g r q :
  (status r = playing → coefficient g (tick_count r) < crash_point r) →
  status (serve g r q) = playing →
  coefficient g (tick_count (serve g r q)) < crash_point (serve g r q).
Proof.
  assert (∀ r0, status (crash_if_reached g r0) = playing →
                coefficient g (tick_count (crash_if_reached g r0))
                < crash_point (crash_if_reached g r0)) as Hcrash.
  { intros r0. unfold crash_if_reached.
    destruct (Qle_bool (crash_point r0) (coefficient g (tick_count r0))) eqn:E;
      [done|].
    intros _. apply Qnot_le_lt. intros Hle. apply Qle_bool_iff in Hle. congruence. }
  intros Hinv. destruct q; simpl.
  - unfold start. destruct (status r) eqn:E;
      first [apply Hcrash | intros H; apply Hinv; congruence].
  - unfold tick. destruct (status r) eqn:E;
      first [apply Hcrash | intros H; apply Hinv; congruence].
  - unfold cashout. destruct (status r) eqn:E;
      try (simpl; intros H; apply Hinv; congruence).
    destruct (Qle_bool _ _); [simpl; intros H; apply Hinv; congruence|].
    destruct (bets r !! user) as [b|]; [|simpl; intros H; apply Hinv; congruence].
    destruct (bet_state b); simpl; intros H; apply Hinv; congruence.
Qed.

Lemma playing_below_crash_point g qs : ∀ r,
  (status r = playing → coefficient g (tick_count r) < crash_point r) →
  status (serve_all g r qs) = playing →
  coefficient g (tick_count (serve_all g r qs)) < crash_point (serve_all g r qs).
Proof.
  unfold serve_all.
  induction qs as [|q qs IH]; intros r Hinv; simpl; [done|].
  apply IH. by apply serve_keeps_below.
Qed.

End Cashout.

(** C1.  For a user who holds an open bet in a round: the authority accepts
    the cashout exactly when, at the moment it processes the request, the
    round is playing and the coefficient is strictly below the crash point;
    a click on the cashout button is accepted exactly when the handler posts
    it and that condition holds.  Once a request has committed the crash,
    the round stays crashed whatever is served next, every cashout attempt
    by anyone is rejected as RoundAlreadyCrashed without changing the round,
    and the user's bet is lost. *)
Theorem cashout_arbitration (growth_rate : Q) (r : RoundEngine.Round) (user : Z)
    (b : RoundEngine.Bet) :
  RoundEngine.bets r !! user = Some b →
  RoundEngine.bet_state b = RoundEngine.open →
  (RoundSpec.accepted (RoundEngine.cashout growth_rate user r).1
   ↔ RoundEngine.status r = RoundEngine.playing
     ∧ (RoundEngine.coefficient growth_rate (RoundEngine.tick_count r)
        < RoundEngine.crash_point r)%Q)
  ∧ (∀ c, (∃ res, RoundEngine.click_cashout growth_rate c user r = Some res
                  ∧ RoundSpec.accepted res.1)
          ↔ GameWebSocket.handleCashout_posts c = true
            ∧ RoundEngine.status r = RoundEngine.playing
            ∧ (RoundEngine.coefficient growth_rate (RoundEngine.tick_count r)
               < RoundEngine.crash_point r)%Q)
  ∧ (∀ q qs,
       RoundEngine.status r ≠ RoundEngine.crashed →
       RoundEngine.status (RoundEngine.serve growth_rate r q) = RoundEngine.crashed →
       RoundEngine.status
         (RoundEngine.serve_all growth_rate (RoundEngine.serve growth_rate r q) qs)
       = RoundEngine.crashed
       ∧ (∀ u,
            RoundEngine.cashout growth_rate u
              (RoundEngine.serve_all growth_rate (RoundEngine.serve growth_rate r q) qs)
            = (RoundEngine.Rejected RoundEngine.RoundAlreadyCrashed,
               RoundEngine.serve_all growth_rate (RoundEngine.serve growth_rate r q) qs))
       ∧ ∃ b', RoundEngine.bets
                 (RoundEngine.serve_all growth_rate
                    (RoundEngine.serve growth_rate r q) qs) !! user = Some b'
               ∧ RoundEngine.bet_state b' = RoundEngine.lost).
Proof.
  intros Hb Ho.
  pose proof (cashout_accepted_iff growth_rate user r b Hb Ho) as Hiff.
  split; [exact Hiff|]. split.
  - intros c. unfold RoundEngine.click_cashout.
    destruct (GameWebSocket.handleCashout_posts c); split.
    + intros (res & [= <-] & Hacc). split; [done|]. by apply Hiff.
    + intros (_ & Hcond). eexists. split; [done|]. by apply Hiff.
    + by intros (res & ? & _).
    + by intros (? & _).
  - intros q qs Hnot Hc.
    rewrite serve_all_crashed by done.
    split; [done|]. split; [intros u; by apply cashout_after_crash|].
    rewrite serve_commits_crash by done.
    rewrite lookup_fmap, Hb. simpl. eexists. split; [done|].
    unfold RoundEngine.settle. by rewrite Ho.
Qed.

(** A round in play at tick 3 (coefficient 1.030301, crash point 2.00):
    user 1 is paid; the authority would accept the click of a client whose
    handler posts. *)
Lemma cashout_arbitration_witness :
  RoundSpec.accepted
    (RoundEngine.cashout (101 # 100) 1 RoundSpec.round_in_play).1
  ∧ ∃ res, RoundEngine.click_cashout (101 # 100) RoundSpec.ready_client 1
             RoundSpec.round_in_play = Some res
           ∧ RoundSpec.accepted res.1.
Proof.
  destruct (cashout_arbitration (101 # 100) RoundSpec.round_in_play 1
              (RoundEngine.mk_bet 10 RoundEngine.open None None) eq_refl eq_refl)
    as (Hiff & Hclick & _).
  assert (RoundEngine.status RoundSpec.round_in_play = RoundEngine.playing
          ∧ (RoundEngine.coefficient (101 # 100)
               (RoundEngine.tick_count RoundSpec.round_in_play)
             < RoundEngine.crash_point RoundSpec.round_in_play)%Q) as Hcond
    by (split; [reflexivity | vm_compute; reflexivity]).
  split.
  - by apply Hiff.
  - apply Hclick. split; [reflexivity | exact Hcond].
Defined.


(** ** Worked examples *)

(** The loop of the history decoder stops by its own condition: one more
    round of fuel than the number of bytes changes nothing. *)
Lemma crash_history_loop_fuel_enough (bytes : list N) (fuel : nat) :
  ∀ i coefficients,
    (length bytes ≤ fuel + i)%nat →
    Websocket.crash_history_loop bytes (S fuel) i coefficients
    = Websocket.crash_history_loop bytes fuel i coefficients.
Proof.
  induction fuel as [|fuel IH]; intros i coefficients Hlen.
  - cbn [Websocket.crash_history_loop].
    replace (2 * i <? length bytes - 1)%nat with false
      by (symmetry; apply Nat.ltb_ge; lia).
    reflexivity.
  - cbn [Websocket.crash_history_loop] in *.
    destruct (2 * i <? length bytes - 1)%nat; [|reflexivity].
    destruct (Websocket.getUint16 bytes (1 + i * 2)) as [coeffInt|e]; [|reflexivity].
    cbn [mbind Websocket.completion_bind].
    apply (IH (S i)). lia.
Qed.

Example decode_game_state_playing :
  Websocket.decodeBinaryGameState (Websocket.code_units "AQEAAHsAyA==")
  = Some (Websocket.mk_game_state "1.23" "playing" 0 false None "2.00" false).
Proof. vm_compute. reflexivity. Qed.

Example decode_game_state_largest :
  Websocket.decodeBinaryGameState (Websocket.code_units "AQIF//8AAAk=")
  = Some (Websocket.mk_game_state "655.35" "crashed" 9 true None "0.00" false).
Proof. vm_compute. reflexivity. Qed.

Example decode_game_state_too_short :
  Websocket.decodeBinaryGameState (Websocket.code_units "AQIF//8AA") = None.
Proof. vm_compute. reflexivity. Qed.

Example decode_game_state_not_base64 :
  Websocket.decodeBinaryGameState (Websocket.code_units "AQEA*HsAyA==") = None.
Proof. vm_compute. reflexivity. Qed.

Example decode_crash_history_two :
  Websocket.decodeBinaryCrashHistory (Websocket.code_units "AgB7AMg=")
  = ["1.23"; "2.00"].
Proof. vm_compute. reflexivity. Qed.

Example quantize_tie_to_even_down :
  GameConfig.quantize (1005 # 1000) = (100 # 100)%Q.
Proof. reflexivity. Qed.

Example quantize_tie_to_even_up :
  GameConfig.quantize (1015 # 1000) = (102 # 100)%Q.
Proof. reflexivity. Qed.

Example generate_first_range :
  GameConfig.generate_crash_point GameConfig.default_ranges (1 # 2) (1 # 2)
  = Some (205 # 100)%Q.
Proof. reflexivity. Qed.

(** Probabilities that sum to 0.999 pass the documented tolerance; a draw
    of 0.9995 then selects no range. *)
Example generate_falls_through :
  GameConfig.generate_crash_point
    [GameConfig.mk_range (11 # 10) 3 (7 # 10); GameConfig.mk_range 3 10 (299 # 1000)]
    (9995 # 10000) (1 # 2)
  = None.
Proof. reflexivity. Qed.

Example round_half_away_tie : round_half_away 1501 2 = 751.
Proof. reflexivity. Qed.

Example round_half_away_negative_tie : round_half_away (-1501) 2 = -751.
Proof. reflexivity. Qed.

Example round_half_away_below_half : round_half_away 1 3 = 0.
Proof. reflexivity. Qed.

(** A refund that would lift the balance above the cap rolls the
    cancellation back: the request stays pending. *)
Example cancel_rolled_back_at_cap :
  execute production 30
    (run production empty_database
       [(0, InsertUser 1 (mk_user 99999999000 0 0));
        (20, InsertPaymentRequest 5 pending_request)])
    (UpdatePaymentRequest 5 canceled_request)
  = None.
Proof. vm_compute. reflexivity. Qed.

(** Scenario 5 of the specification: wagered balance 40 against a price of
    100, then 50. *)
Example store_scenario_blocked :
  Store.purchase_disabled None (Binary64.of_Z 1000)
    (Some (Store.mk_user_stats (Binary64.of_Z 40))) WageredGate.gem = true.
Proof. vm_compute. reflexivity. Qed.

Example store_scenario_allowed :
  Store.purchase_disabled None (Binary64.of_Z 1000)
    (Some (Store.mk_user_stats (Binary64.of_Z 50))) WageredGate.gem = false.
Proof. vm_compute. reflexivity. Qed.

(** Price 15.01, wagered balance 7.5: the button asks for more wagering,
    and the amount it hands to [toFixed(2)] is positive but below half a
    cent. *)
Example missing_below_half_a_cent :
  ∃ m,
    StoreButton.purchase_label None (Binary64.of_Z 100) (Some WageredGate.wagered_7_5)
                               WageredGate.bear
    = StoreButton.NeedToWager (Binary64.Finite m)
    ∧ (0 < Binary64.value m)%Q ∧ (Binary64.value m < 5 # 1000)%Q.
Proof.
  eexists. split; [vm_compute; reflexivity|]. split; vm_compute; reflexivity.
Qed.

(** An overdraft and a credit above the cap are both rolled back. *)
Example overdraft_rolled_back :
  balance <$> users (run production empty_database
                         [(0, InsertUser 1 (mk_user 100 0 0));
                          (1, UpdateUserBalance 1 (-1))]) !! 1
  = Some 100.
Proof. vm_compute. reflexivity. Qed.

Example credit_above_cap_rolled_back :
  balance <$> users (run production empty_database
                         [(0, InsertUser 1 (mk_user 100 0 0));
                          (1, UpdateUserBalance 1 (max_balance + 1))]) !! 1
  = Some 100.
Proof. vm_compute. reflexivity. Qed.

(** A win that the schema trigger left out of [total_games] stays left
    out after the corrected trigger is installed: one loss and one win
    under the schema file, one more loss under the migration. *)
Example uncounted_win_survives_fix :
  (fun s => (total_games s, games_won s, games_lost s))
    <$> user_stats (run production (run schema_only empty_database games_before_fix)
                        [(50, InsertTransaction second_loss)]) !! 1
  = Some (2, 1, 2).
Proof. vm_compute. reflexivity. Qed.

(** A win that pays less than the recorded bet is rolled back although the
    user has a statistics row that the update would leave valid: the row
    of the VALUES list carries a negative [total_won]. *)
Example underpaid_win_rolled_back :
  transactions_row_ok production before_underpaid_win
    (stamped before_underpaid_win underpaid_win) = true
  ∧ user_stats_row_ok
    <$> stats_trigger production 70 (user_stats before_underpaid_win)
          (transactions before_underpaid_win ++ [stamped before_underpaid_win underpaid_win])
          (stamped before_underpaid_win underpaid_win) !! 1
    = Some true
  ∧ total_won (excluded 70 (user_stats before_underpaid_win)
                 (transactions before_underpaid_win
                    ++ [stamped before_underpaid_win underpaid_win])
                 (stamped before_underpaid_win underpaid_win)) = -500
  ∧ execute production 70 before_underpaid_win (InsertTransaction underpaid_win) = None.
Proof. vm_compute. done. Qed.

(** A debit recorded as game_loss with a positive amount is refused. *)
Example positive_loss_refused :
  transactions (run production empty_database
                    [(0, InsertUser 1 (mk_user 5000 0 0));
                     (1, InsertTransaction
                           (mk_tx 0 1 (Some 7) "game_loss" 1000 4000 None "completed"
                                  None 1 (Some 1)))])
  = [].
Proof. vm_compute. reflexivity. Qed.

(** * Further properties *)

(** ** Statistics rows *)

Section StatsRows.

Variable dep : deployment.

Lemma insert_transaction_effect now db t db' :
  insert_transaction dep now db t = Some db' →
  transactions_row_ok dep db (stamped db t) = true
  ∧ transactions db' = transactions db ++ [stamped db t]
  ∧ user_stats db' =
      stats_trigger dep now (user_stats db) (transactions db ++ [stamped db t])
                    (stamped db t)
  ∧ payment_requests db' = payment_requests db
  ∧ game_history db' = game_history db.
Proof.
  unfold insert_transaction. fold (stamped db t). intros H.
  apply bind_Some in H as [[] [Hok H]]. apply require_Some in Hok.
  apply bind_Some in H as [db2 [H2 H3]].
  assert (transactions db2 = transactions db ++ [stamped db t]
          ∧ user_stats db2 = user_stats db
          ∧ payment_requests db2 = payment_requests db
          ∧ game_history db2 = game_history db) as (Et & Es & Ep & Eg).
  { unfold trigger_unlock_balance_on_deposit in H2.
    destruct (_ && _ && _) in H2; [|by injection H2 as <-].
    cbn [users] in H2.
    destruct (users db !! tx_user_id (stamped db t)) as [u|]; [|by injection H2 as <-].
    destruct (PromoCodesMigration.unlock_balance_on_deposit now (stamped db t) u);
      [|by injection H2 as <-].
    apply bind_Some in H2 as [[] [_ H2]]. by injection H2 as <-. }
  split; [done|].
  unfold trigger_update_user_stats_on_transaction in H3.
  rewrite Et, Es in H3. unfold stats_trigger.
  destruct (bool_decide (tx_type (stamped db t) ∈ ["game_win"; "game_loss"])).
  - apply bind_Some in H3 as [[] [_ H3]].
    apply bind_Some in H3 as [s [_ H3]]. apply bind_Some in H3 as [[] [_ H3]].
    injection H3 as <-.
    cbn [transactions user_stats payment_requests game_history with_user_stats].
    rewrite Et, Ep, Eg. by destruct (user_stats_fix dep).
  - injection H3 as <-.
    cbn [transactions user_stats payment_requests game_history with_user_stats].
    rewrite Et, Ep, Eg. by destruct (user_stats_fix dep).
Qed.

(** The row either trigger writes for the user of a game transaction. *)
Lemma schema_trigger_row now stats rows NEW :
  bool_decide (tx_type NEW ∈ ["game_win"; "game_loss"]) = true →
  DatabaseSchema.update_user_stats_on_transaction now stats rows NEW !! tx_user_id NEW
  = Some
      match is_win NEW, stats !! tx_user_id NEW with
      | false, None => mk_stats 1 0 1 (bet_amount rows NEW) 0 0 0 0 now
      | false, Some s =>
          mk_stats (total_games s + 1) (games_won s) (games_lost s + 1)
                   (total_wagered s + bet_amount rows NEW) (total_won s)
                   (wagered_balance s) (best_multiplier s) (avg_multiplier s) now
      | true, None =>
          mk_stats 1 1 0 0 (win_amount rows NEW) (win_amount rows NEW)
                   (coalesce (tx_multiplier NEW) 0) (new_avg_multiplier None NEW) now
      | true, Some s =>
          mk_stats (if total_games s <=? games_won s
                    then total_games s + 1 else total_games s)
                   (games_won s + 1) (games_lost s) (total_wagered s)
                   (total_won s + win_amount rows NEW)
                   (wagered_balance s + win_amount rows NEW)
                   (Z.max (best_multiplier s) (coalesce (tx_multiplier NEW) 0))
                   (new_avg_multiplier (Some s) NEW) now
      end.
Proof.
  intros Hk. unfold DatabaseSchema.update_user_stats_on_transaction. rewrite Hk.
  cbn [negb]. destruct (is_win NEW); cbn [negb];
    destruct (stats !! tx_user_id NEW); by rewrite lookup_insert_eq.
Qed.

Lemma fix_trigger_row now stats rows NEW :
  bool_decide (tx_type NEW ∈ ["game_win"; "game_loss"]) = true →
  FixUserStatsTrigger.update_user_stats_on_transaction now stats rows NEW !! tx_user_id NEW
  = Some
      match is_win NEW, stats !! tx_user_id NEW with
      | false, None => mk_stats 1 0 1 (bet_amount rows NEW) 0 0 0 0 now
      | false, Some s =>
          mk_stats (total_games s + 1) (games_won s) (games_lost s + 1)
                   (total_wagered s + bet_amount rows NEW) (total_won s)
                   (wagered_balance s) (best_multiplier s) (avg_multiplier s) now
      | true, None =>
          mk_stats 1 1 0 0 (win_amount rows NEW) (win_amount rows NEW)
                   (coalesce (tx_multiplier NEW) 0) (new_avg_multiplier None NEW) now
      | true, Some s =>
          mk_stats (total_games s + 1)
                   (games_won s + 1) (games_lost s) (total_wagered s)
                   (total_won s + win_amount rows NEW)
                   (wagered_balance s + win_amount rows NEW)
                   (Z.max (best_multiplier s) (coalesce (tx_multiplier NEW) 0))
                   (new_avg_multiplier (Some s) NEW) now
      end.
Proof.
  intros Hk. unfold FixUserStatsTrigger.update_user_stats_on_transaction. rewrite Hk.
  cbn [negb]. destruct (is_win NEW); cbn [negb];
    destruct (stats !! tx_user_id NEW); by rewrite lookup_insert_eq.
Qed.

Lemma stats_trigger_row now stats rows NEW :
  bool_decide (tx_type NEW ∈ ["game_win"; "game_loss"]) = true →
  stats_trigger dep now stats rows NEW !! tx_user_id NEW
  = Some
      match is_win NEW, stats !! tx_user_id NEW with
      | false, None => mk_stats 1 0 1 (bet_amount rows NEW) 0 0 0 0 now
      | false, Some s =>
          mk_stats (total_games s + 1) (games_won s) (games_lost s + 1)
                   (total_wagered s + bet_amount rows NEW) (total_won s)
                   (wagered_balance s) (best_multiplier s) (avg_multiplier s) now
      | true, None =>
          mk_stats 1 1 0 0 (win_amount rows NEW) (win_amount rows NEW)
                   (coalesce (tx_multiplier NEW) 0) (new_avg_multiplier None NEW) now
      | true, Some s =>
          mk_stats (if user_stats_fix dep then total_games s + 1
                    else if total_games s <=? games_won s
                         then total_games s + 1 else total_games s)
                   (games_won s + 1) (games_lost s) (total_wagered s)
                   (total_won s + win_amount rows NEW)
                   (wagered_balance s + win_amount rows NEW)
                   (Z.max (best_multiplier s) (coalesce (tx_multiplier NEW) 0))
                   (new_avg_multiplier (Some s) NEW) now
      end.
Proof.
  intros Hk. unfold stats_trigger. destruct (user_stats_fix dep).
  - rewrite fix_trigger_row by done. by repeat case_match.
  - rewrite schema_trigger_row by done. by repeat case_match.
Qed.

Lemma stats_trigger_shape now stats rows NEW :
  stats_trigger dep now stats rows NEW = stats
  ∨ ∃ s, stats_trigger dep now stats rows NEW = <[tx_user_id NEW := s]> stats.
Proof.
  unfold stats_trigger. destruct (user_stats_fix dep);
    [apply fix_stats_trigger_shape | apply schema_stats_trigger_shape].
Qed.

Lemma stats_trigger_other_kind now stats rows NEW :
  bool_decide (tx_type NEW ∈ ["game_win"; "game_loss"]) = false →
  stats_trigger dep now stats rows NEW = stats.
Proof.
  unfold stats_trigger. destruct (user_stats_fix dep);
    [apply fix_stats_trigger_other_kind | apply schema_stats_trigger_other_kind].
Qed.

(** A property of statistics rows that an update of the wagered balance
    keeps and that the trigger establishes for the row it writes holds of
    every row of every database reached from the empty one. *)
Variable P : user_stats_row → Prop.

Hypothesis P_wagered : ∀ s w now,
  P s →
  P (mk_stats (total_games s) (games_won s) (games_lost s) (total_wagered s)
              (total_won s) w (best_multiplier s) (avg_multiplier s) now).

Hypothesis P_trigger : ∀ now stats rows NEW s',
  bool_decide (tx_type NEW ∈ ["game_win"; "game_loss"]) = true →
  check_valid_multiplier NEW = true →
  (∀ s, stats !! tx_user_id NEW = Some s → user_stats_row_ok s = true ∧ P s) →
  stats_trigger dep now stats rows NEW !! tx_user_id NEW = Some s' →
  P s'.

Lemma insert_transaction_stats now db t db' :
  insert_transaction dep now db t = Some db' →
  ledger_invariant dep db →
  map_Forall (fun _ s => P s) (user_stats db) →
  map_Forall (fun _ s => P s) (user_stats db').
Proof.
  intros H Hinv HP.
  destruct (insert_transaction_effect _ _ _ _ H) as (Hok & _ & Es & _ & _).
  rewrite Es.
  destruct (bool_decide (tx_type (stamped db t) ∈ ["game_win"; "game_loss"])) eqn:Hk;
    [|by rewrite stats_trigger_other_kind].
  destruct (stats_trigger_shape now (user_stats db)
              (transactions db ++ [stamped db t]) (stamped db t)) as [-> | [s0 Hs0]];
    [done|].
  rewrite Hs0. apply map_Forall_insert_2; [|done].
  apply (P_trigger now (user_stats db) (transactions db ++ [stamped db t])
                   (stamped db t)); [done| | |by rewrite Hs0, lookup_insert_eq].
  - unfold transactions_row_ok in Hok. rewrite !andb_true_iff in Hok. tauto.
  - intros s Hs. destruct Hinv as (_ & Hst & _). split; [by apply (Hst _ _ Hs)|].
    by apply (HP _ _ Hs).
Qed.

Lemma execute_stats now db st db' :
  execute dep now db st = Some db' →
  ledger_invariant dep db →
  map_Forall (fun _ s => P s) (user_stats db) →
  map_Forall (fun _ s => P s) (user_stats db').
Proof.
  destruct st; cbn [execute]; intros H Hinv HP.
  - apply bind_Some in H as [[] [_ H]]. apply bind_Some in H as [[] [_ H]].
    by injection H as <-.
  - unfold update_users in H. destruct (users db !! id); [|by injection H as <-].
    apply bind_Some in H as [[] [_ H]]. by injection H as <-.
  - by eapply insert_transaction_stats.
  - apply bind_Some in H as [[] [_ H]]. apply bind_Some in H as [[] [_ H]].
    by injection H as <-.
  - apply bind_Some in H as [OLD [_ H]]. apply bind_Some in H as [[] [_ H]].
    unfold auto_refund_on_payment_cancel in H.
    destruct (_ && _) in H; [|by injection H as <-].
    apply bind_Some in H as [db2 [Hr H]]. unfold refund_updates in Hr.
    apply bind_Some in Hr as [db1 [H1 H2]].
    apply bind_Some in H as [u [_ H]].
    assert (ledger_invariant dep
              (with_payment_requests db (<[id := row]> (payment_requests db)))) as Hinv0
      by done.
    pose proof (update_users_invariant _ _ _ _ _ _ H1 Hinv0) as Hinv1.
    assert (user_stats db1 = user_stats db) as E1.
    { unfold update_users in H1. cbn [users with_payment_requests] in H1.
      destruct (users db !! pr_user_id row); [|by injection H1 as <-].
      apply bind_Some in H1 as [[] [_ H1]]. by injection H1 as <-. }
    assert (ledger_invariant dep db2 ∧ map_Forall (fun _ s => P s) (user_stats db2))
      as [Hinv2 HP2].
    { destruct (user_stats db1 !! pr_user_id row) as [s|] eqn:Hs.
      - apply bind_Some in H2 as [[] [Hok H2]]. apply require_Some in Hok.
        injection H2 as <-. destruct Hinv1 as (Hu1 & Hs1 & Ht1).
        split.
        + split; [done|]. split; [|done]. by apply map_Forall_insert_2.
        + cbn [user_stats with_user_stats]. apply map_Forall_insert_2.
          * apply P_wagered. rewrite E1 in Hs. by apply (HP _ _ Hs).
          * by rewrite E1.
      - injection H2 as <-. split; [done|]. by rewrite E1. }
    by eapply insert_transaction_stats.
  - apply bind_Some in H as [[] [_ H]]. apply bind_Some in H as [[] [_ H]].
    apply bind_Some in H as [[] [_ H]]. by injection H as <-.
Qed.

Lemma run_stats script : ∀ db,
  ledger_invariant dep db →
  map_Forall (fun _ s => P s) (user_stats db) →
  map_Forall (fun _ s => P s) (user_stats (run dep db script)).
Proof.
  unfold run. induction script as [|cmd script IH]; intros db Hinv HP; [done|].
  cbn [foldl]. unfold step at 2.
  destruct (execute dep cmd.1 db cmd.2) as [db'|] eqn:E; cbn [default].
  - apply IH; [by eapply execute_invariant | by eapply execute_stats].
  - destruct (rollback_tables dep cmd.1 db cmd.2) as (_ & Es & _).
    apply IH; [by apply rollback_invariant | by rewrite Es].
Qed.

End StatsRows.

(** ** Counters and multipliers of the statistics rows *)

Lemma round_half_away_le n d k :
  0 < d → 0 ≤ k → n ≤ k * d → round_half_away n d ≤ k.
Proof.
  intros Hd Hk Hn. unfold round_half_away. destruct (0 <=? n) eqn:E.
  - apply Z.leb_le in E.
    apply Z.lt_succ_r, Z.div_lt_upper_bound; nia.
  - apply Z.leb_gt in E.
    assert (0 ≤ (2 * - n + d) / (2 * d)) by (apply Z.div_pos; lia). lia.
Qed.

Lemma stats_row_ok_logical s :
  user_stats_row_ok s = true → check_stats_logical s = true.
Proof. unfold user_stats_row_ok. rewrite !andb_true_iff. tauto. Qed.

Lemma check_stats_logical_spec s :
  check_stats_logical s = true →
  0 ≤ total_games s ∧ 0 ≤ games_won s ∧ 0 ≤ games_lost s
  ∧ games_won s ≤ total_games s ∧ games_lost s ≤ total_games s
  ∧ 0 ≤ total_wagered s ∧ 0 ≤ total_won s ∧ 0 ≤ wagered_balance s
  ∧ 0 ≤ best_multiplier s ∧ 0 ≤ avg_multiplier s.
Proof. unfold check_stats_logical. rewrite !andb_true_iff, !Z.leb_le. tauto. Qed.

Lemma multipliers_capped_trigger dep now stats rows NEW s' :
  bool_decide (tx_type NEW ∈ ["game_win"; "game_loss"]) = true →
  check_valid_multiplier NEW = true →
  (∀ s, stats !! tx_user_id NEW = Some s →
        user_stats_row_ok s = true ∧ multipliers_capped s) →
  stats_trigger dep now stats rows NEW !! tx_user_id NEW = Some s' →
  multipliers_capped s'.
Proof.
  intros Hk Hm Hold. rewrite stats_trigger_row by done. intros [= <-].
  unfold multipliers_capped, new_avg_multiplier.
  assert (is_win NEW = true → ∀ m, tx_multiplier NEW = Some m → 100 ≤ m ∧ m ≤ 10000) as Hm'.
  { unfold is_win, check_valid_multiplier in *. intros Hw m Em. rewrite Em, Hw in Hm.
    cbn in Hm. rewrite orb_false_r, andb_true_iff, !Z.leb_le in Hm. lia. }
  destruct (stats !! tx_user_id NEW) as [s|].
  - destruct (Hold s eq_refl) as [Hok [H1 H2]].
    apply stats_row_ok_logical, check_stats_logical_spec in Hok.
    destruct (is_win NEW); cbn [best_multiplier avg_multiplier]; [|done].
    destruct (tx_multiplier NEW) as [m|]; cbn [coalesce default from_option id fmap option_fmap option_map].
    + destruct (Hm' eq_refl m eq_refl). destruct (games_won s =? 0) eqn:E; [lia|].
      apply Z.eqb_neq in E. split; [|lia].
      apply round_half_away_le; nia.
    + lia.
  - destruct (is_win NEW); cbn [best_multiplier avg_multiplier]; [|done].
    destruct (tx_multiplier NEW) as [m|]; cbn [coalesce default from_option id fmap option_fmap option_map].
    + destruct (Hm' eq_refl m eq_refl). lia.
    + done.
Qed.

Section Counting.

Variable dep : deployment.

Lemma counting_kept_refl a : counting_kept dep a a.
Proof.
  split; [done|]. intros uid s' Hs. rewrite Hs. split; [lia|done].
Qed.

Lemma counting_kept_trans a b c :
  counting_kept dep a b → counting_kept dep b c → counting_kept dep a c.
Proof.
  intros [Kab Hab] [Kbc Hbc]. split; [intros uid H; by apply Kbc, Kab|].
  intros uid s2 H2. specialize (Hbc uid s2 H2).
  destruct (b !! uid) as [s1|] eqn:E1.
  - specialize (Hab uid s1 E1). destruct Hbc as [L2 F2].
    destruct (a !! uid) as [s|]; destruct Hab as [L1 F1];
      (split; [lia | intros F; rewrite F2, F1 by done; done]).
  - destruct (a !! uid) as [s|] eqn:E; [|done].
    destruct (Kab uid (mk_is_Some _ _ E)) as [x Hx]. congruence.
Qed.

Lemma counting_kept_insert a uid s' :
  match a !! uid with
  | Some s =>
      uncounted s ≤ uncounted s'
      ∧ (user_stats_fix dep = true → uncounted s' = uncounted s)
  | None => 0 ≤ uncounted s' ∧ (user_stats_fix dep = true → uncounted s' = 0)
  end →
  counting_kept dep a (<[uid := s']> a).
Proof.
  intros H. split.
  - intros uid' Hs. apply lookup_insert_is_Some'. by right.
  - intros uid' s1 Hs1. destruct (decide (uid' = uid)) as [->|Hne].
    + rewrite lookup_insert_eq in Hs1. by injection Hs1 as <-.
    + rewrite lookup_insert_ne in Hs1 by done. rewrite Hs1. split; [lia|done].
Qed.

Lemma stats_trigger_counting now stats rows NEW :
  counting_kept dep stats (stats_trigger dep now stats rows NEW).
Proof.
  destruct (bool_decide (tx_type NEW ∈ ["game_win"; "game_loss"])) eqn:Hk;
    [|rewrite stats_trigger_other_kind by done; apply counting_kept_refl].
  pose proof (stats_trigger_row dep now stats rows NEW Hk) as Hrow.
  destruct (stats_trigger_shape dep now stats rows NEW) as [-> | [s0 Hs0]];
    [apply counting_kept_refl|].
  rewrite Hs0 in Hrow |- *. rewrite lookup_insert_eq in Hrow. injection Hrow as ->.
  apply counting_kept_insert. unfold uncounted.
  destruct (stats !! tx_user_id NEW) as [s|]; destruct (is_win NEW);
    cbn [total_games games_won games_lost];
    destruct (user_stats_fix dep); repeat case_match; split; intros; lia.
Qed.

Lemma insert_transaction_counting now db t db' :
  insert_transaction dep now db t = Some db' →
  counting_kept dep (user_stats db) (user_stats db').
Proof.
  intros H. destruct (insert_transaction_effect _ _ _ _ _ H) as (_ & _ & -> & _).
  apply stats_trigger_counting.
Qed.

Lemma execute_counting now db st db' :
  execute dep now db st = Some db' →
  counting_kept dep (user_stats db) (user_stats db').
Proof.
  destruct st; cbn [execute]; intros H.
  - apply bind_Some in H as [[] [_ H]]. apply bind_Some in H as [[] [_ H]].
    injection H as <-. apply counting_kept_refl.
  - unfold update_users in H.
    destruct (users db !! id); [|injection H as <-; apply counting_kept_refl].
    apply bind_Some in H as [[] [_ H]]. injection H as <-. apply counting_kept_refl.
  - by eapply insert_transaction_counting.
  - apply bind_Some in H as [[] [_ H]]. apply bind_Some in H as [[] [_ H]].
    injection H as <-. apply counting_kept_refl.
  - apply bind_Some in H as [OLD [_ H]]. apply bind_Some in H as [[] [_ H]].
    unfold auto_refund_on_payment_cancel in H.
    destruct (_ && _) in H; [|injection H as <-; apply counting_kept_refl].
    apply bind_Some in H as [db2 [Hr H]]. unfold refund_updates in Hr.
    apply bind_Some in Hr as [db1 [H1 H2]].
    apply bind_Some in H as [u [_ H]].
    assert (user_stats db1 = user_stats db) as E1.
    { unfold update_users in H1. cbn [users with_payment_requests] in H1.
      destruct (users db !! pr_user_id row); [|by injection H1 as <-].
      apply bind_Some in H1 as [[] [_ H1]]. by injection H1 as <-. }
    eapply counting_kept_trans; [|by eapply insert_transaction_counting].
    rewrite <- E1.
    destruct (user_stats db1 !! pr_user_id row) as [s|] eqn:Hs;
      [|injection H2 as <-; apply counting_kept_refl].
    apply bind_Some in H2 as [[] [_ H2]]. injection H2 as <-.
    cbn [user_stats with_user_stats]. apply counting_kept_insert.
    rewrite Hs. unfold uncounted. cbn [total_games games_won games_lost].
    split; [lia|done].
  - apply bind_Some in H as [[] [_ H]]. apply bind_Some in H as [[] [_ H]].
    apply bind_Some in H as [[] [_ H]]. injection H as <-. apply counting_kept_refl.
Qed.

End Counting.

(** X1.  Call uncounted the results of a statistics row that its game
    count misses: [games_won + games_lost - total_games].  Start from any
    database and run any sequence of statements under one deployment.  No
    statistics row disappears.  The uncounted results of a row that was
    there at the start never shrink, and with the corrected trigger
    installed they do not change at all: the correction counts every later
    game once and leaves what earlier games left uncounted as it is.  A row
    created on the way never counts more games than it has results, and
    with the corrected trigger installed its game count is exactly its wins
    plus its losses.
    From the empty database every row is created on the way. *)
Theorem total_games_counts_results (dep : deployment) (db : database)
    (script : list (Z * statement)) :
  counting_kept dep (user_stats db) (user_stats (run dep db script)).
Proof.
  unfold run. revert db.
  induction script as [|cmd script IH]; intros db; [apply counting_kept_refl|].
  cbn [foldl]. unfold step at 2.
  destruct (execute dep cmd.1 db cmd.2) as [db'|] eqn:E; cbn [default].
  - eapply counting_kept_trans; [|apply IH]. by eapply execute_counting.
  - destruct (rollback_tables dep cmd.1 db cmd.2) as (_ & Es & _).
    rewrite <- Es at 1. apply IH.
Qed.

(** X2.  In every database reached from the empty one, the average
    multiplier of a statistics row never exceeds its best multiplier, and
    the best multiplier never exceeds 100.00. *)
Theorem avg_multiplier_below_best dep script :
  map_Forall (fun _ s => multipliers_capped s)
             (user_stats (run dep empty_database script)).
Proof.
  apply run_stats.
  - by intros s w now H.
  - apply multipliers_capped_trigger.
  - apply ledger_invariant_empty.
  - apply map_Forall_empty.
Qed.

(** ** Ledger entries *)

Section LedgerEntries.

Variable dep : deployment.
Variable Q : transactions_row → Prop.
Hypothesis Q_checked : ∀ db t, transactions_row_ok dep db t = true → Q t.

Lemma execute_entries now db st db' :
  execute dep now db st = Some db' →
  Forall Q (transactions db) → Forall Q (transactions db').
Proof.
  destruct st; cbn [execute]; intros H HQ.
  - apply bind_Some in H as [[] [_ H]]. apply bind_Some in H as [[] [_ H]].
    by injection H as <-.
  - unfold update_users in H. destruct (users db !! id); [|by injection H as <-].
    apply bind_Some in H as [[] [_ H]]. by injection H as <-.
  - destruct (insert_transaction_effect _ _ _ _ _ H) as (Hok & -> & _).
    apply Forall_app. split; [done|]. apply Forall_singleton. by eapply Q_checked.
  - apply bind_Some in H as [[] [_ H]]. apply bind_Some in H as [[] [_ H]].
    by injection H as <-.
  - apply bind_Some in H as [OLD [_ H]]. apply bind_Some in H as [[] [_ H]].
    unfold auto_refund_on_payment_cancel in H.
    destruct (_ && _) in H; [|by injection H as <-].
    apply bind_Some in H as [db2 [Hr H]]. unfold refund_updates in Hr.
    apply bind_Some in Hr as [db1 [H1 H2]].
    apply bind_Some in H as [u [_ H]].
    assert (transactions db1 = transactions db) as E1.
    { unfold update_users in H1. cbn [users with_payment_requests] in H1.
      destruct (users db !! pr_user_id row); [|by injection H1 as <-].
      apply bind_Some in H1 as [[] [_ H1]]. by injection H1 as <-. }
    assert (transactions db2 = transactions db1) as E2.
    { destruct (user_stats db1 !! pr_user_id row); [|by injection H2 as <-].
      apply bind_Some in H2 as [[] [_ H2]]. by injection H2 as <-. }
    destruct (insert_transaction_effect _ _ _ _ _ H) as (Hok & -> & _).
    rewrite E2, E1. apply Forall_app. split; [done|].
    apply Forall_singleton. by eapply Q_checked.
  - apply bind_Some in H as [[] [_ H]]. apply bind_Some in H as [[] [_ H]].
    apply bind_Some in H as [[] [_ H]]. by injection H as <-.
Qed.

Lemma run_entries script : ∀ db,
  Forall Q (transactions db) → Forall Q (transactions (run dep db script)).
Proof.
  unfold run. induction script as [|cmd script IH]; intros db HQ; [done|].
  cbn [foldl]. unfold step at 2.
  destruct (execute dep cmd.1 db cmd.2) as [db'|] eqn:E; cbn [default].
  - apply IH. by eapply execute_entries.
  - destruct (rollback_tables dep cmd.1 db cmd.2) as (_ & _ & Et & _).
    apply IH. by rewrite Et.
Qed.

End LedgerEntries.

(** X3.  Every ledger entry stored in a database reached from the empty
    one moves at most 1,000,000.00 in either direction, and a game win
    that records a multiplier records one between 1.00 and 100.00. *)
Theorem ledger_entries_within_limits dep script :
  Forall entry_within_limits (transactions (run dep empty_database script)).
Proof.
  apply run_entries with (Q := entry_within_limits); [|by apply Forall_nil].
  intros db t Hok. unfold transactions_row_ok in Hok.
  rewrite !andb_true_iff in Hok.
  destruct Hok as [[[[[[_ _] _] Hm] Ha] _] _].
  unfold entry_within_limits, check_max_transaction_amount, check_valid_multiplier in *.
  split; [by apply Z.leb_le|].
  destruct (tx_multiplier t) as [m|]; [|done]. intros Hw.
  rewrite bool_decide_eq_true_2 in Hm by done. cbn in Hm.
  rewrite orb_false_r, andb_true_iff, !Z.leb_le in Hm. lia.
Qed.

(** X4.  Recording a ledger entry never changes a balance: after a
    committed INSERT INTO transactions every user still has the balance
    held before, whatever [balance_after] the entry carries.  The only
    column of [users] the insert can touch is the withdrawal lock: a
    completed deposit of a positive amount, with the promo-code migration
    installed, lowers the depositor's lock by the amount, not below zero. *)
Theorem ledger_entry_keeps_balances dep now db t db'
    (Hinv : ledger_invariant dep db)
    (Hex : execute dep now db (InsertTransaction t) = Some db') :
  ∀ id u, users db !! id = Some u →
    ∃ u', users db' !! id = Some u'
      ∧ balance u' = balance u
      ∧ withdrawal_locked_balance u' =
          if unlocking_deposit dep t && bool_decide (id = tx_user_id t)
          then Z.max 0 (withdrawal_locked_balance u - tx_amount t)
          else withdrawal_locked_balance u.
Proof.
  cbn [execute] in Hex. unfold insert_transaction in Hex. fold (stamped db t) in Hex.
  apply bind_Some in Hex as [[] [_ H]].
  apply bind_Some in H as [db2 [H2 H3]].
  assert (users db' = users db2) as ->.
  { unfold trigger_update_user_stats_on_transaction in H3.
    destruct (bool_decide _) in H3.
    - apply bind_Some in H3 as [[] [_ H3]].
      apply bind_Some in H3 as [s [_ H3]]. apply bind_Some in H3 as [[] [_ H3]].
      by injection H3 as <-.
    - by injection H3 as <-. }
  intros id u Hu. destruct Hinv as (Husers & _).
  pose proof (Husers _ _ Hu) as Hok. cbn beta in Hok.
  unfold trigger_unlock_balance_on_deposit in H2.
  unfold unlocking_deposit.
  change (tx_type (stamped db t)) with (tx_type t) in H2.
  change (tx_status (stamped db t)) with (tx_status t) in H2.
  change (tx_user_id (stamped db t)) with (tx_user_id t) in H2.
  destruct (promo_codes_migration dep && bool_decide (tx_type t = "deposit")
            && bool_decide (tx_status t = "completed")) eqn:Ed;
    [|injection H2 as <-; exists u; by rewrite ?andb_false_l].
  cbn [users] in H2.
  destruct (users db !! tx_user_id t) as [v|] eqn:Hv;
    [|injection H2 as <-; exists u; split; [done|split; [done|]];
      destruct (0 <? tx_amount t); [|done]; cbn [andb];
      by rewrite bool_decide_eq_false_2 by congruence].
  unfold PromoCodesMigration.unlock_balance_on_deposit in H2.
  change (tx_type (stamped db t)) with (tx_type t) in H2.
  change (tx_status (stamped db t)) with (tx_status t) in H2.
  change (tx_amount (stamped db t)) with (tx_amount t) in H2.
  rewrite !andb_true_iff in Ed. destruct Ed as [[Ep Et] Es].
  rewrite Et, Es in H2. cbn [andb] in H2 |- *.
  assert (0 ≤ withdrawal_locked_balance v) as Hv0.
  { pose proof (Husers _ _ Hv) as Hokv. cbn beta in Hokv.
    unfold users_row_ok in Hokv. rewrite Ep in Hokv. cbn [negb orb] in Hokv.
    rewrite !andb_true_iff in Hokv. destruct Hokv as [_ Hl].
    by apply Z.leb_le in Hl. }
  destruct (0 <? tx_amount t) eqn:Ea; cbn [andb].
  - destruct (0 <? withdrawal_locked_balance v) eqn:El.
    + apply bind_Some in H2 as [[] [_ H2]]. injection H2 as <-.
      cbn [users with_users].
      change (tx_user_id (stamped db t)) with (tx_user_id t).
      destruct (decide (id = tx_user_id t)) as [->|Hne].
      * rewrite lookup_insert_eq, bool_decide_eq_true_2 by done.
        eexists. split; [done|]. rewrite Hu in Hv. by injection Hv as ->.
      * rewrite lookup_insert_ne, bool_decide_eq_false_2 by done. by exists u.
    + injection H2 as <-. exists u. split; [done|split; [done|]].
      destruct (decide (id = tx_user_id t)) as [->|Hne];
        [|by rewrite bool_decide_eq_false_2].
      rewrite bool_decide_eq_true_2 by done. rewrite Hu in Hv. injection Hv as ->.
      apply Z.ltb_ge in El. apply Z.ltb_lt in Ea. lia.
  - injection H2 as <-. by exists u.
Qed.

Lemma ledger_entry_keeps_balances_witness :
  ∃ u', users (default locked_user
                 (execute (mk_deployment true true) 5 locked_user
                          (InsertTransaction (deposit_of 4000)))) !! 1 = Some u'
        ∧ balance u' = 5000 ∧ withdrawal_locked_balance u' = 0.
Proof.
  destruct (ledger_entry_keeps_balances (mk_deployment true true) 5 locked_user
              (deposit_of 4000)
              (default locked_user
                 (execute (mk_deployment true true) 5 locked_user
                          (InsertTransaction (deposit_of 4000)))))
    with (id := 1) (u := mk_user 5000 3000 0) as (u' & H1 & H2 & H3).
  - apply run_invariant, ledger_invariant_empty.
  - vm_compute. reflexivity.
  - vm_compute. reflexivity.
  - exists u'. split; [exact H1|]. split; [exact H2|]. exact H3.
Defined.

(** ** Statistics only grow *)

Section StatsGrow.

Variable dep : deployment.

Lemma counters_le_refl s : counters_le s s.
Proof. unfold counters_le. lia. Qed.

Lemma stats_grow_refl a : stats_grow a a.
Proof. intros uid s H. exists s. split; [done|apply counters_le_refl]. Qed.

Lemma stats_grow_trans a b c : stats_grow a b → stats_grow b c → stats_grow a c.
Proof.
  intros Hab Hbc uid s H. destruct (Hab uid s H) as (s1 & H1 & L1).
  destruct (Hbc uid s1 H1) as (s2 & H2 & L2). exists s2. split; [done|].
  unfold counters_le in *. lia.
Qed.

Lemma stats_grow_insert a uid s' :
  (∀ s, a !! uid = Some s → counters_le s s') → stats_grow a (<[uid := s']> a).
Proof.
  intros H uid' s Hs. destruct (decide (uid' = uid)) as [->|Hne].
  - exists s'. rewrite lookup_insert_eq. split; [done|]. by apply H.
  - exists s. rewrite lookup_insert_ne by done. split; [done|apply counters_le_refl].
Qed.

Lemma stats_trigger_grow now stats rows NEW :
  stats_grow stats (stats_trigger dep now stats rows NEW).
Proof.
  destruct (bool_decide (tx_type NEW ∈ ["game_win"; "game_loss"])) eqn:Hk;
    [|rewrite stats_trigger_other_kind by done; apply stats_grow_refl].
  pose proof (stats_trigger_row dep now stats rows NEW Hk) as Hrow.
  destruct (stats_trigger_shape dep now stats rows NEW) as [-> | [s0 Hs0]];
    [apply stats_grow_refl|].
  rewrite Hs0 in Hrow |- *. rewrite lookup_insert_eq in Hrow. injection Hrow as ->.
  apply stats_grow_insert. intros s Hs. rewrite Hs.
  unfold counters_le, bet_amount.
  destruct (is_win NEW);
    cbn [total_games games_won games_lost total_wagered best_multiplier];
    repeat case_match; lia.
Qed.

Lemma insert_transaction_stats_grow now db t db' :
  insert_transaction dep now db t = Some db' →
  stats_grow (user_stats db) (user_stats db').
Proof.
  intros H. destruct (insert_transaction_effect _ _ _ _ _ H) as (_ & _ & -> & _).
  apply stats_trigger_grow.
Qed.

Lemma execute_stats_grow now db st db' :
  execute dep now db st = Some db' →
  stats_grow (user_stats db) (user_stats db').
Proof.
  destruct st; cbn [execute]; intros H.
  - apply bind_Some in H as [[] [_ H]]. apply bind_Some in H as [[] [_ H]].
    injection H as <-. apply stats_grow_refl.
  - unfold update_users in H.
    destruct (users db !! id); [|injection H as <-; apply stats_grow_refl].
    apply bind_Some in H as [[] [_ H]]. injection H as <-. apply stats_grow_refl.
  - by eapply insert_transaction_stats_grow.
  - apply bind_Some in H as [[] [_ H]]. apply bind_Some in H as [[] [_ H]].
    injection H as <-. apply stats_grow_refl.
  - apply bind_Some in H as [OLD [_ H]]. apply bind_Some in H as [[] [_ H]].
    unfold auto_refund_on_payment_cancel in H.
    destruct (_ && _) in H; [|injection H as <-; apply stats_grow_refl].
    apply bind_Some in H as [db2 [Hr H]]. unfold refund_updates in Hr.
    apply bind_Some in Hr as [db1 [H1 H2]].
    apply bind_Some in H as [u [_ H]].
    assert (user_stats db1 = user_stats db) as E1.
    { unfold update_users in H1. cbn [users with_payment_requests] in H1.
      destruct (users db !! pr_user_id row); [|by injection H1 as <-].
      apply bind_Some in H1 as [[] [_ H1]]. by injection H1 as <-. }
    eapply stats_grow_trans; [|by eapply insert_transaction_stats_grow].
    rewrite <- E1.
    destruct (user_stats db1 !! pr_user_id row) as [s|] eqn:Hs;
      [|injection H2 as <-; apply stats_grow_refl].
    apply bind_Some in H2 as [[] [_ H2]]. injection H2 as <-.
    cbn [user_stats with_user_stats]. apply stats_grow_insert.
    intros s1 Hs1. rewrite Hs in Hs1. injection Hs1 as <-.
    unfold counters_le. cbn. lia.
  - apply bind_Some in H as [[] [_ H]]. apply bind_Some in H as [[] [_ H]].
    apply bind_Some in H as [[] [_ H]]. injection H as <-. apply stats_grow_refl.
Qed.

End StatsGrow.

(** X20.  Statistics only grow: whatever statements run, no statistics
    row is ever removed, and the game count, the win and loss counts, the
    total wagered and the best multiplier of a user never go down. *)
Theorem statistics_never_decrease (dep : deployment) (db : database)
    (script : list (Z * statement)) :
  stats_grow (user_stats db) (user_stats (run dep db script)).
Proof.
  unfold run. revert db.
  induction script as [|cmd script IH]; intros db; [apply stats_grow_refl|].
  cbn [foldl]. unfold step at 2.
  destruct (execute dep cmd.1 db cmd.2) as [db'|] eqn:E; cbn [default].
  - eapply stats_grow_trans; [|apply IH]. by eapply execute_stats_grow.
  - destruct (rollback_tables dep cmd.1 db cmd.2) as (_ & Es & _).
    rewrite <- Es at 1. apply IH.
Qed.

(** ** The byte layout of the binary messages *)

Section WireLayoutFacts.

Import Websocket WireLayout.
Local Open Scope N_scope.

Lemma history_bytes_length ns : length (history_bytes ns) = (1 + 2 * length ns)%nat.
Proof.
  unfold history_bytes. cbn [length]. f_equal.
  induction ns as [|n ns IH]; [done|].
  change ((n :: ns) ≫= big_endian) with (big_endian n ++ (ns ≫= big_endian)).
  rewrite length_app, IH. cbn [big_endian length]. lia.
Qed.

Lemma history_bytes_lookup ns : ∀ i n,
  ns !! i = Some n →
  history_bytes ns !! (1 + i * 2)%nat = Some (n / 256)
  ∧ history_bytes ns !! S (1 + i * 2) = Some (n mod 256).
Proof.
  unfold history_bytes.
  induction ns as [|m ns IH]; intros i n H; [done|].
  destruct i as [|i].
  - injection H as ->. done.
  - destruct (IH i n H) as [H1 H2]. split.
    + exact H1.
    + exact H2.
Qed.

Lemma getUint16_history_bytes ns i n :
  ns !! i = Some n → getUint16 (history_bytes ns) (1 + i * 2) = Normal n.
Proof.
  intros H. destruct (history_bytes_lookup ns i n H) as [H1 H2].
  unfold getUint16. rewrite H1, H2. f_equal.
  pose proof (N.div_mod n 256). lia.
Qed.

Lemma crash_history_loop_history_bytes ns : ∀ fuel i coefficients,
  (length ns - i < fuel)%nat →
  crash_history_loop (history_bytes ns) fuel i coefficients
  = Normal (coefficients ++ (div100_toFixed2 <$> drop i ns)).
Proof.
  induction fuel as [|fuel IH]; intros i coefficients Hfuel; [lia|].
  cbn [crash_history_loop]. rewrite history_bytes_length.
  destruct (2 * i <? 1 + 2 * length ns - 1)%nat eqn:E.
  - apply Nat.ltb_lt in E.
    destruct (lookup_lt_is_Some_2 ns i) as [n Hn]; [lia|].
    rewrite (getUint16_history_bytes ns i n Hn). cbn [mbind completion_bind].
    rewrite IH by lia. rewrite (drop_S ns n i Hn), fmap_cons.
    by rewrite <- app_assoc.
  - apply Nat.ltb_ge in E. rewrite drop_ge by lia. by rewrite app_nil_r.
Qed.

End WireLayoutFacts.

(** X5.  The crash-history decoder inverts the layout it reads: when the
    payload is base64 of the type byte 2 followed by one big-endian pair
    per value, the decoder returns exactly one two-decimal numeral for
    each value, in order.  A message with no pair at all decodes to the
    empty list. *)
Theorem crash_history_round_trip (binaryData : Websocket.js_string)
    (buffer ns : list N) :
  Websocket.atob binaryData = Websocket.Normal buffer →
  Websocket.to_Uint8Array buffer = WireLayout.history_bytes ns →
  Websocket.decodeBinaryCrashHistory binaryData = Websocket.div100_toFixed2 <$> ns.
Proof.
  intros Ha Hb.
  unfold Websocket.decodeBinaryCrashHistory, Websocket.decodeBinaryCrashHistory_try.
  rewrite Ha. cbn [mbind Websocket.completion_bind]. rewrite Hb.
  rewrite history_bytes_length.
  destruct ns as [|n ns]; [done|].
  replace (1 + 2 * length (n :: ns) <? 3)%nat with false
    by (symmetry; apply Nat.ltb_ge; cbn [length]; lia).
  change (Websocket.getUint8 (WireLayout.history_bytes (n :: ns)) 0)
    with (Websocket.Normal 2%N).
  cbn [mbind Websocket.completion_bind N.eqb Pos.eqb negb].
  rewrite crash_history_loop_history_bytes by lia.
  by rewrite drop_0.
Qed.

Lemma crash_history_round_trip_witness :
  Websocket.decodeBinaryCrashHistory (Websocket.code_units "AgB7AMg=")
  = ["1.23"; "2.00"].
Proof.
  apply (crash_history_round_trip (Websocket.code_units "AgB7AMg=")
           [2; 0; 123; 0; 200]%N [123; 200]%N).
  - vm_compute. reflexivity.
  - vm_compute. reflexivity.
Defined.

(** X6.  The game-state decoder returns null exactly on the inputs it
    cannot use: a payload that is not base64, one of fewer than seven
    bytes, or one whose type byte is not 1.  On every other input all its
    reads are in range and it returns a record. *)
Theorem game_state_null_iff (binaryData : Websocket.js_string) :
  Websocket.decodeBinaryGameState binaryData = None
  ↔ WireLayout.unusable_state binaryData.
Proof.
  unfold Websocket.decodeBinaryGameState, Websocket.decodeBinaryGameState_try,
    WireLayout.unusable_state.
  destruct (Websocket.atob binaryData) as [buffer|e]; [|done].
  cbn [mbind Websocket.completion_bind].
  rewrite <- (length_fmap (fun c => (c mod 256)%N) buffer).
  change ((fun c => (c mod 256)%N) <$> buffer) with (Websocket.to_Uint8Array buffer).
  generalize (Websocket.to_Uint8Array buffer). intros bytes.
  destruct (length bytes <? 7)%nat eqn:E7.
  - apply Nat.ltb_lt in E7. split; [by left|done].
  - apply Nat.ltb_ge in E7.
    destruct bytes as [|b0 [|b1 [|b2 [|b3 [|b4 [|b5 [|b6 rest]]]]]]];
      cbn [length] in E7; try lia.
    cbn [Websocket.getUint8 Websocket.getUint16 lookup list_lookup mbind
           Websocket.completion_bind head].
    destruct (b0 =? 1)%N eqn:Eb; cbn [negb].
    + apply N.eqb_eq in Eb. subst b0.
      destruct (Websocket.Boolean (N.land b2 4) && (7 <? length (1%N :: b1 :: b2 :: b3 :: b4 :: b5 :: b6 :: rest))%nat) eqn:Ec.
      * destruct rest as [|b7 rest].
        { cbn [length] in Ec. rewrite andb_false_r in Ec. discriminate. }
        cbn [Websocket.getUint8 lookup list_lookup mbind Websocket.completion_bind].
        split; [discriminate|]. intros [H|H]; [cbn [length] in H; lia|done].
      * cbn [mbind Websocket.completion_bind].
        split; [discriminate|]. intros [H|H]; [cbn [length] in H; lia|done].
    + apply N.eqb_neq in Eb. split; [intros _; right; congruence|done].
Qed.

(** ** The game screen *)

Section GameScreenFacts.

Import GameWebSocket GameScreen.
Local Open Scope Q_scope.

Lemma Math_max_1_not_below x : lt (Math_max (Finite 1) x) (Finite 1) = false.
Proof.
  destruct x as [| |y|]; cbn [Math_max lt]; try reflexivity.
  apply negb_false_iff, Qle_bool_iff, Q.le_max_l.
Qed.

Lemma slice_last_length n l : (n ≤ length l)%nat → length (slice_last n l) = n.
Proof. intros H. unfold slice_last. rewrite length_drop. lia. Qed.

Lemma updateHistory_drawable status newCoefficient prev :
  lt newCoefficient (Finite 1) = false →
  drawable prev → drawable (updateHistory status newCoefficient prev).
Proof.
  intros Hc [Hlen Hall].
  assert (drawable [Finite 1; Math_max (Finite 1) newCoefficient]) as Hnew.
  { split; [cbn [length]; lia|].
    repeat constructor. apply Math_max_1_not_below. }
  unfold updateHistory.
  destruct (String.eqb status "waiting" && le newCoefficient (Finite (11 # 10)));
    [exact Hnew|].
  destruct (match last prev with
            | Some p => lt newCoefficient p && le newCoefficient (Finite (11 # 10))
            | None => false
            end); [exact Hnew|].
  destruct (match last prev with
            | Some p => strict_equal p newCoefficient
            | None => false
            end); [by split|].
  cbv zeta.
  assert (Forall (fun p => lt p (Finite 1) = false)
                 (prev ++ [Math_max (Finite 1) newCoefficient])) as Hall'.
  { apply Forall_app. split; [done|]. repeat constructor. apply Math_max_1_not_below. }
  assert (length (prev ++ [Math_max (Finite 1) newCoefficient]) = S (length prev)) as Hl
    by (rewrite length_app; cbn [length]; lia).
  destruct (1000 <? length (prev ++ [Math_max (Finite 1) newCoefficient]))%nat eqn:E.
  - apply Nat.ltb_lt in E. split.
    + rewrite slice_last_length; lia.
    + by apply Forall_drop.
  - apply Nat.ltb_ge in E. split; [lia|done].
Qed.

Lemma onGameState_drawable c gs :
  drawable (currentGameHistory c) → drawable (currentGameHistory (onGameState c gs)).
Proof.
  intros H. unfold onGameState. cbn [currentGameHistory].
  destruct (String.eqb gs.2 "playing"); [|done].
  apply updateHistory_drawable; [apply Math_max_1_not_below|done].
Qed.

Lemma lt_false_le_false a b :
  lt a b = false → le b a = false → a = NaN ∨ b = NaN.
Proof.
  unfold le. destruct a as [| |x|], b as [| |y|]; cbn [lt strict_equal orb];
    auto; try discriminate.
  intros H1 H2. apply negb_false_iff in H1. apply orb_false_iff in H2 as [H2 H3].
  apply negb_false_iff in H2. apply Qle_bool_iff in H1, H2.
  assert (Qeq_bool y x = true) as H4 by (apply Qeq_bool_iff; lra).
  rewrite H4 in H3. discriminate.
Qed.

Lemma le_not_NaN a b : le a b = true → a ≠ NaN ∧ b ≠ NaN.
Proof. by destruct a as [| |x|], b as [| |y|]. Qed.

Lemma eqb_waiting_playing s :
  String.eqb s "waiting" = true → String.eqb s "playing" = false.
Proof. intros H. apply String.eqb_eq in H. by subst. Qed.

End GameScreenFacts.

(** X7.  Whatever game states arrive, in whatever order, the history the
    chart draws always has at least one point and at most 1000, and no
    point of it is below 1; the displayed coefficient is never below 1
    either. *)
Theorem chart_history_stays_drawable (updates : list (GameScreen.number * string)) :
  GameScreen.drawable
    (GameScreen.currentGameHistory
       (foldl GameScreen.onGameState GameScreen.initial_chart updates))
  ∧ GameScreen.lt
      (GameScreen.chart_coefficient
         (foldl GameScreen.onGameState GameScreen.initial_chart updates))
      (GameScreen.Finite 1) = false.
Proof.
  assert (GameScreen.drawable
            (GameScreen.currentGameHistory GameScreen.initial_chart)
          ∧ GameScreen.lt (GameScreen.chart_coefficient GameScreen.initial_chart)
              (GameScreen.Finite 1) = false) as H0.
  { split; [|reflexivity]. split; [cbn; lia|]. by repeat constructor. }
  revert H0. generalize GameScreen.initial_chart.
  induction updates as [|gs updates IH]; intros c [H1 H2]; [done|].
  cbn [foldl]. apply IH. split.
  - by apply onGameState_drawable.
  - apply Math_max_1_not_below.
Qed.

(** X8.  A click on the join button the screen renders, when it is not
    disabled, never ends in the wrong-phase or the insufficient-funds
    popup.  It is dropped during the two-second cooldown, answered with
    the user-id or the minimum-bet popup, or posts /join; a posted bet is
    a number (not NaN) of at least 10 and at most the balance shown, for a
    user id that is not 0, while the round is waiting. *)
Theorem join_button_posts_valid_bet (s : GameScreen.screen)
    (lastJoinAttempt : option (option Z)) (now : Z) :
  GameScreen.buttons s = GameScreen.JoinButton false →
  match GameScreen.placeBet lastJoinAttempt now s with
  | GameScreen.Ignored => GameScreen.in_cooldown lastJoinAttempt now = true
  | GameScreen.Popup m =>
      (m = "game.userIdError"
       ∧ GameWebSocket.falsy_id (GameWebSocket.userId (GameScreen.client s)) = true)
      ∨ (m = "game.minBet"
         ∧ GameScreen.lt (GameScreen.numBetAmount (GameScreen.betAmount s))
                         (GameScreen.Finite 10) = true)
  | GameScreen.PostJoin uid a =>
      GameScreen.status s = "waiting"
      ∧ GameWebSocket.userId (GameScreen.client s) = Some uid ∧ uid ≠ 0
      ∧ a = GameScreen.numBetAmount (GameScreen.betAmount s)
      ∧ GameScreen.le (GameScreen.Finite 10) a = true
      ∧ GameScreen.le a (GameScreen.balance s) = true
  end.
Proof.
  unfold GameScreen.buttons, GameScreen.placeBet. intros Hb.
  destruct (String.eqb (GameScreen.status s) "playing"
            && GameWebSocket.playerPlaying (GameScreen.client s)
            && negb (GameWebSocket.showCrashMessage (GameScreen.client s))
            && negb (GameWebSocket.showWinMessage (GameScreen.client s)));
    [discriminate|].
  destruct (String.eqb (GameScreen.status s) "playing"
            && negb (GameScreen.playerJoined s)); [discriminate|].
  destruct (String.eqb (GameScreen.status s) "waiting" && GameScreen.playerJoined s);
    [discriminate|].
  destruct (String.eqb (GameScreen.status s) "waiting"
            && negb (GameScreen.playerJoined s)
            && GameScreen.lt (GameScreen.balance s)
                 (GameScreen.numBetAmount (GameScreen.betAmount s))) eqn:E1;
    [discriminate|].
  destruct (String.eqb (GameScreen.status s) "waiting"
            && negb (GameScreen.playerJoined s)
            && GameScreen.ge (GameScreen.balance s)
                 (GameScreen.numBetAmount (GameScreen.betAmount s))) eqn:E2;
    [|discriminate].
  injection Hb as Hj. rewrite Hj.
  rewrite !andb_true_iff in E2. destruct E2 as [[Hw Hnj] Hge].
  rewrite Hw, Hnj in E1. cbn [andb] in E1. rewrite Hw, E1. cbn [negb].
  destruct (GameScreen.in_cooldown lastJoinAttempt now); [done|].
  destruct (GameWebSocket.userId (GameScreen.client s)) as [uid|];
    [|left; by split].
  destruct (GameWebSocket.falsy_id (Some uid)) eqn:Ef; [left; by split|].
  destruct (GameScreen.lt (GameScreen.numBetAmount (GameScreen.betAmount s))
                          (GameScreen.Finite 10)) eqn:E10; [right; by split|].
  split; [by apply String.eqb_eq|]. split; [done|].
  split; [cbn in Ef; by apply Z.eqb_neq in Ef|]. split; [done|].
  split; [|exact Hge].
  destruct (GameScreen.le (GameScreen.Finite 10)
              (GameScreen.numBetAmount (GameScreen.betAmount s))) eqn:Ele; [done|].
  destruct (lt_false_le_false _ _ E10 Ele) as [Hn|Hn]; [|discriminate].
  destruct (le_not_NaN _ _ Hge) as [Hn' _]. contradiction.
Qed.

Lemma join_button_posts_valid_bet_witness :
  match GameScreen.placeBet None 0 GameScreen.ready_to_join with
  | GameScreen.Ignored => GameScreen.in_cooldown None 0 = true
  | GameScreen.Popup m =>
      (m = "game.userIdError"
       ∧ GameWebSocket.falsy_id
           (GameWebSocket.userId (GameScreen.client GameScreen.ready_to_join)) = true)
      ∨ (m = "game.minBet"
         ∧ GameScreen.lt
             (GameScreen.numBetAmount (GameScreen.betAmount GameScreen.ready_to_join))
             (GameScreen.Finite 10) = true)
  | GameScreen.PostJoin uid a =>
      GameScreen.status GameScreen.ready_to_join = "waiting"
      ∧ GameWebSocket.userId (GameScreen.client GameScreen.ready_to_join) = Some uid
      ∧ uid ≠ 0
      ∧ a = GameScreen.numBetAmount (GameScreen.betAmount GameScreen.ready_to_join)
      ∧ GameScreen.le (GameScreen.Finite 10) a = true
      ∧ GameScreen.le a (GameScreen.balance GameScreen.ready_to_join) = true
  end.
Proof.
  apply (join_button_posts_valid_bet GameScreen.ready_to_join None 0).
  vm_compute. reflexivity.
Defined.

(** X9.  The cashout button and the cashout handler agree: a click on the
    button the screen renders posts /cashout exactly when the button is
    not disabled and the user id is neither null nor 0; and while the
    round is playing, whenever the handler would post, the screen renders
    the enabled cashout button. *)
Theorem cashout_button_matches_handler (s : GameScreen.screen) :
  (∀ disabled, GameScreen.buttons s = GameScreen.CashoutButton disabled →
     GameWebSocket.handleCashout_posts (GameScreen.client s)
     = negb disabled
       && negb (GameWebSocket.falsy_id (GameWebSocket.userId (GameScreen.client s))))
  ∧ (GameScreen.status s = "playing" →
     GameWebSocket.handleCashout_posts (GameScreen.client s) = true →
     GameScreen.buttons s = GameScreen.CashoutButton false).
Proof.
  unfold GameScreen.buttons, GameWebSocket.handleCashout_posts. split.
  - intros disabled Hb.
    destruct (String.eqb (GameScreen.status s) "playing"
              && GameWebSocket.playerPlaying (GameScreen.client s)
              && negb (GameWebSocket.showCrashMessage (GameScreen.client s))
              && negb (GameWebSocket.showWinMessage (GameScreen.client s))) eqn:E.
    + injection Hb as <-. rewrite !andb_true_iff, !negb_true_iff in E.
      destruct E as [[[_ ->] ->] ->]. cbn [negb orb].
      destruct (GameWebSocket.falsy_id _), (GameWebSocket.isCashingOut _); done.
    + repeat case_match; discriminate.
  - intros Hs Hp. rewrite Hs. cbn [String.eqb Ascii.eqb Bool.eqb andb].
    destruct (GameWebSocket.playerPlaying _), (GameWebSocket.showCrashMessage _),
      (GameWebSocket.showWinMessage _), (GameWebSocket.falsy_id _),
      (GameWebSocket.isCashingOut _); done.
Qed.

(** X10.  While the round waits and the player has not joined, the screen
    offers the join button or the insufficient-funds button unless the
    balance or the bet amount is NaN: then, and only then, it falls through
    to the waiting-for-the-end message. *)
Theorem waiting_screen_fallback (s : GameScreen.screen) :
  GameScreen.status s = "waiting" → GameScreen.playerJoined s = false →
  (GameScreen.buttons s = GameScreen.WaitingForEnd
   ↔ GameScreen.balance s = GameScreen.NaN
     ∨ GameScreen.numBetAmount (GameScreen.betAmount s) = GameScreen.NaN).
Proof.
  intros Hs Hj. unfold GameScreen.buttons. rewrite Hs, Hj.
  cbn [String.eqb Ascii.eqb Bool.eqb andb negb]. unfold GameScreen.ge.
  destruct (GameScreen.lt (GameScreen.balance s)
              (GameScreen.numBetAmount (GameScreen.betAmount s))) eqn:E1.
  - split; [discriminate|].
    intros [H|H]; rewrite H in E1; [done|].
    by destruct (GameScreen.balance s).
  - destruct (GameScreen.le (GameScreen.numBetAmount (GameScreen.betAmount s))
                (GameScreen.balance s)) eqn:E2.
    + split; [discriminate|]. destruct (le_not_NaN _ _ E2) as [Ha Hb].
      intros [Hn|Hn]; contradiction.
    + split; [|done]. intros _. by apply lt_false_le_false.
Qed.

Lemma waiting_screen_fallback_witness :
  GameScreen.buttons
    (GameScreen.mk_screen "waiting" false (GameScreen.Finite 25)
       (GameScreen.Preset GameScreen.NaN) false
       (GameWebSocket.mk_component false false false (Some 7) false))
  = GameScreen.WaitingForEnd.
Proof.
  apply (proj2 (waiting_screen_fallback
                  (GameScreen.mk_screen "waiting" false (GameScreen.Finite 25)
                     (GameScreen.Preset GameScreen.NaN) false
                     (GameWebSocket.mk_component false false false (Some 7) false))
                  eq_refl eq_refl)).
  right. reflexivity.
Defined.


(** ** The purchase button of the store *)

(** X11.  The text, the style and the [disabled] attribute of the
    purchase button agree.  A button that can be clicked always reads
    "buy" and is not styled as disabled.  The "wager more" text appears
    only on a disabled button, only when the balance is not below the
    price, and the amount handed to [toFixed(2)] is the missing amount the
    component computes in doubles, which is positive (its two printed
    decimals may still read 0.00).  A button styled as disabled is
    disabled; a disabled button without that style is the one whose
    purchase is being sent. *)
Theorem purchase_button_consistent (purchasing : option string)
    (balance : Binary64.double) (userStats : option Store.UserStats)
    (gift : Store.TelegramGift) :
  (Store.purchase_disabled purchasing balance userStats gift = false →
     StoreButton.purchase_label purchasing balance userStats gift
       = StoreButton.Buy (Store.price gift)
     ∧ StoreButton.styled_disabled balance userStats gift = false)
  ∧ (∀ amount,
       StoreButton.purchase_label purchasing balance userStats gift
         = StoreButton.NeedToWager amount →
       Store.purchase_disabled purchasing balance userStats gift = true
       ∧ Binary64.lt balance (Store.price gift) = false
       ∧ Binary64.lt (Binary64.Finite 0) amount = true
       ∧ ∃ us, userStats = Some us
           ∧ Binary64.lt (Store.wagered_balance us)
               (Store.calculateRequiredWagered (Store.price gift)) = true
           ∧ amount
             = Store.calculateMissingWagered (Store.price gift)
                 (Store.wagered_balance us))
  ∧ (StoreButton.styled_disabled balance userStats gift = true →
     Store.purchase_disabled purchasing balance userStats gift = true)
  ∧ (Store.purchase_disabled purchasing balance userStats gift = true →
     StoreButton.styled_disabled balance userStats gift = false →
     purchasing = Some (Store.id gift)
     ∧ StoreButton.purchase_label purchasing balance userStats gift
         = StoreButton.Sending).
Proof.
  unfold Store.purchase_disabled, StoreButton.purchase_label,
    StoreButton.styled_disabled, StoreButton.below_required.
  split; [|split; [|split]].
  - intros H. apply orb_false_iff in H as [H Hw]. apply orb_false_iff in H as [-> ->].
    cbn [orb]. split; [|exact Hw].
    destruct userStats as [us|]; [|done]. by rewrite Hw.
  - intros amount H.
    destruct (bool_decide (purchasing = Some (Store.id gift))); [discriminate|].
    destruct (Binary64.lt balance (Store.price gift)) eqn:Eb; [discriminate|].
    destruct userStats as [us|]; [|discriminate].
    destruct (Binary64.lt (Store.wagered_balance us)
                (Store.calculateRequiredWagered (Store.price gift))) eqn:Ew;
      [|discriminate].
    injection H as <-. split; [done|]. split; [done|]. split.
    + unfold Store.calculateMissingWagered. by apply missing_positive.
    + by exists us.
  - intros H. rewrite <- orb_assoc, H. apply orb_true_r.
  - intros H Hs. rewrite <- orb_assoc, Hs, orb_false_r in H. rewrite H.
    split; [|done]. by apply bool_decide_eq_true in H.
Qed.

(** ** The WebSocket service *)

Section ServiceFacts.

Import WebSocketService.

Lemma send_fields m s :
  reconnectAttempts (send m s).1 = reconnectAttempts s
  ∧ reconnectDelay (send m s).1 = reconnectDelay s
  ∧ reconnectTimer (send m s).1 = reconnectTimer s
  ∧ eventSubscriptions (send m s).1 = eventSubscriptions s
  ∧ created (send m s).1 = created s
  ∧ isConnected (send m s).1 = isConnected s.
Proof. unfold send. by destruct (ws s) as [[]|]. Qed.

Lemma attemptReconnect_bounded s :
  backoff_bounded s → reconnectAttempts s < maxReconnectAttempts →
  backoff_bounded (attemptReconnect s).
Proof.
  unfold backoff_bounded, attemptReconnect, maxReconnectAttempts.
  intros (Ha & Hd & Ht) Hlt.
  destruct (reconnectTimer s) as [d|] eqn:E; [by rewrite E|].
  cbn [reconnectAttempts reconnectDelay reconnectTimer].
  split; [lia|]. split; [done|].
  intros delay [= <-]. rewrite Hd.
  assert (reconnectAttempts s = 0 ∨ reconnectAttempts s = 1 ∨ reconnectAttempts s = 2
          ∨ reconnectAttempts s = 3 ∨ reconnectAttempts s = 4) as Hcases by lia.
  unfold backoff_delays.
  destruct Hcases as [-> | [-> | [-> | [-> | ->]]]]; vm_compute; by repeat constructor.
Qed.

Lemma step_backoff_bounded s o : backoff_bounded s → backoff_bounded (step s o).
Proof.
  intros H. pose proof H as (Ha & Hd & Ht).
  destruct o; cbn [step].
  - unfold connect. destruct (ws s) as [[]|]; exact H.
  - unfold disconnect, backoff_bounded.
    cbn [reconnectAttempts reconnectDelay reconnectTimer].
    split; [exact Ha|]. split; [exact Hd|]. intros d Hn. discriminate.
  - unfold subscribe. cbn [fst isConnected].
    destruct (isConnected s && forwarded e); [|done].
    unfold backoff_bounded.
    destruct (send_fields (Subscribe e)
                (mk_service (ws s) (userId s) (reconnectAttempts s) (reconnectDelay s)
                   (isConnected s)
                   (eventSubscriptions s ++ [mk_subscription (created s) e cb])
                   (reconnectTimer s) (pingInterval s) (S (created s)) (sent s)))
      as (-> & -> & -> & _). done.
  - unfold unsubscribe.
    destruct (indexOf subscription (eventSubscriptions s)) as [index|]; [|done].
    cbn [isConnected].
    destruct (isConnected s && forwarded (event subscription)); [|done].
    unfold backoff_bounded.
    destruct (send_fields (Unsubscribe (event subscription))
                (mk_service (ws s) (userId s) (reconnectAttempts s) (reconnectDelay s)
                   (isConnected s) (delete index (eventSubscriptions s))
                   (reconnectTimer s) (pingInterval s) (created s) (sent s)))
      as (-> & -> & -> & _). done.
  - unfold handleOpen, backoff_bounded, maxReconnectAttempts.
    cbn [reconnectAttempts reconnectDelay reconnectTimer].
    split; [lia|]. split; [done|]. exact Ht.
  - unfold handleClose. cbn [reconnectAttempts].
    destruct (negb (bool_decide (code = 1000)) && negb (bool_decide (code = 1001))
              && (reconnectAttempts s <? maxReconnectAttempts)) eqn:E; [|done].
    apply attemptReconnect_bounded; [done|].
    cbn [reconnectAttempts]. rewrite !andb_true_iff in E. destruct E as [_ E].
    by apply Z.ltb_lt.
  - destruct (ws s); exact H.
  - unfold reconnectTimerFired. destruct (reconnectTimer s) eqn:E; [|done].
    cbn [userId].
    assert (backoff_bounded
              (mk_service (ws s) (userId s) (reconnectAttempts s) (reconnectDelay s)
                 (isConnected s) (eventSubscriptions s) None (pingInterval s)
                 (created s) (sent s))) as H1.
    { split; [exact Ha|]. split; [exact Hd|]. intros d Hn. discriminate. }
    destruct (userId s); [|done].
    unfold connect. cbn [ws]. destruct (ws s) as [[]|]; exact H1.
  - unfold reconnectSettled.
    destruct (negb success && (reconnectAttempts s <? maxReconnectAttempts)) eqn:E;
      [|done].
    apply attemptReconnect_bounded; [done|].
    rewrite andb_true_iff in E. destruct E as [_ E]. by apply Z.ltb_lt.
  - unfold backoff_bounded. by destruct (send_fields Ping s) as (-> & -> & -> & _).
  - unfold backoff_bounded. by destruct (send_fields Pong s) as (-> & -> & -> & _).
Qed.

Lemma step_gives_up s o :
  o ≠ SocketOpened → reconnectAttempts s = maxReconnectAttempts →
  reconnectAttempts (step s o) = maxReconnectAttempts
  ∧ (reconnectTimer (step s o) = None
     ∨ reconnectTimer (step s o) = reconnectTimer s).
Proof.
  intros Ho Ha. destruct o; cbn [step]; try done.
  - unfold connect. destruct (ws s) as [[]|]; auto.
  - unfold disconnect. cbn. auto.
  - unfold subscribe. cbn [fst isConnected].
    destruct (isConnected s && forwarded e); [|auto].
    destruct (send_fields (Subscribe e)
                (mk_service (ws s) (userId s) (reconnectAttempts s) (reconnectDelay s)
                   (isConnected s)
                   (eventSubscriptions s ++ [mk_subscription (created s) e cb])
                   (reconnectTimer s) (pingInterval s) (S (created s)) (sent s)))
      as (-> & _ & -> & _). auto.
  - unfold unsubscribe.
    destruct (indexOf subscription (eventSubscriptions s)) as [index|]; [|auto].
    cbn [isConnected].
    destruct (isConnected s && forwarded (event subscription)); [|auto].
    destruct (send_fields (Unsubscribe (event subscription))
                (mk_service (ws s) (userId s) (reconnectAttempts s) (reconnectDelay s)
                   (isConnected s) (delete index (eventSubscriptions s))
                   (reconnectTimer s) (pingInterval s) (created s) (sent s)))
      as (-> & _ & -> & _). auto.
  - unfold handleClose. cbn [reconnectAttempts]. rewrite Ha, Z.ltb_irrefl, andb_false_r.
    auto.
  - destruct (ws s); auto.
  - unfold reconnectTimerFired. destruct (reconnectTimer s) eqn:E; [|auto].
    cbn [userId]. destruct (userId s); [|auto].
    unfold connect. cbn [ws]. destruct (ws s) as [[]|]; auto.
  - unfold reconnectSettled. rewrite Ha, Z.ltb_irrefl, andb_false_r. auto.
  - destruct (send_fields Ping s) as (-> & _ & -> & _). auto.
  - destruct (send_fields Pong s) as (-> & _ & -> & _). auto.
Qed.

Lemma send_subscriptions_distinct m s :
  subscriptions_distinct s → subscriptions_distinct (send m s).1.
Proof.
  unfold subscriptions_distinct.
  by destruct (send_fields m s) as (_ & _ & _ & -> & -> & _).
Qed.

Lemma step_subscriptions_distinct s o :
  subscriptions_distinct s → subscriptions_distinct (step s o).
Proof.
  intros H. pose proof H as [Hc Hn].
  destruct o; cbn [step]; try done.
  - unfold connect. by destruct (ws s) as [[]|].
  - unfold subscribe. cbn [fst isConnected].
    assert (subscriptions_distinct
              (mk_service (ws s) (userId s) (reconnectAttempts s) (reconnectDelay s)
                 (isConnected s)
                 (eventSubscriptions s ++ [mk_subscription (created s) e cb])
                 (reconnectTimer s) (pingInterval s) (S (created s)) (sent s))) as H1.
    { split; cbn [eventSubscriptions created].
      - apply Forall_app. split.
        + eapply Forall_impl; [exact Hc|]. intros x Hx. cbn beta in *. lia.
        + apply Forall_singleton. cbn. lia.
      - rewrite fmap_app. apply NoDup_app. split; [done|]. split.
        + intros i Hi Hi'. cbn in Hi'. apply list_elem_of_singleton in Hi'. subst i.
          apply list_elem_of_fmap in Hi as (x & Hx & Hin).
          rewrite Forall_forall in Hc. specialize (Hc x Hin). lia.
        + cbn. apply NoDup_singleton. }
    destruct (isConnected s && forwarded e); [|done].
    by apply send_subscriptions_distinct.
  - unfold unsubscribe.
    destruct (indexOf subscription (eventSubscriptions s)) as [index|]; [|done].
    cbn [isConnected].
    assert (subscriptions_distinct
              (mk_service (ws s) (userId s) (reconnectAttempts s) (reconnectDelay s)
                 (isConnected s) (delete index (eventSubscriptions s))
                 (reconnectTimer s) (pingInterval s) (created s) (sent s))) as H1.
    { split; cbn [eventSubscriptions created].
      - by apply Forall_delete.
      - eapply sublist_NoDup; [exact Hn|]. apply fmap_sublist, sublist_delete. }
    destruct (isConnected s && forwarded (event subscription)); [|done].
    by apply send_subscriptions_distinct.
  - unfold handleClose. cbn [reconnectAttempts].
    destruct (_ && _); [|done]. unfold attemptReconnect. cbn [reconnectTimer].
    by destruct (reconnectTimer s).
  - by destruct (ws s).
  - unfold reconnectTimerFired. destruct (reconnectTimer s); [|done].
    cbn [userId]. destruct (userId s); [|done].
    unfold connect. cbn [ws]. by destruct (ws s) as [[]|].
  - unfold reconnectSettled. destruct (_ && _); [|done].
    unfold attemptReconnect. by destruct (reconnectTimer s).
  - by apply send_subscriptions_distinct.
  - by apply send_subscriptions_distinct.
Qed.

Lemma run_subscriptions_distinct os : ∀ s,
  subscriptions_distinct s → subscriptions_distinct (run s os).
Proof.
  unfold run. induction os as [|o os IH]; intros s H; [done|].
  cbn [foldl]. by apply IH, step_subscriptions_distinct.
Qed.

Lemma initial_subscriptions_distinct : subscriptions_distinct initial.
Proof. split; [constructor|]. cbn. constructor. Qed.

(** Removing the first entry with a given identity from a list without
    repeated identities removes every entry with it. *)
Lemma indexOf_delete subscription l :
  NoDup (identity <$> l) →
  match indexOf subscription l with
  | Some index => delete index l
  | None => l
  end = List.filter (fun x => negb (bool_decide (identity x = identity subscription))) l.
Proof.
  unfold indexOf. induction l as [|x l IH]; intros Hn; [done|].
  rewrite fmap_cons in Hn. apply NoDup_cons in Hn as [Hx Hn].
  cbn [list_find List.filter].
  destruct (decide (identity x = identity subscription)) as [E|E].
  - rewrite bool_decide_eq_true_2 by done. cbn [negb fmap option_fmap option_map fst delete].
    change (delete 0%nat (x :: l)) with l.
    symmetry. apply forallb_filter_id. apply forallb_forall. intros y Hy.
    apply negb_true_iff, bool_decide_eq_false_2. intros Ey.
    apply Hx. rewrite E, <- Ey. apply list_elem_of_fmap. exists y. split; [done|].
    by apply list_elem_of_In.
  - rewrite bool_decide_eq_false_2 by done. cbn [negb].
    specialize (IH Hn).
    destruct (list_find (fun x => identity x = identity subscription) l) as [[i y]|];
      cbn [fmap option_fmap option_map fst prod_map] in *.
    + change (delete (S i) (x :: l)) with (x :: delete i l). by rewrite IH.
    + by rewrite <- IH.
Qed.

Lemma unsubscribe_subscriptions subscription s :
  eventSubscriptions (unsubscribe subscription s)
  = match indexOf subscription (eventSubscriptions s) with
    | Some index => delete index (eventSubscriptions s)
    | None => eventSubscriptions s
    end.
Proof.
  unfold unsubscribe.
  destruct (indexOf subscription (eventSubscriptions s)) as [index|]; [|done].
  cbn [isConnected]. destruct (isConnected s && forwarded (event subscription)); [|done].
  by destruct (send_fields (Unsubscribe (event subscription))
                 (mk_service (ws s) (userId s) (reconnectAttempts s) (reconnectDelay s)
                    (isConnected s) (delete index (eventSubscriptions s))
                    (reconnectTimer s) (pingInterval s) (created s) (sent s)))
    as (_ & _ & _ & -> & _).
Qed.

End ServiceFacts.

(** X12.  However the service is driven (calls, socket callbacks, timers,
    in any order), the count of reconnect attempts stays between 0 and 5,
    and a pending reconnect timeout was set for 1, 2, 4, 8 or 16
    seconds. *)
Theorem reconnect_backoff_bounded (os : list WebSocketService.occurrence) :
  WebSocketService.backoff_bounded
    (WebSocketService.run WebSocketService.initial os).
Proof.
  assert (WebSocketService.backoff_bounded WebSocketService.initial) as H0.
  { unfold WebSocketService.backoff_bounded, WebSocketService.maxReconnectAttempts.
    cbn. split; [lia|]. split; [done|]. intros d Hd. discriminate. }
  revert H0. generalize WebSocketService.initial. unfold WebSocketService.run.
  induction os as [|o os IH]; intros s H; [done|].
  cbn [foldl]. by apply IH, step_backoff_bounded.
Qed.

(** X13.  After the fifth attempt the service gives up: as long as no
    socket opens, nothing that happens changes the attempt count or
    schedules another reconnect; a timeout still pending can only fire or
    be cleared. *)
Theorem reconnect_gives_up (s : WebSocketService.service)
    (os : list WebSocketService.occurrence) :
  WebSocketService.reconnectAttempts s = WebSocketService.maxReconnectAttempts →
  Forall (fun o => o ≠ WebSocketService.SocketOpened) os →
  WebSocketService.reconnectAttempts (WebSocketService.run s os)
    = WebSocketService.maxReconnectAttempts
  ∧ (WebSocketService.reconnectTimer (WebSocketService.run s os) = None
     ∨ WebSocketService.reconnectTimer (WebSocketService.run s os)
       = WebSocketService.reconnectTimer s).
Proof.
  unfold WebSocketService.run. revert s.
  induction os as [|o os IH]; intros s Ha Hos; [auto|].
  apply Forall_cons in Hos as [Ho Hos]. cbn [foldl].
  destruct (step_gives_up s o Ho Ha) as [Ha' Ht'].
  destruct (IH _ Ha' Hos) as [Ha'' Ht'']. split; [done|].
  destruct Ht'' as [Hn | Hn]; [by left|]. rewrite Hn. exact Ht'.
Qed.

Lemma reconnect_gives_up_witness :
  WebSocketService.reconnectAttempts
    (WebSocketService.run
       (WebSocketService.run WebSocketService.initial WebSocketService.five_losses)
       [WebSocketService.SocketClosed 1006; WebSocketService.ReconnectSettled false;
        WebSocketService.ReconnectTimerFired true])
    = WebSocketService.maxReconnectAttempts
  ∧ (WebSocketService.reconnectTimer
       (WebSocketService.run
          (WebSocketService.run WebSocketService.initial WebSocketService.five_losses)
          [WebSocketService.SocketClosed 1006; WebSocketService.ReconnectSettled false;
           WebSocketService.ReconnectTimerFired true]) = None
     ∨ WebSocketService.reconnectTimer
         (WebSocketService.run
            (WebSocketService.run WebSocketService.initial WebSocketService.five_losses)
            [WebSocketService.SocketClosed 1006; WebSocketService.ReconnectSettled false;
             WebSocketService.ReconnectTimerFired true])
       = WebSocketService.reconnectTimer
           (WebSocketService.run WebSocketService.initial
              WebSocketService.five_losses)).
Proof.
  apply (reconnect_gives_up
           (WebSocketService.run WebSocketService.initial WebSocketService.five_losses)).
  - vm_compute. reflexivity.
  - repeat constructor; discriminate.
Defined.

(** X14.  Unsubscribing removes the caller's own subscription and nothing
    else: in every state the service can reach, the function returned by
    [subscribe] deletes exactly the entry it was created for, keeps the
    others in order, and does nothing when called a second time; calling it
    right after [subscribe] restores the list of subscriptions. *)
Theorem unsubscribe_removes_own_subscription
    (os : list WebSocketService.occurrence)
    (subscription : WebSocketService.EventSubscription)
    (e : WebSocketService.EventType) (cb : nat) :
  let s := WebSocketService.run WebSocketService.initial os in
  WebSocketService.eventSubscriptions (WebSocketService.unsubscribe subscription s)
    = List.filter
        (fun x => negb (bool_decide (WebSocketService.identity x
                                     = WebSocketService.identity subscription)))
        (WebSocketService.eventSubscriptions s)
  ∧ WebSocketService.unsubscribe subscription
      (WebSocketService.unsubscribe subscription s)
    = WebSocketService.unsubscribe subscription s
  ∧ WebSocketService.eventSubscriptions
      (WebSocketService.unsubscribe (WebSocketService.subscribe e cb s).2
         (WebSocketService.subscribe e cb s).1)
    = WebSocketService.eventSubscriptions s.
Proof.
  intros s.
  assert (WebSocketService.subscriptions_distinct s) as Hs
    by apply run_subscriptions_distinct, initial_subscriptions_distinct.
  assert (∀ s' sub, WebSocketService.subscriptions_distinct s' →
            WebSocketService.eventSubscriptions (WebSocketService.unsubscribe sub s')
            = List.filter
                (fun x => negb (bool_decide (WebSocketService.identity x
                                             = WebSocketService.identity sub)))
                (WebSocketService.eventSubscriptions s')) as Hfilter.
  { intros s' sub [_ Hn]. rewrite unsubscribe_subscriptions. by apply indexOf_delete. }
  split; [by apply Hfilter|]. split.
  - assert (WebSocketService.indexOf subscription
              (WebSocketService.eventSubscriptions
                 (WebSocketService.unsubscribe subscription s)) = None) as Hnone.
    { rewrite Hfilter by done. unfold WebSocketService.indexOf.
      destruct (list_find _ _) as [[i x]|] eqn:E; [|done].
      apply list_find_Some in E as (Hl & Hx & _).
      apply list_elem_of_lookup_2, list_elem_of_In, filter_In in Hl as [_ Hl].
      apply negb_true_iff, bool_decide_eq_false in Hl. contradiction. }
    unfold WebSocketService.unsubscribe at 1. by rewrite Hnone.
  - rewrite Hfilter
      by apply (step_subscriptions_distinct s (WebSocketService.CallSubscribe e cb) Hs).
    destruct Hs as [Hc _].
    assert (WebSocketService.eventSubscriptions (WebSocketService.subscribe e cb s).1
            = WebSocketService.eventSubscriptions s
              ++ [WebSocketService.mk_subscription (WebSocketService.created s) e cb])
      as ->.
    { unfold WebSocketService.subscribe. cbn [fst WebSocketService.isConnected].
      destruct (WebSocketService.isConnected s && WebSocketService.forwarded e); [|done].
      by destruct (send_fields (WebSocketService.Subscribe e)
                     (WebSocketService.mk_service (WebSocketService.ws s)
                        (WebSocketService.userId s)
                        (WebSocketService.reconnectAttempts s)
                        (WebSocketService.reconnectDelay s)
                        (WebSocketService.isConnected s)
                        (WebSocketService.eventSubscriptions s
                           ++ [WebSocketService.mk_subscription
                                 (WebSocketService.created s) e cb])
                        (WebSocketService.reconnectTimer s)
                        (WebSocketService.pingInterval s)
                        (S (WebSocketService.created s)) (WebSocketService.sent s)))
        as (_ & _ & _ & -> & _). }
    cbn [snd WebSocketService.subscribe WebSocketService.identity].
    rewrite List.filter_app. cbn [List.filter WebSocketService.identity].
    rewrite bool_decide_eq_true_2 by done. cbn [negb]. rewrite app_nil_r.
    apply forallb_filter_id, forallb_forall. intros y Hy.
    apply negb_true_iff, bool_decide_eq_false_2.
    rewrite Forall_forall in Hc. apply list_elem_of_In in Hy. specialize (Hc y Hy).
    cbn beta in Hc. lia.
Qed.

(** ** Promo codes *)

Section UsersStay.

Variable dep : deployment.

Lemma update_users_keeps_users now db id f db' uid :
  update_users dep now db id f = Some db' →
  is_Some (users db !! uid) → is_Some (users db' !! uid).
Proof.
  unfold update_users. intros H Hu.
  destruct (users db !! id) eqn:E; [|by injection H as <-].
  apply bind_Some in H as [[] [_ H]]. injection H as <-. cbn [users with_users].
  apply lookup_insert_is_Some'. by right.
Qed.

Lemma insert_transaction_keeps_users now db t db' uid :
  insert_transaction dep now db t = Some db' →
  is_Some (users db !! uid) → is_Some (users db' !! uid).
Proof.
  unfold insert_transaction. intros H Hu.
  apply bind_Some in H as [[] [_ H]]. apply bind_Some in H as [db2 [H2 H3]].
  assert (is_Some (users db2 !! uid)) as Hu2.
  { unfold trigger_unlock_balance_on_deposit in H2.
    destruct (_ && _ && _) in H2; [|by injection H2 as <-].
    cbn [users] in H2.
    destruct (users db !! _) as [u|] in H2; [|by injection H2 as <-].
    destruct (PromoCodesMigration.unlock_balance_on_deposit _ _ u);
      [|by injection H2 as <-].
    apply bind_Some in H2 as [[] [_ H2]]. injection H2 as <-. cbn [users with_users].
    apply lookup_insert_is_Some'. by right. }
  unfold trigger_update_user_stats_on_transaction in H3.
  destruct (bool_decide _) in H3.
  - apply bind_Some in H3 as [[] [_ H3]].
    apply bind_Some in H3 as [s [_ H3]]. apply bind_Some in H3 as [[] [_ H3]].
    by injection H3 as <-.
  - by injection H3 as <-.
Qed.

(** No statement of the ledger removes a user. *)
Lemma execute_keeps_users now db st db' uid :
  execute dep now db st = Some db' →
  is_Some (users db !! uid) → is_Some (users db' !! uid).
Proof.
  destruct st; cbn [execute]; intros H Hu.
  - apply bind_Some in H as [[] [_ H]]. apply bind_Some in H as [[] [_ H]].
    injection H as <-. cbn [users with_users]. apply lookup_insert_is_Some'. by right.
  - by eapply update_users_keeps_users.
  - by eapply insert_transaction_keeps_users.
  - apply bind_Some in H as [[] [_ H]]. apply bind_Some in H as [[] [_ H]].
    by injection H as <-.
  - apply bind_Some in H as [OLD [_ H]]. apply bind_Some in H as [[] [_ H]].
    unfold auto_refund_on_payment_cancel in H.
    destruct (_ && _) in H; [|by injection H as <-].
    apply bind_Some in H as [db2 [Hr H]]. unfold refund_updates in Hr.
    apply bind_Some in Hr as [db1 [H1 H2]].
    apply bind_Some in H as [u [_ H]].
    eapply insert_transaction_keeps_users; [exact H|].
    assert (users db2 = users db1) as ->.
    { destruct (user_stats db1 !! pr_user_id row); [|by injection H2 as <-].
      apply bind_Some in H2 as [[] [_ H2]]. by injection H2 as <-. }
    eapply update_users_keeps_users; [exact H1|]. done.
  - apply bind_Some in H as [[] [_ H]]. apply bind_Some in H as [[] [_ H]].
    apply bind_Some in H as [[] [_ H]]. by injection H as <-.
Qed.

End UsersStay.

Section PromoFacts.

Import PromoCodes.

Lemma promo_codes_row_ok_spec codes id pc :
  promo_codes_row_ok codes id pc = true →
  (0 < balance_reward pc ∧ 0 ≤ current_uses pc ∧ current_uses pc ≤ max_uses pc)
  ∧ map_Forall (fun id' pc' => id' = id ∨ code pc' ≠ code pc) codes.
Proof.
  unfold promo_codes_row_ok, check_balance_reward_positive,
    check_current_uses_non_negative, check_current_uses_not_exceed_max,
    promo_codes_code_key.
  rewrite !andb_true_iff, !Z.leb_le, Z.ltb_lt, bool_decide_eq_true. tauto.
Qed.

Lemma promo_tables_put db id pc :
  promo_tables_consistent db →
  promo_codes_row_ok (promo_codes db) id pc = true →
  promo_tables_consistent
    (mk_promo_db (ledger db) (<[id := pc]> (promo_codes db)) (promo_code_uses db)).
Proof.
  intros (Hc & Hk & Hu & Hn) Hok.
  apply promo_codes_row_ok_spec in Hok as [Hrow Hkey].
  split; [|split; [|split]]; cbn [promo_codes promo_code_uses ledger].
  - by apply map_Forall_insert_2.
  - intros i j a b Ha Hb Hab.
    destruct (decide (i = id)) as [->|Hi], (decide (j = id)) as [->|Hj]; [done| | |].
    + rewrite lookup_insert_eq in Ha. injection Ha as <-.
      rewrite lookup_insert_ne in Hb by done.
      destruct (Hkey _ _ Hb) as [?|Hne]; [done|]. by symmetry in Hab.
    + rewrite lookup_insert_eq in Hb. injection Hb as <-.
      rewrite lookup_insert_ne in Ha by done.
      destruct (Hkey _ _ Ha) as [?|Hne]; done.
    + rewrite lookup_insert_ne in Ha, Hb by done. by eapply Hk.
  - eapply Forall_impl; [exact Hu|]. intros u (H1 & H2 & H3). cbn beta.
    split; [|done]. apply lookup_insert_is_Some'. by right.
  - done.
Qed.

Lemma promo_execute_consistent stats_fix now db st db' :
  promo_execute stats_fix now db st = Some db' →
  promo_tables_consistent db → promo_tables_consistent db'.
Proof.
  destruct st; cbn [promo_execute]; intros H Hinv.
  - apply bind_Some in H as [l [Hl H]]. injection H as <-.
    destruct Hinv as (Hc & Hk & Hu & Hn).
    split; [done|]. split; [done|]. split; [|done].
    cbn [promo_codes promo_code_uses ledger].
    eapply Forall_impl; [exact Hu|]. intros u (H1 & H2 & H3). cbn beta.
    split; [done|]. split; [|done]. by eapply execute_keeps_users.
  - apply bind_Some in H as [[] [_ H]]. apply bind_Some in H as [[] [Hok H]].
    apply require_Some in Hok. injection H as <-. by apply promo_tables_put.
  - destruct (promo_codes db !! id); [|by injection H as <-].
    apply bind_Some in H as [[] [Hok H]].
    apply require_Some in Hok. injection H as <-. by apply promo_tables_put.
  - injection H as <-. destruct Hinv as (Hc & Hk & Hu & Hn).
    split; [|split; [|split]]; cbn [promo_codes promo_code_uses ledger].
    + by apply map_Forall_delete.
    + intros i j a b Ha Hb. apply lookup_delete_Some in Ha as [_ Ha].
      apply lookup_delete_Some in Hb as [_ Hb]. by eapply Hk.
    + apply Forall_forall. intros u Hin. apply list_elem_of_In, filter_In in Hin as [Hin Hne].
      apply negb_true_iff, bool_decide_eq_false in Hne.
      rewrite Forall_forall in Hu. apply list_elem_of_In in Hin.
      destruct (Hu u Hin) as (H1 & H2 & H3).
      split; [|done]. by rewrite lookup_delete_ne.
    + eapply sublist_NoDup; [exact Hn|]. apply fmap_sublist.
      clear. induction (promo_code_uses db) as [|u us IH]; [done|].
      cbn [List.filter]. destruct (negb _); by constructor.
  - apply bind_Some in H as [[] [_ H]]. apply bind_Some in H as [[] [Hpc H]].
    apply bind_Some in H as [[] [Hus H]]. apply bind_Some in H as [[] [_ H]].
    apply bind_Some in H as [[] [_ H]]. apply bind_Some in H as [[] [Hpos H]].
    apply bind_Some in H as [[] [Hidx H]].
    apply require_Some in Hpc, Hus, Hpos, Hidx. injection H as <-.
    apply bool_decide_eq_true in Hpc, Hus.
    destruct Hinv as (Hc & Hk & Hu & Hn).
    split; [done|]. split; [done|].
    cbn [promo_codes promo_code_uses ledger]. split.
    + apply Forall_app. split; [done|]. apply Forall_singleton.
      split; [done|]. split; [done|]. by apply Z.ltb_lt.
    + rewrite fmap_app. apply NoDup_app. split; [done|]. split; [|apply NoDup_singleton].
      intros p Hp Hp'. apply list_elem_of_singleton in Hp'. subst p.
      apply list_elem_of_fmap in Hp as (u & Hu' & Hin). injection Hu' as E1 E2.
      unfold idx_promo_code_uses_unique in Hidx. rewrite forallb_forall in Hidx.
      apply list_elem_of_In in Hin. specialize (Hidx u Hin).
      apply negb_true_iff in Hidx.
      by rewrite !bool_decide_eq_true_2 in Hidx.
Qed.

Lemma promo_rollback_consistent stats_fix now db st :
  promo_tables_consistent db →
  promo_tables_consistent (promo_rollback stats_fix now db st).
Proof.
  destruct st; try done. unfold promo_rollback, promo_tables_consistent.
  cbn [promo_codes promo_code_uses ledger].
  by destruct (rollback_tables (mk_deployment true stats_fix) now (ledger db) st)
    as (-> & _).
Qed.

Lemma promo_run_consistent stats_fix script : ∀ db,
  promo_tables_consistent db → promo_tables_consistent (promo_run stats_fix db script).
Proof.
  unfold promo_run. induction script as [|cmd script IH]; intros db H; [done|].
  cbn [foldl]. unfold promo_step at 2.
  destruct (promo_execute stats_fix cmd.1 db cmd.2) as [db'|] eqn:E; cbn [default].
  - apply IH. by eapply promo_execute_consistent.
  - by apply IH, promo_rollback_consistent.
Qed.

Lemma empty_promo_tables_consistent : promo_tables_consistent empty_promo_database.
Proof.
  split; [apply map_Forall_empty|]. split; [intros i j a b Ha; done|].
  split; [constructor|]. cbn. constructor.
Qed.

End PromoFacts.

(** X15.  Whatever statements run, the promo tables stay consistent: every
    promo code has a positive reward and between 0 and [max_uses] counted
    uses, no two promo codes carry the same code, every recorded use
    refers to a stored promo code and a stored user and grants a positive
    amount, and no user is recorded twice for the same promo code. *)
Theorem promo_tables_stay_consistent (stats_fix : bool)
    (script : list (Z * PromoCodes.promo_statement)) :
  PromoCodes.promo_tables_consistent
    (PromoCodes.promo_run stats_fix PromoCodes.empty_promo_database script).
Proof. apply promo_run_consistent, empty_promo_tables_consistent. Qed.

Section PromoViews.

Import PromoCodes.

Lemma newest_first_total {A} (created_at : A → Z) : Total (newest_first created_at).
Proof. intros a b. unfold newest_first. lia. Qed.

Lemma elem_of_active_promo_codes now codes row :
  row ∈ active_promo_codes now codes →
  ∃ id pc, codes !! id = Some pc
    ∧ is_active pc = true
    ∧ match expires_at pc with None => true | Some e => now <? e end = true
    ∧ (current_uses pc <? max_uses pc) = true
    ∧ row = mk_active (code pc) (balance_reward pc) (pc_withdrawal_requirement pc)
              (max_uses pc) (current_uses pc) (max_uses pc - current_uses pc)
              match expires_at pc with
              | None => NoExpiry
              | Some e => if now <? e then ActiveUntil e else Expired
              end
              (pc_created_at pc).
Proof.
  unfold active_promo_codes. rewrite merge_sort_Permutation.
  intros H. apply list_elem_of_fmap in H as (pc & -> & Hin).
  apply list_elem_of_In, filter_In in Hin as [Hin Hf].
  apply list_elem_of_In, list_elem_of_fmap in Hin as ([id pc'] & -> & Hin).
  apply elem_of_map_to_list in Hin. cbn [snd] in *.
  rewrite !andb_true_iff in Hf. destruct Hf as [[H1 H2] H3].
  by exists id, pc'.
Qed.

Lemma active_promo_codes_lists now codes id pc :
  codes !! id = Some pc →
  (is_active pc
   && match expires_at pc with None => true | Some e => now <? e end
   && (current_uses pc <? max_uses pc)) = true →
  code pc ∈ apc_code <$> active_promo_codes now codes.
Proof.
  intros Hl Hf. unfold active_promo_codes. rewrite merge_sort_Permutation.
  rewrite <- list_fmap_compose. apply list_elem_of_fmap.
  exists pc. split; [done|].
  apply list_elem_of_In, filter_In. split; [|exact Hf].
  apply list_elem_of_In, list_elem_of_fmap. exists (id, pc). split; [done|].
  by apply elem_of_map_to_list.
Qed.

Lemma foldr_add_Permutation (l1 l2 : list Z) :
  l1 ≡ₚ l2 → foldr Z.add 0 l1 = foldr Z.add 0 l2.
Proof.
  induction 1 as [|x l1 l2 _ IH|x y l|l1 l2 l3 _ IH1 _ IH2]; cbn [foldr]; lia.
Qed.

Lemma foldr_add_nonneg (l : list Z) : Forall (fun x => 0 ≤ x) l → 0 ≤ foldr Z.add 0 l.
Proof. induction 1; cbn [foldr]; lia. Qed.

Lemma total_granted_cons u us id :
  total_granted (u :: us) id
  = (if bool_decide (promo_code_id u = id) then balance_granted u else 0)
    + total_granted us id.
Proof.
  unfold total_granted. cbn [List.filter].
  destruct (bool_decide (promo_code_id u = id)); [done|]. lia.
Qed.

(** A use is counted for the promo code it names and for no other. *)
Lemma counted_once (l : list (Z * promo_codes_row)) k g :
  NoDup l.*1 → k ∈ l.*1 →
  foldr Z.add 0 ((fun '(id, _) => if bool_decide (k = id) then g else 0) <$> l) = g.
Proof.
  induction l as [|[id pc] l IH]; intros Hn Hin; [by apply elem_of_nil in Hin|].
  rewrite fmap_cons in Hn, Hin. cbn [fst] in Hn, Hin.
  apply NoDup_cons in Hn as [Hid Hn]. rewrite fmap_cons. cbn [foldr].
  destruct (decide (k = id)) as [->|Hne].
  - rewrite bool_decide_eq_true_2 by done.
    assert (foldr Z.add 0
              ((fun '(id', _) => if bool_decide (id = id') then g else 0) <$> l) = 0)
      as ->; [|lia].
    clear IH Hin Hn. induction l as [|[j pc'] l IH]; [done|].
    rewrite fmap_cons in Hid. cbn [fst] in Hid. apply not_elem_of_cons in Hid as [Hj Hid].
    rewrite fmap_cons. cbn [foldr]. rewrite bool_decide_eq_false_2 by done.
    by rewrite IH.
  - rewrite bool_decide_eq_false_2 by done.
    apply elem_of_cons in Hin as [?|Hin]; [done|]. by rewrite IH.
Qed.

Lemma stats_conservation (codes : gmap Z promo_codes_row) uses :
  Forall (fun u => is_Some (codes !! promo_code_id u)) uses →
  foldr Z.add 0 ((fun '(id, _) => total_granted uses id) <$> map_to_list codes)
  = foldr Z.add 0 (balance_granted <$> uses).
Proof.
  induction uses as [|u us IH]; intros Hu.
  - cbn. induction (map_to_list codes) as [|[id pc] l IHl]; [done|].
    rewrite fmap_cons. cbn [foldr]. by rewrite IHl.
  - apply Forall_cons in Hu as [[pc Hpc] Hu]. rewrite fmap_cons. cbn [foldr].
    rewrite <- (IH Hu).
    rewrite <- (counted_once (map_to_list codes) (promo_code_id u) (balance_granted u)).
    + generalize (map_to_list codes). intros l.
      induction l as [|[id pc'] l IHl]; [done|].
      rewrite !fmap_cons. cbn [foldr]. rewrite IHl, total_granted_cons. lia.
    + apply NoDup_fst_map_to_list.
    + apply list_elem_of_fmap. exists (promo_code_id u, pc). split; [done|].
      by apply elem_of_map_to_list.
Qed.

Lemma filter_at_most_one {A} (P : A → bool) (l : list A) :
  NoDup l → (∀ x y, x ∈ l → y ∈ l → P x = true → P y = true → x = y) →
  (length (List.filter P l) ≤ 1)%nat.
Proof.
  induction l as [|x l IH]; intros Hn Huniq; [cbn; lia|].
  apply NoDup_cons in Hn as [Hx Hn]. cbn [List.filter].
  destruct (P x) eqn:Ex.
  - assert (List.filter P l = []) as ->; [|cbn; lia].
    destruct (List.filter P l) as [|y l'] eqn:E; [done|].
    assert (In y (List.filter P l)) as Hy by (rewrite E; by left).
    apply filter_In in Hy as [Hy Py]. apply list_elem_of_In in Hy.
    assert (x = y) as -> by (apply Huniq; [left|by right|done|done]).
    contradiction.
  - apply IH; [done|]. intros a b Ha Hb. apply Huniq; by right.
Qed.

End PromoViews.

(** X16.  The view active_promo_codes lists only promo codes that can be
    redeemed at the time it is read: every row comes from a stored, active
    promo code that has not expired, has at least one use left, and never
    shows the status of an expired code; the rows come newest first. *)
Theorem active_codes_are_redeemable (now : Z)
    (codes : gmap Z PromoCodes.promo_codes_row) :
  Forall (fun row =>
            1 ≤ PromoCodes.apc_remaining_uses row
            ∧ PromoCodes.apc_remaining_uses row
              = PromoCodes.apc_max_uses row - PromoCodes.apc_current_uses row
            ∧ PromoCodes.apc_status row ≠ PromoCodes.Expired
            ∧ ∃ id pc, codes !! id = Some pc
                ∧ PromoCodes.code pc = PromoCodes.apc_code row
                ∧ PromoCodes.is_active pc = true
                ∧ ∀ e, PromoCodes.expires_at pc = Some e → now < e)
         (PromoCodes.active_promo_codes now codes)
  ∧ Sorted (PromoCodes.newest_first PromoCodes.apc_created_at)
           (PromoCodes.active_promo_codes now codes).
Proof.
  split.
  - apply Forall_forall. intros row Hrow.
    apply elem_of_active_promo_codes in Hrow
      as (id & pc & Hl & Ha & He & Hu & ->).
    cbn [PromoCodes.apc_remaining_uses PromoCodes.apc_max_uses
           PromoCodes.apc_current_uses PromoCodes.apc_status PromoCodes.apc_code].
    apply Z.ltb_lt in Hu. split; [lia|]. split; [done|]. split.
    + destruct (PromoCodes.expires_at pc) as [e|]; [|done]. by rewrite He.
    + exists id, pc. split; [done|]. split; [done|]. split; [done|].
      intros e Ee. rewrite Ee in He. by apply Z.ltb_lt.
  - pose proof (newest_first_total PromoCodes.apc_created_at) as Htotal.
    by apply Sorted_merge_sort.
Qed.

(** X17.  A use of a promo code is recorded only while the view
    active_promo_codes, read at the same instant, lists that code.
    Recording it changes nothing else: the promo code keeps its
    [current_uses] and no balance moves, so counting the use and paying the
    reward are left to the caller. *)
Theorem recorded_use_was_listed (stats_fix : bool) (now : Z)
    (db db' : PromoCodes.promo_database) (NEW : PromoCodes.promo_code_uses_row) :
  PromoCodes.promo_execute stats_fix now db (PromoCodes.InsertPromoCodeUse NEW)
    = Some db' →
  (∃ pc, PromoCodes.promo_codes db !! PromoCodes.promo_code_id NEW = Some pc
     ∧ PromoCodes.code pc
       ∈ PromoCodes.apc_code
         <$> PromoCodes.active_promo_codes now (PromoCodes.promo_codes db))
  ∧ PromoCodes.promo_codes db' = PromoCodes.promo_codes db
  ∧ PromoCodes.ledger db' = PromoCodes.ledger db
  ∧ PromoCodes.promo_code_uses db' = PromoCodes.promo_code_uses db ++ [NEW].
Proof.
  cbn [PromoCodes.promo_execute]. intros H.
  apply bind_Some in H as [[] [Hv H]]. apply require_Some in Hv.
  repeat (apply bind_Some in H as [[] [_ H]]). injection H as <-.
  split; [|done].
  unfold PromoCodes.validate_promo_code_use in Hv.
  destruct (PromoCodes.promo_codes db !! PromoCodes.promo_code_id NEW) as [pc|] eqn:E;
    [|discriminate].
  exists pc. split; [done|]. by eapply active_promo_codes_lists.
Qed.

Lemma recorded_use_was_listed_witness :
  (∃ pc, PromoCodes.promo_codes
           (PromoCodes.promo_run false PromoCodes.empty_promo_database
              PromoCodes.promo_session) !! 1 = Some pc
     ∧ PromoCodes.code pc
       ∈ PromoCodes.apc_code
         <$> PromoCodes.active_promo_codes 20
               (PromoCodes.promo_codes
                  (PromoCodes.promo_run false PromoCodes.empty_promo_database
                     PromoCodes.promo_session)))
  ∧ PromoCodes.promo_codes
      (default PromoCodes.empty_promo_database
         (PromoCodes.promo_execute false 20
            (PromoCodes.promo_run false PromoCodes.empty_promo_database
               PromoCodes.promo_session)
            (PromoCodes.InsertPromoCodeUse
               (PromoCodes.mk_promo_code_use 1 1 10000 None 20))))
    = PromoCodes.promo_codes
        (PromoCodes.promo_run false PromoCodes.empty_promo_database
           PromoCodes.promo_session).
Proof.
  destruct (recorded_use_was_listed false 20
              (PromoCodes.promo_run false PromoCodes.empty_promo_database
                 PromoCodes.promo_session)
              (default PromoCodes.empty_promo_database
                 (PromoCodes.promo_execute false 20
                    (PromoCodes.promo_run false PromoCodes.empty_promo_database
                       PromoCodes.promo_session)
                    (PromoCodes.InsertPromoCodeUse
                       (PromoCodes.mk_promo_code_use 1 1 10000 None 20))))
              (PromoCodes.mk_promo_code_use 1 1 10000 None 20))
    as (H1 & H2 & _).
  - vm_compute. reflexivity.
  - split; [exact H1|exact H2].
Defined.

(** X18.  The report of get_promo_code_stats accounts for every recorded
    use exactly once: over all promo codes, the granted totals of the rows
    add up to the sum of [balance_granted] over promo_code_uses.  No row
    shows a negative total or a negative number of remaining uses, and a
    report asked for one code has at most one row. *)
Theorem promo_stats_account_for_every_use (stats_fix : bool)
    (script : list (Z * PromoCodes.promo_statement)) :
  let db := PromoCodes.promo_run stats_fix PromoCodes.empty_promo_database script in
  foldr Z.add 0
    (PromoCodes.pcs_total_granted <$> PromoCodes.get_promo_code_stats db None)
  = foldr Z.add 0 (PromoCodes.balance_granted <$> PromoCodes.promo_code_uses db)
  ∧ (∀ p_code,
       Forall (fun r => 0 ≤ PromoCodes.pcs_remaining_uses r
                        ∧ 0 ≤ PromoCodes.pcs_total_granted r)
              (PromoCodes.get_promo_code_stats db p_code))
  ∧ (∀ c, (length (PromoCodes.get_promo_code_stats db (Some c)) ≤ 1)%nat).
Proof.
  intros db.
  assert (PromoCodes.promo_tables_consistent db) as (Hc & Hk & Hu & Hn)
    by apply promo_run_consistent, empty_promo_tables_consistent.
  unfold PromoCodes.get_promo_code_stats. split; [|split].
  - rewrite (foldr_add_Permutation _ _
               (fmap_Permutation _ _ _ (merge_sort_Permutation _ _))).
    rewrite <- list_fmap_compose.
    rewrite forallb_filter_id
      by (apply forallb_forall; by intros [id pc] _).
    rewrite <- (stats_conservation (PromoCodes.promo_codes db)
                  (PromoCodes.promo_code_uses db)).
    + f_equal. apply list_fmap_ext. by intros i [id pc] _.
    + eapply Forall_impl; [exact Hu|]. by intros u (H1 & _).
  - intros p_code. rewrite merge_sort_Permutation.
    apply Forall_fmap, Forall_forall. intros [id pc] Hin.
    apply list_elem_of_In, filter_In in Hin as [Hin _].
    apply list_elem_of_In, elem_of_map_to_list in Hin.
    destruct (Hc _ _ Hin) as (_ & H0 & Hmax).
    unfold compose. cbn [PromoCodes.pcs_remaining_uses PromoCodes.pcs_total_granted].
    split; [lia|]. unfold PromoCodes.total_granted.
    apply foldr_add_nonneg, Forall_fmap, Forall_forall. intros u Hu'.
    apply list_elem_of_In, filter_In in Hu' as [Hu' _].
    rewrite Forall_forall in Hu. apply list_elem_of_In in Hu'.
    destruct (Hu u Hu') as (_ & _ & Hpos). cbn. lia.
  - intros c. rewrite (Permutation_length (merge_sort_Permutation _ _)).
    rewrite length_fmap. apply filter_at_most_one; [apply NoDup_map_to_list|].
    intros [i a] [j b] Ha Hb Ea Eb.
    apply elem_of_map_to_list in Ha, Hb.
    apply bool_decide_eq_true in Ea, Eb.
    assert (i = j) as -> by (eapply Hk; [exact Ha|exact Hb|congruence]).
    congruence.
Qed.

(** ** Rounding in the crash-point generator *)

Section GeneratorRounding.

Import GameConfig CrashPoint.
Local Open Scope Q_scope.

(** Half-even rounding to the grid moves a value by at most half a
    step. *)
Lemma quantize_hundredths_error (x : Q) :
  (2 * Z.abs (quantize_hundredths x * Z.pos (Qden x) - 100 * Qnum x)
   ≤ Z.pos (Qden x))%Z.
Proof.
  unfold quantize_hundredths. destruct x as [n d]. cbn [Qnum Qden].
  pose proof (Z.div_mod (100 * n) (Z.pos d) ltac:(lia)) as Hdm.
  pose proof (Z.mod_pos_bound (100 * n) (Z.pos d) ltac:(lia)) as Hr.
  set (fl := (100 * n / Z.pos d)%Z) in *.
  set (r := ((100 * n) mod Z.pos d)%Z) in *.
  assert (fl * Z.pos d - 100 * n = - r)%Z as Hdown by lia.
  assert ((fl + 1) * Z.pos d - 100 * n = Z.pos d - r)%Z as Hup by lia.
  destruct (Z.compare_spec (2 * r) (Z.pos d)) as [E|E|E].
  - destruct (Z.even fl); [rewrite Hdown|rewrite Hup]; lia.
  - rewrite Hdown. lia.
  - rewrite Hup. lia.
Qed.

Lemma quantize_error (x : Q) :
  x - (1 # 200) <= quantize x ∧ quantize x <= x + (1 # 200).
Proof.
  pose proof (quantize_hundredths_error x) as H.
  destruct x as [n d]. cbn [Qnum Qden] in H.
  set (q := quantize_hundredths (n # d)) in *.
  unfold quantize, Qle, Qminus, Qplus, Qopp. fold q. cbn [Qnum Qden].
  rewrite !Pos2Z.inj_mul. split; lia.
Qed.

(** Half-even rounding keeps the order. *)
Lemma quantize_hundredths_monotone (x y : Q) :
  x <= y → (quantize_hundredths x ≤ quantize_hundredths y)%Z.
Proof.
  unfold Qle, quantize_hundredths. destruct x as [n d], y as [m e].
  cbn [Qnum Qden]. intros Hle.
  pose proof (Z.div_mod (100 * n) (Z.pos d) ltac:(lia)) as Hdm.
  pose proof (Z.mod_pos_bound (100 * n) (Z.pos d) ltac:(lia)) as Hr.
  pose proof (Z.div_mod (100 * m) (Z.pos e) ltac:(lia)) as Hdm'.
  pose proof (Z.mod_pos_bound (100 * m) (Z.pos e) ltac:(lia)) as Hr'.
  set (fl := (100 * n / Z.pos d)%Z) in *.
  set (r := ((100 * n) mod Z.pos d)%Z) in *.
  set (fl' := (100 * m / Z.pos e)%Z) in *.
  set (r' := ((100 * m) mod Z.pos e)%Z) in *.
  assert (fl ≤ fl')%Z as Hfl.
  { destruct (Z_le_gt_dec fl fl') as [|Hgt]; [done|]. exfalso.
    assert (fl' + 1 ≤ fl)%Z as H1 by lia.
    assert (Z.pos d * (fl' + 1) ≤ Z.pos d * fl)%Z as H2 by nia.
    assert (Z.pos e * (Z.pos d * fl) ≤ Z.pos e * (100 * n))%Z as H3 by nia.
    assert (Z.pos d * (100 * m) < Z.pos d * (Z.pos e * (fl' + 1)))%Z as H4 by nia.
    nia. }
  assert (quantize_hundredths_upper :
            (match (2 * r ?= Z.pos d)%Z with
             | Eq => if Z.even fl then fl else fl + 1
             | Lt => fl
             | Gt => fl + 1
             end ≤ fl + 1)%Z).
  { destruct (2 * r ?= Z.pos d)%Z; [destruct (Z.even fl)| |]; lia. }
  assert (quantize_hundredths_lower :
            (fl' ≤ match (2 * r' ?= Z.pos e)%Z with
                   | Eq => if Z.even fl' then fl' else fl' + 1
                   | Lt => fl'
                   | Gt => fl' + 1
                   end)%Z).
  { destruct (2 * r' ?= Z.pos e)%Z; [destruct (Z.even fl')| |]; lia. }
  destruct (Z.eq_dec fl fl') as [Hsame|Hne]; [|lia].
  clear quantize_hundredths_upper quantize_hundredths_lower.
  assert ((2 * r - Z.pos d) * Z.pos e ≤ (2 * r' - Z.pos e) * Z.pos d)%Z as Hkey by nia.
  assert (0 < 2 * r - Z.pos d → 0 < 2 * r' - Z.pos e)%Z as Hpos by nia.
  assert (0 ≤ 2 * r - Z.pos d → 0 ≤ 2 * r' - Z.pos e)%Z as Hnonneg by nia.
  rewrite <- Hsame.
  destruct (Z.compare_spec (2 * r) (Z.pos d)) as [E1|E1|E1];
    destruct (Z.compare_spec (2 * r') (Z.pos e)) as [E2|E2|E2];
    destruct (Z.even fl); lia.
Qed.

Lemma quantize_monotone (x y : Q) : x <= y → quantize x <= quantize y.
Proof.
  intros H. apply quantize_hundredths_monotone in H.
  unfold quantize, Qle. cbn [Qnum Qden]. lia.
Qed.

Lemma walk_ranges_monotone ranges : ∀ c rand r r' cp,
  Forall (fun rc => min rc <= max rc) ranges → r <= r' →
  walk_ranges ranges c rand r = Some cp →
  ∃ cp' rc, walk_ranges ranges c rand r' = Some cp'
    ∧ cp <= cp'
    ∧ rc ∈ ranges
    ∧ cp = quantize (min rc + (max rc - min rc) * r)
    ∧ cp' = quantize (min rc + (max rc - min rc) * r').
Proof.
  induction ranges as [|rc0 rest IH]; intros c rand r r' cp Hord Hr H; [done|].
  apply Forall_cons in Hord as [H0 Hord]. cbn [walk_ranges] in *.
  destruct (Qle_bool rand (c + probability rc0)).
  - injection H as <-. eexists _, rc0. split; [done|].
    split; [apply quantize_monotone; nra|]. split; [by left|done].
  - destruct (IH _ _ _ _ _ Hord Hr H) as (cp' & rc & H1 & H2 & H3 & H4).
    exists cp', rc. split; [done|]. split; [done|]. split; [by right|done].
Qed.

End GeneratorRounding.

(** X19.  Rounding the crash point to two decimals moves it by at most
    0.005 and keeps the order of the draws: for a table whose ranges have
    [min <= max] and the same range-selecting draw, a larger second draw
    never gives a smaller crash point, and each crash point lies within
    0.005 of the interpolated value [min + (max - min) * rand_uniform] of
    the range both draws select. *)
Theorem crash_point_rounding_keeps_order
    (crash_ranges : list GameConfig.range_config) (rand r r' cp : Q) :
  Forall (fun rc => (GameConfig.min rc <= GameConfig.max rc)%Q) crash_ranges →
  (r <= r')%Q →
  GameConfig.generate_crash_point crash_ranges rand r = Some cp →
  ∃ cp' rc,
    GameConfig.generate_crash_point crash_ranges rand r' = Some cp'
    ∧ (cp <= cp')%Q
    ∧ rc ∈ crash_ranges
    ∧ (GameConfig.min rc + (GameConfig.max rc - GameConfig.min rc) * r - (1 # 200)
       <= cp)%Q
    ∧ (cp <= GameConfig.min rc + (GameConfig.max rc - GameConfig.min rc) * r
             + (1 # 200))%Q
    ∧ (GameConfig.min rc + (GameConfig.max rc - GameConfig.min rc) * r' - (1 # 200)
       <= cp')%Q
    ∧ (cp' <= GameConfig.min rc + (GameConfig.max rc - GameConfig.min rc) * r'
              + (1 # 200))%Q.
Proof.
  intros Hord Hr H. unfold GameConfig.generate_crash_point in *.
  destruct (walk_ranges_monotone _ _ _ _ _ _ Hord Hr H)
    as (cp' & rc & H1 & H2 & H3 & -> & ->).
  exists (GameConfig.quantize
            (GameConfig.min rc + (GameConfig.max rc - GameConfig.min rc) * r')), rc.
  split; [done|]. split; [done|]. split; [done|].
  destruct (quantize_error
              (GameConfig.min rc + (GameConfig.max rc - GameConfig.min rc) * r)).
  destruct (quantize_error
              (GameConfig.min rc + (GameConfig.max rc - GameConfig.min rc) * r')).
  done.
Qed.

Lemma crash_point_rounding_keeps_order_witness :
  ∃ cp' rc,
    GameConfig.generate_crash_point GameConfig.default_ranges (1 # 2) (1 # 2)
      = Some cp'
    ∧ (158 # 100 <= cp')%Q
    ∧ rc ∈ GameConfig.default_ranges.
Proof.
  destruct (crash_point_rounding_keeps_order GameConfig.default_ranges
              (1 # 2) (1 # 4) (1 # 2) (158 # 100))
    as (cp' & rc & H1 & H2 & H3 & _).
  - repeat constructor; cbn; unfold Qle; cbn; lia.
  - unfold Qle. cbn. lia.
  - vm_compute. reflexivity.
  - exists cp', rc. split; [exact H1|]. split; [exact H2|exact H3].
Defined.
